(** * Tile cache and viewport scheduler of the WSI review viewer

    A shallow embedding of [CC_System/revui/views/MainWidget.py]:
    the LRU [TileCache], the [WSIViewer] wrapper around the slide, and the
    parts of [MainWidget] that schedule tiles, receive decoded tiles,
    select the pyramid level and recentre the view on a level switch.

    Conventions.
    - Python [int] is [Z].  A Python [float] is a binary64; it is modelled
      by the rational it denotes ([Q]).  Comparisons of floats are exact,
      so they are the comparisons of [Q]; the result of [+], [-], [*] and
      [/] is the double nearest to the exact result ([round64]).
    - A [dict] used as a map is a [gmap]; a [dict] whose insertion order is
      read back (the placed tiles) is an association list; a [set] is a
      [gset].
    - A raised exception is a [Raise] result; an exception raised inside a
      worker task is swallowed by the executor's future. *)

From Stdlib Require Import ZArith QArith Qabs Lia Lqa Sorted Permutation.
From stdpp Require Import gmap list strings.

Open Scope Z_scope.

(** ** Python results *)

Inductive PyExc : Type :=
  | IndexError
  | OpenSlideError.

Inductive result (A : Type) : Type :=
  | Ok (a : A)
  | Raise (e : PyExc).
Arguments Ok {A} a.
Arguments Raise {A} e.

Definition bind {A B : Type} (r : result A) (f : A -> result B) : result B :=
  match r with
  | Ok a => f a
  | Raise e => Raise e
  end.

(** ** TileCache (MainWidget.py, lines 17-47) *)

Module TileCache.
Section Cache.
Context {K : Type} `{Countable K} {V : Type}.

(** [self.cache], [self.access_order], [self.max_size].  The lock only
    serialises callers; every method body runs atomically under it. *)
Record t : Type := mk {
  cache : gmap K V;
  access_order : list K;
  max_size : Z
}.

(** [__init__(max_size)] *)
Definition init (n : Z) : t :=
  {| cache := ∅; access_order := []; max_size := n |}.

(** [list.remove(key)]: drops the first occurrence; [None] stands for the
    [ValueError] raised when there is none. *)
Fixpoint list_remove (k : K) (l : list K) : option (list K) :=
  match l with
  | [] => None
  | x :: l' =>
      if decide (x = k) then Some l'
      else match list_remove k l' with
           | Some r => Some (x :: r)
           | None => None
           end
  end.

(** [get(key)]: the returned buffer ([None] on a miss) and the cache
    afterwards. *)
Definition get (k : K) (c : t) : option V * t :=
  match cache c !! k with
  | Some v =>
      let order :=
        match list_remove k (access_order c) with
        | Some l => l
        | None => access_order c          (* except ValueError: pass *)
        end in
      (Some v, {| cache := cache c;
                  access_order := order ++ [k];
                  max_size := max_size c |})
  | None => (None, c)
  end.

(** [put(key, value)].  [access_order.pop(0)] raises [IndexError] on an
    empty list, before anything has been changed. *)
Definition put (k : K) (v : V) (c : t) : result t :=
  match cache c !! k with
  | Some _ => Ok c
  | None =>
      if max_size c <=? Z.of_nat (length (access_order c)) then
        match access_order c with
        | [] => Raise IndexError
        | oldest :: rest =>
            Ok {| cache := <[k := v]> (delete oldest (cache c));
                  access_order := rest ++ [k];
                  max_size := max_size c |}
        end
      else
        Ok {| cache := <[k := v]> (cache c);
              access_order := access_order c ++ [k];
              max_size := max_size c |}
  end.

(** [clear()] *)
Definition clear (c : t) : t :=
  {| cache := ∅; access_order := []; max_size := max_size c |}.

(** A run of [put] calls, in list order; the first exception stops it. *)
Fixpoint put_all (kvs : list (K * V)) (c : t) : result t :=
  match kvs with
  | [] => Ok c
  | (k, v) :: kvs' => bind (put k v c) (put_all kvs')
  end.

(** The key that [put k] pops from the front of the recency list, if it
    evicts at all. *)
Definition evicted_by_put (k : K) (c : t) : option K :=
  match cache c !! k with
  | Some _ => None
  | None =>
      if max_size c <=? Z.of_nat (length (access_order c))
      then head (access_order c)
      else None
  end.

(** The representation invariant of section 3 of the specification: the
    recency list holds exactly the cached keys, once each, and there are
    never more than [max_size] of them. *)
Record wf (c : t) : Prop := {
  wf_nodup : NoDup (access_order c);
  wf_keys : forall k, k ∈ access_order c <-> is_Some (cache c !! k);
  wf_bound : Z.of_nat (length (access_order c)) <= max_size c
}.

End Cache.
Arguments t K {_ _} V.
End TileCache.

(** ** Numbers *)

(** [a < b] on floats. *)
Definition Qlt_bool (a b : Q) : bool := negb (Qle_bool b a).

(** [int(f)] for a float [f]: truncation towards zero. *)
Definition py_int (q : Q) : Z := Z.quot (Qnum q) (Zpos (Qden q)).

(** *** Doubles

    IEEE 754 binary64, round to nearest, ties to even: 53 bits of
    significand, the least bit never below [2^-1074].  An [int] operand of
    a float operation enters with its value.  Infinities and NaN, which
    the pixel coordinates and scales of this program do not reach, are not
    modelled. *)

(** [n / d] rounded to the nearest integer, ties to even, for [0 <= n]
    and [0 < d]. *)
Definition round_half_even (n d : Z) : Z :=
  let m := n / d in
  match 2 * (n mod d) ?= d with
  | Lt => m
  | Gt => m + 1
  | Eq => if Z.even m then m else m + 1
  end.

(** The double nearest to [n / d], for positive [n] and [d]: with [e] the
    exponent of the least bit, [n / d] is rounded to a multiple of
    [2^e]. *)
Definition round64_pos (n d : Z) : Q :=
  let scaled e := if 0 <=? e then n / (d * 2 ^ e) else (n * 2 ^ (- e)) / d in
  let e0 := Z.log2 n - Z.log2 d - 52 in
  let e1 := if scaled e0 <? 2 ^ 52 then e0 - 1 else e0 in
  let e := Z.max e1 (-1074) in
  if 0 <=? e
  then inject_Z (round_half_even n (d * 2 ^ e) * 2 ^ e)
  else Qred (Qmake (round_half_even (n * 2 ^ (- e)) d) (Z.to_pos (2 ^ (- e)))).

Definition round64 (q : Q) : Q :=
  match Qnum q with
  | 0 => 0%Q
  | Zpos n => round64_pos (Zpos n) (Zpos (Qden q))
  | Zneg n => Qopp (round64_pos (Zpos n) (Zpos (Qden q)))
  end.

(** [a + b], [a - b], [a * b], [a / b] on floats. *)
Definition fadd (a b : Q) : Q := round64 (a + b).
Definition fsub (a b : Q) : Q := round64 (a - b).
Definition fmul (a b : Q) : Q := round64 (a * b).
Definition fdiv (a b : Q) : Q := round64 (a / b).

(** [x ** 2] on a float is [pow(x, 2.0)] of the platform's C library,
    which is close to the square but need not be its nearest double; the
    development holds for any such function. *)
Class FloatPow : Type := { pow2 : Q -> Q }.

(** [range(start, stop, step)] for a positive [step]. *)
Definition py_range (start stop step : Z) : list Z :=
  map (fun i => start + Z.of_nat i * step)
      (seq 0 (Z.to_nat ((stop - start + step - 1) / step))).

(** ** Qt geometry values *)

Record QPointF : Type := { pt_x : Q; pt_y : Q }.

Record QRectF : Type := { rect_x : Q; rect_y : Q; rect_w : Q; rect_h : Q }.

Definition rect_left (r : QRectF) : Q := rect_x r.
Definition rect_top (r : QRectF) : Q := rect_y r.
Definition rect_right (r : QRectF) : Q := fadd (rect_x r) (rect_w r).
Definition rect_bottom (r : QRectF) : Q := fadd (rect_y r) (rect_h r).
Definition rect_center (r : QRectF) : QPointF :=
  {| pt_x := fadd (rect_x r) (fdiv (rect_w r) 2);
     pt_y := fadd (rect_y r) (fdiv (rect_h r) 2) |}.
Definition rect_isEmpty (r : QRectF) : bool :=
  Qle_bool (rect_w r) 0 || Qle_bool (rect_h r) 0.

(** ** The slide and its wrapper (MainWidget.py, lines 51-91) *)

(** A decoded RGB tile: an array of shape [(arr_h, arr_w, 3)]. *)
Record ndarray : Type := { arr_h : Z; arr_w : Z; arr_data : list Z }.

Global Instance ndarray_eq_dec : EqDecision ndarray.
Proof. solve_decision. Defined.

(** What the [object] argument of the [tile_loaded] signal can be. *)
Inductive pyobject : Type :=
  | PyNone
  | PyArray (a : ndarray)
  | PyOther.

(** The part of [openslide.OpenSlide] the viewer reads.  [read_region]
    takes the level-0 origin, the level and the tile size; [Raise] is an
    exception of the decoder. *)
Record OpenSlide : Type := {
  level_count : Z;
  level_dimensions : list (Z * Z);
  level_downsamples : list Q;
  read_region : Z * Z -> Z -> Z * Z -> result ndarray
}.

(** Key of the viewer's cache: [(level, x_l0, y_l0, tile_size)]. *)
Definition cache_key : Type := (Z * Z * Z * Z)%type.

Record WSIViewer : Type := {
  slide : OpenSlide;
  cache : TileCache.t cache_key ndarray
}.

(** [WSIViewer.__init__] once [openslide.OpenSlide(file_path)] has
    returned [s]. *)
Definition WSIViewer_init (s : OpenSlide) : WSIViewer :=
  {| slide := s; cache := TileCache.init 1600 |}.

Definition set_cache (c : TileCache.t cache_key ndarray) (v : WSIViewer) : WSIViewer :=
  {| slide := slide v; cache := c |}.

(** [read_tile(x_l0, y_l0, tile_size, level)]: the result and the viewer
    afterwards. *)
Definition read_tile (x_l0 y_l0 tile_size level : Z) (v : WSIViewer)
  : result ndarray * WSIViewer :=
  let key : cache_key := (level, x_l0, y_l0, tile_size) in
  match TileCache.get key (cache v) with
  | (Some cached, c1) => (Ok cached, set_cache c1 v)
  | (None, c1) =>
      match read_region (slide v) (x_l0, y_l0) level (tile_size, tile_size) with
      | Raise e => (Raise e, set_cache c1 v)
      | Ok arr =>
          match TileCache.put key arr c1 with
          | Ok c2 => (Ok arr, set_cache c2 v)
          | Raise e => (Raise e, set_cache c1 v)
          end
      end
  end.

(** [level_dimensions[level]], [level_downsamples[level]].  The index is in
    range whenever the widget's level is ([level_in_range] below); the
    default stands for the [IndexError] outside it. *)
Definition get_dimensions (v : WSIViewer) (level : Z) : Z * Z :=
  nth (Z.to_nat level) (level_dimensions (slide v)) (0, 0).

Definition get_level_count (v : WSIViewer) : Z := level_count (slide v).

Definition get_downsample (v : WSIViewer) (level : Z) : Q :=
  nth (Z.to_nat level) (level_downsamples (slide v)) 1%Q.

(** [close()] *)
Definition WSIViewer_close (v : WSIViewer) : WSIViewer :=
  set_cache (TileCache.clear (cache v)) v.

(** ** The graphics view

    [QGraphicsView] and the geometry of its scene belong to Qt.  The widget
    uses the queries and commands below; the two laws say that neither
    scrolling nor resizing the scene touches the view's transform. *)

Class GraphicsView (View : Type) : Type := {
  (** [transform().m11()] *)
  view_m11 : View -> Q;
  (** [mapToScene(viewport().rect()).boundingRect().intersected(scene.sceneRect())] *)
  view_visible_rect : View -> QRectF;
  (** [mapToScene(viewport().rect().center())] *)
  view_center : View -> QPointF;
  (** [centerOn(p)] *)
  view_centerOn : QPointF -> View -> View;
  (** [scene.setSceneRect(0, 0, w, h)] *)
  view_setSceneRect : Z * Z -> View -> View;
  (** [fitInView(scene.sceneRect(), Qt.KeepAspectRatio)] *)
  view_fitInView : View -> View;
  view_m11_centerOn : forall p v, view_m11 (view_centerOn p v) = view_m11 v;
  view_m11_setSceneRect : forall d v, view_m11 (view_setSceneRect d v) = view_m11 v
}.

(** Key of a placed or pending tile: [(lv, x, y)], level-space origin. *)
Definition tile_key : Type := (Z * Z * Z)%type.

(** A [QGraphicsPixmapItem]: its pixmap and its offset. *)
Record PixmapItem : Type := { item_pix : ndarray; item_offset : Z * Z }.

Global Instance PixmapItem_eq_dec : EqDecision PixmapItem.
Proof. solve_decision. Defined.

(** The closure handed to the executor: [task(lv, tx, ty, x0, y0, t)]. *)
Record Task : Type := {
  task_lv : Z; task_tx : Z; task_ty : Z;
  task_x0 : Z; task_y0 : Z; task_t : Z
}.

Global Instance Task_eq_dec : EqDecision Task.
Proof. solve_decision. Defined.

Definition task_key (t : Task) : tile_key := (task_lv t, task_tx t, task_ty t).

(** The calls a scheduling pass makes on the pending set and the executor. *)
Inductive Effect : Type :=
  | PendingAdd (k : tile_key)
  | Submit (t : Task).

Global Instance Effect_eq_dec : EqDecision Effect.
Proof. solve_decision. Defined.

Definition TILE_SIZE : Z := 512.
Definition MAX_TILES_PER_REQUEST : Z := 256.
Definition MAX_TILES_ON_SCENE : Z := 2500.

(** The hysteresis thresholds of [_maybe_change_level]: the doubles that
    the literals [2.4] and [0.7] denote. *)
Definition upper : Q := 5404319552844595 # 2251799813685248.
Definition lower : Q := 3152519739159347 # 4503599627370496.

(** ** MainWidget (MainWidget.py, lines 310-962) *)

Module MainWidget.
Section Widget.
Context {View : Type} `{GraphicsView View} `{FloatPow}.

(** The attributes of the widget that the tile machinery reads or
    writes.  [scene_items] are the pixmap items of [self.scene] (the
    short-lived ROI rectangle, its only other item, is left out);
    [update_timer] tells whether the single-shot refresh timer is armed;
    [effects] records, oldest first, the calls made on
    [self.pending_tasks.add] and [self.executor.submit]. *)
Record t : Type := mk {
  wsi_viewer : option WSIViewer;
  wsi_tile_items : list (tile_key * PixmapItem);
  pending_tasks : gset tile_key;
  current_level : Z;
  scene_items : list PixmapItem;
  graphics_view : View;
  update_timer : bool;
  effects : list Effect
}.

(** [__init__], around the view that Qt builds. *)
Definition init (view : View) : t :=
  {| wsi_viewer := None; wsi_tile_items := []; pending_tasks := ∅;
     current_level := 0; scene_items := []; graphics_view := view;
     update_timer := false; effects := [] |}.

Definition set_viewer (v : option WSIViewer) (w : t) : t :=
  mk v (wsi_tile_items w) (pending_tasks w) (current_level w)
     (scene_items w) (graphics_view w) (update_timer w) (effects w).
Definition set_tile_items (its : list (tile_key * PixmapItem)) (w : t) : t :=
  mk (wsi_viewer w) its (pending_tasks w) (current_level w)
     (scene_items w) (graphics_view w) (update_timer w) (effects w).
Definition set_pending (p : gset tile_key) (w : t) : t :=
  mk (wsi_viewer w) (wsi_tile_items w) p (current_level w)
     (scene_items w) (graphics_view w) (update_timer w) (effects w).
Definition set_level (l : Z) (w : t) : t :=
  mk (wsi_viewer w) (wsi_tile_items w) (pending_tasks w) l
     (scene_items w) (graphics_view w) (update_timer w) (effects w).
Definition set_scene (sc : list PixmapItem) (w : t) : t :=
  mk (wsi_viewer w) (wsi_tile_items w) (pending_tasks w) (current_level w)
     sc (graphics_view w) (update_timer w) (effects w).
Definition set_view (gv : View) (w : t) : t :=
  mk (wsi_viewer w) (wsi_tile_items w) (pending_tasks w) (current_level w)
     (scene_items w) gv (update_timer w) (effects w).
Definition set_timer (b : bool) (w : t) : t :=
  mk (wsi_viewer w) (wsi_tile_items w) (pending_tasks w) (current_level w)
     (scene_items w) (graphics_view w) b (effects w).
Definition add_effect (e : Effect) (w : t) : t :=
  mk (wsi_viewer w) (wsi_tile_items w) (pending_tasks w) (current_level w)
     (scene_items w) (graphics_view w) (update_timer w) (effects w ++ [e]).

(** [self.scene.clear(); self.wsi_tile_items.clear();
    self.pending_tasks.clear()] *)
Definition clear_tiles (w : t) : t :=
  set_pending ∅ (set_tile_items [] (set_scene [] w)).

(** [key in self.wsi_tile_items], [key in self.pending_tasks] *)
Definition placed (k : tile_key) (w : t) : bool :=
  bool_decide (k ∈ (wsi_tile_items w).*1).
Definition pending (k : tile_key) (w : t) : bool :=
  bool_decide (k ∈ pending_tasks w).

(** [dict.pop(k, None)] on the placed tiles. *)
Definition dict_pop (k : tile_key) (its : list (tile_key * PixmapItem))
  : list (tile_key * PixmapItem) :=
  List.filter (fun p => negb (bool_decide (p.1 = k))) its.

(** [scene.removeItem(it)] *)
Fixpoint scene_removeItem (it : PixmapItem) (sc : list PixmapItem) : list PixmapItem :=
  match sc with
  | [] => []
  | x :: sc' => if decide (x = it) then sc' else x :: scene_removeItem it sc'
  end.

(** One turn of either removal loop: [scene.removeItem(item)] and
    [wsi_tile_items.pop(key)]. *)
Definition remove_tile (w : t) (p : tile_key * PixmapItem) : t :=
  set_tile_items (dict_pop p.1 (wsi_tile_items w))
                 (set_scene (scene_removeItem p.2 (scene_items w)) w).

(** Lines 865-868: above the ceiling, the oldest third goes. *)
Definition capacity_guard (w : t) : t :=
  if MAX_TILES_ON_SCENE <? Z.of_nat (length (wsi_tile_items w)) then
    foldl remove_tile w
          (take (Z.to_nat (Z.of_nat (length (wsi_tile_items w)) / 3))
                (wsi_tile_items w))
  else w.

(** The test of lines 874-878 that puts a placed tile on [to_remove]. *)
Definition out_of_view (level x0 y0 x1 y1 : Z) (k : tile_key) : bool :=
  let '(lv, tx, ty) := k in
  let tile := TILE_SIZE in
  let margin := TILE_SIZE in
  negb (lv =? level)
  || (tx + tile <? x0 - margin) || (x1 + margin <? tx)
  || (ty + tile <? y0 - margin) || (y1 + margin <? ty).

(** Lines 870-881 *)
Definition evict_invisible (x0 y0 x1 y1 : Z) (w : t) : t :=
  let to_remove :=
    List.filter (fun p => out_of_view (current_level w) x0 y0 x1 y1 p.1)
                (wsi_tile_items w) in
  foldl remove_tile w to_remove.

(** [dist2] of lines 893-895. *)
Definition dist2 (center : QPointF) (x y : Z) : Q :=
  let cx := fadd (inject_Z x) (fdiv (inject_Z TILE_SIZE) 2) in
  let cy := fadd (inject_Z y) (fdiv (inject_Z TILE_SIZE) 2) in
  fadd (pow2 (fsub cx (pt_x center))) (pow2 (fsub cy (pt_y center))).

(** A candidate [(dist2, x, y)]. *)
Definition candidate : Type := (Q * Z * Z)%type.
Definition cand_dist (c : candidate) : Q := c.1.1.
Definition cand_key (level : Z) (c : candidate) : tile_key := (level, c.1.2, c.2).

(** Lines 887-896: the two nested [range] loops, rows outermost. *)
Definition candidates (x0 y0 x1 y1 : Z) (center : QPointF) (w : t) : list candidate :=
  let tile := TILE_SIZE in
  flat_map (fun y =>
    flat_map (fun x =>
      let key : tile_key := (current_level w, x, y) in
      if placed key w || pending key w then []
      else [(dist2 center x y, x, y)])
      (py_range x0 (x1 + tile) tile))
    (py_range y0 (y1 + tile) tile).

(** [candidates.sort(key=lambda t: t[0])]: Python's sort is stable; the
    stable sort of a list is unique, here computed by insertion. *)
Fixpoint insert_by_dist (c : candidate) (l : list candidate) : list candidate :=
  match l with
  | [] => [c]
  | d :: l' =>
      if Qle_bool (cand_dist c) (cand_dist d) then c :: d :: l'
      else d :: insert_by_dist c l'
  end.

Definition sort_by_dist (l : list candidate) : list candidate :=
  foldr insert_by_dist [] l.

(** The task built at lines 904-911 for the candidate at [(x, y)]. *)
Definition make_task (level : Z) (ds : Q) (x y : Z) : Task :=
  {| task_lv := level; task_tx := x; task_ty := y;
     task_x0 := py_int (fmul (inject_Z x) ds);
     task_y0 := py_int (fmul (inject_Z y) ds);
     task_t := TILE_SIZE |}.

(** One turn of the dispatch loop, lines 904-915. *)
Definition dispatch_one (ds : Q) (c : candidate) (w : t) : t :=
  let key := cand_key (current_level w) c in
  let w1 := add_effect (PendingAdd key) (set_pending ({[key]} ∪ pending_tasks w) w) in
  add_effect (Submit (make_task (current_level w) ds c.1.2 c.2)) w1.

(** The dispatch loop, lines 900-916, with its counter. *)
Fixpoint dispatch (ds : Q) (cs : list candidate) (count : Z) (w : t) : t :=
  match cs with
  | [] => w
  | c :: cs' =>
      if MAX_TILES_PER_REQUEST <=? count then w
      else dispatch ds cs' (count + 1) (dispatch_one ds c w)
  end.

(** [update_visible_tiles], lines 849-916. *)
Definition update_visible_tiles (w : t) : t :=
  match wsi_viewer w with
  | None => w
  | Some v =>
      let rect := view_visible_rect (graphics_view w) in
      if rect_isEmpty rect then w
      else
        let tile := TILE_SIZE in
        let x0 := py_int (rect_left rect) / tile * tile in
        let y0 := py_int (rect_top rect) / tile * tile in
        let x1 := py_int (rect_right rect) in
        let y1 := py_int (rect_bottom rect) in
        let w1 := capacity_guard w in
        let w2 := evict_invisible x0 y0 x1 y1 w1 in
        let ds := get_downsample v (current_level w2) in
        let center := rect_center rect in
        let cs := sort_by_dist (candidates x0 y0 x1 y1 center w2) in
        dispatch ds cs 0 w2
  end.

(** The body of a submitted task when a worker runs it (lines 911-913):
    the widget afterwards and the [tile_loaded] signal, if one is
    emitted.  An exception leaves the task without emitting; the future
    that holds it is never looked at. *)
Definition run_task (tk : Task) (w : t) : t * option (Z * Z * Z * pyobject) :=
  match wsi_viewer w with
  | None => (w, None)
  | Some v =>
      match read_tile (task_x0 tk) (task_y0 tk) (task_t tk) (task_lv tk) v with
      | (Ok arr, v') =>
          (set_viewer (Some v') w,
           Some (task_tx tk, task_ty tk, task_lv tk, PyArray arr))
      | (Raise _, v') => (set_viewer (Some v') w, None)
      end
  end.

(** [_on_tile_loaded(x, y, level, arr)], lines 918-935. *)
Definition _on_tile_loaded (x y level : Z) (arr : pyobject) (w : t) : t :=
  let key : tile_key := (level, x, y) in
  let w1 := set_pending (pending_tasks w ∖ {[key]}) w in
  match arr with
  | PyArray a =>
      match wsi_viewer w1 with
      | None => w1
      | Some _ =>
          if negb (level =? current_level w1) then w1
          else if placed key w1 then w1
          else
            let item := {| item_pix := a; item_offset := (x, y) |} in
            set_tile_items (wsi_tile_items w1 ++ [(key, item)])
                           (set_scene (scene_items w1 ++ [item]) w1)
      end
  | _ => w1
  end.

(** The selector's own decision, lines 804-807. *)
Definition select_level (view_scale : Q) (level max_level : Z) : Z :=
  if Qlt_bool upper view_scale && (0 <? level) then level - 1
  else if Qlt_bool view_scale lower && (level <? max_level) then level + 1
  else level.

(** The centre handed to [centerOn], lines 821-822 and 832. *)
Definition recenter (old_ds new_ds : Q) (c : QPointF) : QPointF :=
  let cx0 := fmul (pt_x c) old_ds in
  let cy0 := fmul (pt_y c) old_ds in
  {| pt_x := fdiv cx0 new_ds; pt_y := fdiv cy0 new_ds |}.

(** [_reload_scene_for_level] up to [view.centerOn], lines 812-833. *)
Definition reload_and_center (old_level : Z) (v : WSIViewer) (w : t) : t :=
  let old_ds := get_downsample v old_level in
  let new_ds := get_downsample v (current_level w) in
  let center_scene_old := view_center (graphics_view w) in
  let dim := get_dimensions v (current_level w) in
  let w1 := set_view (view_setSceneRect dim (graphics_view w)) w in
  let w2 := clear_tiles w1 in
  let center_scene_new := recenter old_ds new_ds center_scene_old in
  set_view (view_centerOn center_scene_new (graphics_view w2)) w2.

(** A forced update re-enters [_do_update], which reaches
    [_maybe_change_level] again; the methods on that cycle take the
    re-entered [_do_update] as [do_update_rec].  [None] means that it did
    not return. *)
Section Reentrant.
Variable do_update_rec : t -> option t.

(** [request_update(force)], lines 837-842 *)
Definition request_update (force : bool) (w : t) : option t :=
  if force then do_update_rec (set_timer false w)
  else Some (set_timer true w).

(** [_reload_scene_for_level(old_level)], lines 812-834 *)
Definition _reload_scene_for_level (old_level : Z) (w : t) : option t :=
  match wsi_viewer w with
  | None => Some w
  | Some v => request_update true (reload_and_center old_level v w)
  end.

(** [_maybe_change_level(view_scale)], lines 789-810 *)
Definition _maybe_change_level (view_scale : Q) (w : t) : option t :=
  match wsi_viewer w with
  | None => Some w
  | Some v =>
      let max_level := get_level_count v - 1 in
      let old_level := current_level w in
      let w1 := set_level (select_level view_scale (current_level w) max_level) w in
      if negb (current_level w1 =? old_level)
      then _reload_scene_for_level old_level w1
      else Some w1
  end.



(** [_update_scale_bar_and_hud], lines 748-773; the scale bar, the HUD
    and the overview it repaints are not part of the state. *)
Definition _update_scale_bar_and_hud (w : t) : option t :=
  match wsi_viewer w with
  | None => Some w
  | Some _ => _maybe_change_level (view_m11 (graphics_view w)) w
  end.

(** The body of [_do_update], lines 844-846 *)
Definition do_update_body (w : t) : option t :=
  _update_scale_bar_and_hud (update_visible_tiles w).

(** [fit_in_view], lines 628-632 *)
Definition fit_in_view (w : t) : option t :=
  match scene_items w with
  | [] => Some w
  | _ :: _ => request_update true (set_view (view_fitInView (graphics_view w)) w)
  end.

(** [open_slide(file_path)], lines 560-611, where [opened] is what
    [openslide.OpenSlide(file_path)] does. *)
Definition open_slide (opened : result OpenSlide) (w : t) : option t :=
  let w1 :=
    match wsi_viewer w with
    | Some _ => clear_tiles (set_viewer None w)
    | None => w
    end in
  match opened with
  | Raise _ => Some w1
  | Ok s =>
      let v := WSIViewer_init s in
      let w2 := set_viewer (Some v) w1 in
      let w3 := set_level (Z.min 2 (get_level_count v - 1)) w2 in
      let dim := get_dimensions v (current_level w3) in
      let w4 := clear_tiles w3 in
      let w5 := set_view (view_setSceneRect dim (graphics_view w4)) w4 in
      fit_in_view w5
  end.
End Reentrant.

(** [_do_update], with [fuel] bounding the depth of re-entry. *)
Fixpoint _do_update (fuel : nat) (w : t) : option t :=
  match fuel with
  | O => None
  | S n => do_update_body (_do_update n) w
  end.

(** [remove_image], lines 613-625 *)
Definition remove_image (w : t) : t :=
  match wsi_viewer w with
  | Some _ => set_viewer None (clear_tiles w)
  | None => w
  end.

(** *** Names for the statements about the widget *)

(** [arr is None or not isinstance(arr, np.ndarray)] *)
Definition invalid_buffer (arr : pyobject) : bool :=
  match arr with
  | PyArray _ => false
  | _ => true
  end.

(** Every placed tile belongs to the active level. *)
Definition tiles_on_level (w : t) : Prop :=
  forall k, k ∈ (wsi_tile_items w).*1 -> k.1.1 = current_level w.

(** With a slide open, the active level is one of its levels. *)
Definition level_in_range (w : t) : Prop :=
  forall v, wsi_viewer w = Some v ->
    0 <= current_level w < get_level_count v.

(** What every operation of the widget maintains. *)
Definition widget_inv (w : t) : Prop := tiles_on_level w /\ level_in_range w.

(** The pieces of one scheduling pass over [w]: the visible rectangle,
    the aligned box of lines 858-862, the widget after the two removal
    loops, the candidates in enumeration order, and the candidates that
    the dispatch loop reaches. *)
Definition pass_rect (w : t) : QRectF := view_visible_rect (graphics_view w).
Definition pass_x0 (w : t) : Z := py_int (rect_left (pass_rect w)) / TILE_SIZE * TILE_SIZE.
Definition pass_y0 (w : t) : Z := py_int (rect_top (pass_rect w)) / TILE_SIZE * TILE_SIZE.
Definition pass_x1 (w : t) : Z := py_int (rect_right (pass_rect w)).
Definition pass_y1 (w : t) : Z := py_int (rect_bottom (pass_rect w)).
Definition pass_cleaned (w : t) : t :=
  evict_invisible (pass_x0 w) (pass_y0 w) (pass_x1 w) (pass_y1 w) (capacity_guard w).
Definition pass_candidates (w : t) : list candidate :=
  candidates (pass_x0 w) (pass_y0 w) (pass_x1 w) (pass_y1 w)
             (rect_center (pass_rect w)) (pass_cleaned w).
Definition pass_dispatched (w : t) : list candidate :=
  take (Z.to_nat MAX_TILES_PER_REQUEST) (sort_by_dist (pass_candidates w)).








(** Ascending distance, and the candidates at distance [q] in the order
    of the list. *)
Definition dist_le (a b : candidate) : Prop := (cand_dist a <= cand_dist b)%Q.
Definition at_dist (q : Q) (l : list candidate) : list candidate :=
  List.filter (fun c => Qeq_bool (cand_dist c) q) l.

(** The calls that dispatching [cs] makes, in order. *)
Definition dispatch_effects (level : Z) (ds : Q) (cs : list candidate) : list Effect :=
  flat_map (fun c => [PendingAdd (cand_key level c);
                      Submit (make_task level ds c.1.2 c.2)]) cs.

(** The keys of the tasks submitted by the calls [es]. *)
Definition submitted_keys (es : list Effect) : list tile_key :=
  flat_map (fun e => match e with
                     | Submit tk => [task_key tk]
                     | PendingAdd _ => []
                     end) es.

(** A run of evaluations of the level selector, one per scale, each
    followed by whatever it re-enters. *)
Fixpoint evaluate_scales (fuel : nat) (scales : list Q) (w : t) : option t :=
  match scales with
  | [] => Some w
  | s :: scales' =>
      match _maybe_change_level (_do_update fuel) s w with
      | Some w' => evaluate_scales fuel scales' w'
      | None => None
      end
  end.

End Widget.
Arguments t View : clear implicits.
End MainWidget.

(** ** A concrete view and slide, for running the model *)

(** A viewport of [pv_width] x [pv_height] device pixels over an unbounded
    scene, scaled by [pv_m11] and scrolled by whole pixels, as a
    [QGraphicsView] is by its scroll bars. *)
Record PlainView : Type := {
  pv_m11 : Q;
  pv_width : Z;
  pv_height : Z;
  pv_hscroll : Z;
  pv_vscroll : Z
}.

(** [mapToScene] of the viewport point [(px, py)]: the scroll offsets are
    added and the inverse of the scaling is applied. *)
Definition pv_mapToScene (px py : Z) (v : PlainView) : QPointF :=
  let inv := fdiv 1 (pv_m11 v) in
  {| pt_x := fmul inv (inject_Z (px + pv_hscroll v));
     pt_y := fmul inv (inject_Z (py + pv_vscroll v)) |}.

(** [mapToScene(viewport().rect()).boundingRect()]: the rectangle between
    the images of the corners [(0, 0)] and [(width, height)]. *)
Definition pv_visible_rect (v : PlainView) : QRectF :=
  let tl := pv_mapToScene 0 0 v in
  let br := pv_mapToScene (pv_width v) (pv_height v) v in
  {| rect_x := pt_x tl; rect_y := pt_y tl;
     rect_w := fsub (pt_x br) (pt_x tl); rect_h := fsub (pt_y br) (pt_y tl) |}.

(** [mapToScene(viewport().rect().center())]: the centre of the integer
    rectangle from [(0, 0)] to [(width - 1, height - 1)] is the pixel
    [((width - 1) / 2, (height - 1) / 2)]. *)
Definition pv_center (v : PlainView) : QPointF :=
  pv_mapToScene (Z.quot (pv_width v - 1) 2) (Z.quot (pv_height v - 1) 2) v.

(** [centerOn(p)]: the scroll bars are set to the integer part of the
    view coordinates of [p] less half the viewport. *)
Definition pv_centerOn (p : QPointF) (v : PlainView) : PlainView :=
  {| pv_m11 := pv_m11 v;
     pv_width := pv_width v;
     pv_height := pv_height v;
     pv_hscroll := py_int (fsub (fmul (pv_m11 v) (pt_x p))
                                (fdiv (inject_Z (pv_width v)) 2));
     pv_vscroll := py_int (fsub (fmul (pv_m11 v) (pt_y p))
                                (fdiv (inject_Z (pv_height v)) 2)) |}.

Global Instance PlainView_GraphicsView : GraphicsView PlainView := {|
  view_m11 := pv_m11;
  view_visible_rect := pv_visible_rect;
  view_center := pv_center;
  view_centerOn := pv_centerOn;
  view_setSceneRect := fun _ v => v;
  view_fitInView := fun v => v;
  view_m11_centerOn := fun _ _ => eq_refl;
  view_m11_setSceneRect := fun _ _ => eq_refl
|}.

(** A C library whose [pow(x, 2.0)] is the nearest double to the square. *)
Global Instance nearest_pow : FloatPow | 100 := {| pow2 := fun x => fmul x x |}.

Definition blank_tile : ndarray := {| arr_h := 512; arr_w := 512; arr_data := [] |}.

(** Four levels with downsamples 1, 4, 16, 64; every region decodes. *)
Definition slide4 : OpenSlide :=
  {| level_count := 4;
     level_dimensions := [(65536, 65536); (16384, 16384); (4096, 4096); (1024, 1024)];
     level_downsamples := [1%Q; 4%Q; 16%Q; 64%Q];
     read_region := fun _ _ _ => Ok blank_tile |}.

(** The same slide with a decoder that fails on every region. *)
Definition slide4_failing : OpenSlide :=
  {| level_count := 4;
     level_dimensions := level_dimensions slide4;
     level_downsamples := level_downsamples slide4;
     read_region := fun _ _ _ => Raise OpenSlideError |}.

(** A single-level image. *)
Definition slide1 : OpenSlide :=
  {| level_count := 1;
     level_dimensions := [(2048, 2048)];
     level_downsamples := [1%Q];
     read_region := fun _ _ _ => Ok blank_tile |}.


(** A view showing the rectangle (0, 0, 1024, 1024) at scale [s]: not
    scrolled, its viewport [1024 * s] pixels wide and high. *)
Definition view_at (s : Q) : PlainView :=
  {| pv_m11 := s;
     pv_width := py_int (fmul 1024 s); pv_height := py_int (fmul 1024 s);
     pv_hscroll := 0; pv_vscroll := 0 |}.


(** A widget on level [l] of slide [s], nothing placed or pending. *)
Definition widget_on (s : OpenSlide) (l : Z) (view : PlainView) : MainWidget.t PlainView :=
  MainWidget.set_level l
    (MainWidget.set_viewer (Some (WSIViewer_init s)) (MainWidget.init view)).

(** Four cache keys, and the caches used to run [TileCache]. *)
Definition kA : cache_key := (0, 0, 0, 512).
Definition kB : cache_key := (0, 512, 0, 512).
Definition kC : cache_key := (0, 1024, 0, 512).
Definition kD : cache_key := (0, 1536, 0, 512).

(** Capacity 2, holding A then B. *)
Definition cache_AB : TileCache.t cache_key ndarray :=
  {| TileCache.cache := <[kB := blank_tile]> (<[kA := blank_tile]> ∅);
     TileCache.access_order := [kA; kB];
     TileCache.max_size := 2 |}.

(** Capacity 1, holding A. *)
Definition cache_A1 : TileCache.t cache_key ndarray :=
  {| TileCache.cache := <[kA := blank_tile]> ∅;
     TileCache.access_order := [kA];
     TileCache.max_size := 1 |}.

(** ** Further names for statements about the widget *)

Section WidgetNames.
Context {View : Type} `{GraphicsView View} `{FloatPow}.
Import MainWidget.

(** The placed tiles are a dict: no key occurs twice. *)
Definition keys_unique (w : MainWidget.t View) : Prop :=
  NoDup (wsi_tile_items w).*1.

(** The scene holds exactly the items of the placed tiles, in the order
    in which they were placed, each at the origin of its tile. *)
Definition scene_matches (w : MainWidget.t View) : Prop :=
  scene_items w = (wsi_tile_items w).*2 /\
  forall k it, (k, it) ∈ wsi_tile_items w -> item_offset it = (k.1.2, k.2).

Definition scene_inv (w : MainWidget.t View) : Prop :=
  tiles_on_level w /\ keys_unique w /\ scene_matches w.

(** With no slide open nothing is placed, pending or on the scene. *)
Definition closed_is_empty (w : MainWidget.t View) : Prop :=
  wsi_viewer w = None ->
  wsi_tile_items w = [] /\ pending_tasks w = ∅ /\ scene_items w = [].


(** The calls that a pass over [w] adds to the record. *)
Definition pass_effects (w : MainWidget.t View) : list Effect :=
  drop (length (effects w)) (effects (update_visible_tiles w)).
End WidgetNames.

(** ** More concrete widgets *)

Definition tile_item (x y : Z) : PixmapItem :=
  {| item_pix := blank_tile; item_offset := (x, y) |}.

(** Level 2 of [slide4], view on (0, 0, 1024, 1024), with two tiles placed:
    one at the origin and one far to the right, out of view. *)
Definition widget_two_tiles : MainWidget.t PlainView :=
  MainWidget.set_tile_items
    [((2, 0, 0), tile_item 0 0); ((2, 4096, 0), tile_item 4096 0)]
    (MainWidget.set_scene [tile_item 0 0; tile_item 4096 0]
       (widget_on slide4 2 (view_at 1))).

(** A row of [n] placed tiles on level 2, oldest first. *)
Definition tile_row (n : nat) : list (tile_key * PixmapItem) :=
  (fun i => ((2, 512 * Z.of_nat i, 0), tile_item (512 * Z.of_nat i) 0)) <$> seq 0 n.

Definition widget_with_row (n : nat) : MainWidget.t PlainView :=
  MainWidget.set_tile_items (tile_row n)
    (MainWidget.set_scene (tile_row n).*2 (widget_on slide4 2 (view_at 1))).

(** ** ScaleBarWidget (MainWidget.py, lines 95-142) *)

Module ScaleBarWidget.

(** [max(a, b)] and [min(a, b)] of Python: the first argument wins a
    tie. *)
Definition py_max (a b : Q) : Q := if Qlt_bool a b then b else a.
Definition py_min (a b : Q) : Q := if Qlt_bool b a then b else a.

(** [self.mpp] ([None] when the slide has no resolution) and
    [self.view_scale]. *)
Record t : Type := mk { mpp : option Q; view_scale : Q }.

Definition set_mpp (m : option Q) (s : t) : t := mk m (view_scale s).
Definition set_view_scale (v : Q) (s : t) : t := mk (mpp s) v.

Definition nice_um : list Z := [10; 20; 50; 100; 200; 500; 1000; 2000].

(** The running best of the loop of lines 127-133; [best_diff] is [None]
    while it is still [float("inf")]. *)
Record best : Type := mk_best { best_um : Z; best_px : Q; best_diff : option Q }.

Definition scan_step (px_per_um target_px : Q) (b : best) (um : Z) : best :=
  let px := fmul (inject_Z um) px_per_um in
  let diff := Qabs (fsub px target_px) in
  let closer :=
    match best_diff b with
    | None => true
    | Some d => Qlt_bool diff d
    end in
  if closer then mk_best um px (Some diff) else b.

Definition scan (px_per_um target_px : Q) : best :=
  foldl (scan_step px_per_um target_px)
        (mk_best 10 (fmul (inject_Z 10) px_per_um) None) nice_um.

(** What is written under the bar. *)
Inductive label : Type :=
  | LabelPx (n : Z)
  | LabelUm (um : Z).

(** The length and the label that [paintEvent] computes at lines 116-135
    for a widget [widget_width] pixels wide; the drawing rectangle is the
    widget's, 12 pixels shorter on either side. *)
Definition bar (widget_width : Z) (s : t) : Q * label :=
  let rect_width := widget_width - 24 in
  let no_mpp :=
    match mpp s with
    | None => true
    | Some m => Qeq_bool m 0 || Qle_bool m 0
    end in
  if no_mpp then
    let bar_len_px := fmul (inject_Z rect_width) 0.5 in
    (bar_len_px, LabelPx (py_int bar_len_px))
  else
    let m := match mpp s with Some m => m | None => 0%Q end in
    let px_per_um := fdiv (view_scale s) m in
    let target_px := fmul (inject_Z rect_width) 0.5 in
    let b := scan px_per_um target_px in
    (py_max 40 (py_min (inject_Z (rect_width - 40)) (best_px b)), LabelUm (best_um b)).

(** How far the bar of [um] micrometres is from the target length, as the
    doubles compute it. *)
Definition diff_of (px_per_um target_px : Q) (um : Z) : Q :=
  Qabs (fsub (fmul (inject_Z um) px_per_um) target_px).

(** The first of [l] that is nearest to the target: strictly nearer than
    all before it, at least as near as all after it. *)
Definition first_nearest (px_per_um target_px : Q) (l : list Z) (um : Z) : Prop :=
  exists before after,
    l = before ++ um :: after /\
    (forall u, u ∈ before ->
       (diff_of px_per_um target_px um < diff_of px_per_um target_px u)%Q) /\
    (forall u, u ∈ after ->
       (diff_of px_per_um target_px um <= diff_of px_per_um target_px u)%Q).

End ScaleBarWidget.

(** ** OverviewWidget (MainWidget.py, lines 202-306) *)

Module OverviewWidget.

(** [_pix] is the size of the scaled thumbnail, [None] without one; the
    widget itself has the fixed size 220 x 220.  A pixmap with a zero
    side is Qt's null pixmap, which Python tests as false. *)
Definition pix_truthy (pix : option (Z * Z)) : bool :=
  match pix with
  | None => false
  | Some p => negb ((p.1 =? 0) || (p.2 =? 0))
  end.

Record t : Type := mk {
  _pix : option (Z * Z);
  _full_w : Z;
  _full_h : Z;
  _ratio_x : Q;
  _ratio_y : Q;
  _view_rect_l0 : option QRectF
}.

Definition width : Z := 220.
Definition height : Z := 220.

Definition init : t := mk None 1 1 1 1 None.

(** [set_overview(pixmap, full_size)], where [scaled] is the size of
    [pixmap.scaled(...)]; [None] is the [ZeroDivisionError] of a zero
    dimension in [full_size], after which the caller clears the widget. *)
Definition set_overview (scaled : Z * Z) (full_size : Z * Z) (o : t) : option t :=
  if (full_size.1 =? 0) || (full_size.2 =? 0) then None
  else Some (mk (Some scaled) full_size.1 full_size.2
                (fdiv (inject_Z scaled.1) (inject_Z full_size.1))
                (fdiv (inject_Z scaled.2) (inject_Z full_size.2))
                (_view_rect_l0 o)).

Definition clear (o : t) : t :=
  mk None (_full_w o) (_full_h o) (_ratio_x o) (_ratio_y o) None.

Definition update_view_rect (r : QRectF) (o : t) : t :=
  mk (_pix o) (_full_w o) (_full_h o) (_ratio_x o) (_ratio_y o) (Some r).

Definition offset_x (pix : Z * Z) : Q := fdiv (inject_Z (width - pix.1)) 2.
Definition offset_y (pix : Z * Z) : Q := fdiv (inject_Z (height - pix.2)) 2.

(** [_to_level0(pos)]: the level-0 point under the widget point [pos];
    [None] is the [ZeroDivisionError] of a zero ratio. *)
Definition _to_level0 (pos : QPointF) (o : t) : option (Q * Q) :=
  match _pix o with
  | None => Some (0%Q, 0%Q)
  | Some pix =>
      if negb (pix_truthy (_pix o)) then Some (0%Q, 0%Q)
      else if Qeq_bool (_ratio_x o) 0 || Qeq_bool (_ratio_y o) 0 then None
      else
        let x := fdiv (fsub (pt_x pos) (offset_x pix)) (_ratio_x o) in
        let y := fdiv (fsub (pt_y pos) (offset_y pix)) (_ratio_y o) in
        Some (ScaleBarWidget.py_max 0 (ScaleBarWidget.py_min (inject_Z (_full_w o)) x),
              ScaleBarWidget.py_max 0 (ScaleBarWidget.py_min (inject_Z (_full_h o)) y))
  end.

End OverviewWidget.

(** ** Review data (models/types.py) *)

Module Types.

(** The [Patch] data class; paths are kept as their text, [extra] as the
    row it was read from. *)
Record Patch : Type := mkPatch {
  patch_id : string;
  tif_id : string;
  tile_id : string;
  x : Z;
  y : Z;
  w : Z;
  h : Z;
  score : Q;
  label : string;
  tile_path : option string;
  thumb_path : option string;
  orig_label : option string;
  extra : list (string * string)
}.

(** The assignment [p.label = l]. *)
Definition set_label (l : string) (p : Patch) : Patch :=
  mkPatch (patch_id p) (tif_id p) (tile_id p) (x p) (y p) (w p) (h p)
          (score p) l (tile_path p) (thumb_path p) (orig_label p) (extra p).

Record SlideMeta : Type := mkSlideMeta {
  meta_tif_id : string;
  slide_pred_label : option string;
  slide_pred_scores : list (string * Q);
  source_priority : list string
}.

End Types.

(** ** ReviewManager (services/review_manager.py) *)

Module ReviewManager.

(** The dictionary [rec] that [move_class] builds. *)
Record ChangeRec : Type := mkRec {
  rec_patch_id : string;
  rec_old_label : string;
  rec_new_label : string;
  rec_reviewer : string;
  rec_timestamp : string
}.

(** The manager.  The patches are the objects of the list handed to
    [set_data], each held once; [emitted] logs every run of [_emit] with
    the two flags it passes to the [on_undo_redo] callbacks. *)
Record t : Type := mk {
  _patches : list Types.Patch;
  _meta : option Types.SlideMeta;
  _changes : list ChangeRec;
  _undo_stack : list ChangeRec;
  _redo_stack : list ChangeRec;
  _hidden_ids : gset string;
  reviewer : string;
  emitted : list (bool * bool)
}.

Definition init (reviewer : string) : t := mk [] None [] [] [] ∅ reviewer [].

(** [bool(l)] of a list. *)
Definition py_bool {A : Type} (l : list A) : bool :=
  match l with
  | [] => false
  | _ :: _ => true
  end.

(** [l.pop()]: the last element and the list without it. *)
Fixpoint pop {A : Type} (l : list A) : option (list A * A) :=
  match l with
  | [] => None
  | a :: r =>
      match pop r with
      | None => Some ([], a)
      | Some (r', b) => Some (a :: r', b)
      end
  end.

Definition _emit (s : t) : t :=
  mk (_patches s) (_meta s) (_changes s) (_undo_stack s) (_redo_stack s)
     (_hidden_ids s) (reviewer s)
     (emitted s ++ [(py_bool (_undo_stack s), py_bool (_redo_stack s))]).

Definition _find (patch_id : string) (ps : list Types.Patch) : option Types.Patch :=
  List.find (fun p => String.eqb (Types.patch_id p) patch_id) ps.

(** The assignment [p.label = l] on the patch that [_find] returns: the
    first of the list with that id. *)
Fixpoint relabel (patch_id l : string) (ps : list Types.Patch) : list Types.Patch :=
  match ps with
  | [] => []
  | p :: r =>
      if String.eqb (Types.patch_id p) patch_id
      then Types.set_label l p :: r
      else p :: relabel patch_id l r
  end.

Definition set_data (patches : list Types.Patch) (meta : Types.SlideMeta) (s : t) : t :=
  _emit (mk patches (Some meta) [] [] [] ∅ (reviewer s) (emitted s)).

Definition get_state (s : t) :
  list Types.Patch * option Types.SlideMeta * list ChangeRec :=
  (_patches s, _meta s, _changes s).

Definition changes (s : t) : list ChangeRec := _changes s.

(** [move_class(patch_id, new_label)], at the time [now]. *)
Definition move_class (patch_id new_label now : string) (s : t) : t :=
  match _find patch_id (_patches s) with
  | None => s
  | Some p =>
      if String.eqb (Types.label p) new_label then s
      else
        let rec := mkRec patch_id (Types.label p) new_label (reviewer s) now in
        _emit (mk (relabel patch_id new_label (_patches s)) (_meta s)
                  (_changes s ++ [rec]) (_undo_stack s ++ [rec]) []
                  (_hidden_ids s) (reviewer s) (emitted s))
  end.

Definition hide (patch_id : string) (s : t) : t :=
  if decide (patch_id ∈ _hidden_ids s) then s
  else _emit (mk (_patches s) (_meta s) (_changes s) (_undo_stack s)
                 (_redo_stack s) ({[ patch_id ]} ∪ _hidden_ids s)
                 (reviewer s) (emitted s)).

Definition restore (patch_id : string) (s : t) : t :=
  if decide (patch_id ∈ _hidden_ids s)
  then _emit (mk (_patches s) (_meta s) (_changes s) (_undo_stack s)
                 (_redo_stack s) (_hidden_ids s ∖ {[ patch_id ]})
                 (reviewer s) (emitted s))
  else s.

Definition is_hidden (patch_id : string) (s : t) : bool :=
  bool_decide (patch_id ∈ _hidden_ids s).

Definition is_reviewed (p : Types.Patch) : bool :=
  match Types.orig_label p with
  | None => false
  | Some o => negb (String.eqb (Types.label p) o)
  end.

(** The label assignment of [undo] and [redo]: only when the patch is
    found. *)
Definition assign (patch_id l : string) (ps : list Types.Patch) : list Types.Patch :=
  match _find patch_id ps with
  | Some _ => relabel patch_id l ps
  | None => ps
  end.

Definition undo (s : t) : t :=
  match pop (_undo_stack s) with
  | None => s
  | Some (rest, rec) =>
      _emit (mk (assign (rec_patch_id rec) (rec_old_label rec) (_patches s))
                (_meta s) (_changes s) rest (_redo_stack s ++ [rec])
                (_hidden_ids s) (reviewer s) (emitted s))
  end.

Definition redo (s : t) : t :=
  match pop (_redo_stack s) with
  | None => s
  | Some (rest, rec) =>
      _emit (mk (assign (rec_patch_id rec) (rec_new_label rec) (_patches s))
                (_meta s) (_changes s) (_undo_stack s ++ [rec]) rest
                (_hidden_ids s) (reviewer s) (emitted s))
  end.

(** Everything the manager holds, the notification log apart. *)
Definition data (s : t) :=
  (_patches s, _meta s, _changes s, _undo_stack s, _redo_stack s,
   _hidden_ids s, reviewer s).

(** A patch with its label blanked: what no operation of the manager
    changes. *)
Definition unlabelled (p : Types.Patch) : Types.Patch := Types.set_label "" p.

(** The calls a reviewer can make. *)
Inductive op : Type :=
  | MoveClass (patch_id new_label now : string)
  | Hide (patch_id : string)
  | Restore (patch_id : string)
  | Undo
  | Redo.

Definition run (o : op) (s : t) : t :=
  match o with
  | MoveClass patch_id new_label now => move_class patch_id new_label now s
  | Hide patch_id => hide patch_id s
  | Restore patch_id => restore patch_id s
  | Undo => undo s
  | Redo => redo s
  end.

(** The labels that replaying the undo stack, oldest first, leaves. *)
Definition replay (recs : list ChangeRec) (ps : list Types.Patch) : list Types.Patch :=
  foldl (fun ps rec => assign (rec_patch_id rec) (rec_new_label rec) ps) ps recs.

Definition run_all (ops : list op) (s : t) : t :=
  foldl (fun s o => run o s) s ops.

(** A history that can be replayed on [ps]: every record names a patch
    that is there and carries, as its old label, the label the patch has
    when the record's turn comes. *)
Fixpoint valid_chain (recs : list ChangeRec) (ps : list Types.Patch) : Prop :=
  match recs with
  | [] => True
  | rec :: r =>
      (exists p, _find (rec_patch_id rec) ps = Some p /\
                 Types.label p = rec_old_label rec) /\
      valid_chain r (assign (rec_patch_id rec) (rec_new_label rec) ps)
  end.

(** The two stacks are one history of the patches [ps0] that were loaded,
    split at the present, and the labels are those of its past. *)
Definition history_inv (ps0 : list Types.Patch) (s : t) : Prop :=
  valid_chain (_undo_stack s ++ reverse (_redo_stack s)) ps0 /\
  _patches s = replay (_undo_stack s) ps0.

End ReviewManager.

Definition patch_a : Types.Patch :=
  Types.mkPatch "s:t0:0" "s" "t0" 10 20 64 64 0.9 "ASCUS" None None (Some "ASCUS") [].

Definition patch_b : Types.Patch :=
  Types.mkPatch "s:t1:1" "s" "t1" 30 40 64 64 0.8 "LSIL" None None (Some "LSIL") [].

Definition manager_ab : ReviewManager.t :=
  ReviewManager.set_data [patch_a; patch_b] (Types.mkSlideMeta "s" None [] [])
                         (ReviewManager.init "anonymous").

(** * Facts about the tile cache *)

Section TileCacheFacts.
Context {K : Type} `{Countable K} {V : Type}.
Implicit Types (c : TileCache.t K V) (k : K) (v : V).
Import TileCache.

Lemma list_remove_perm k (l l' : list K) :
  list_remove k l = Some l' -> l ≡ₚ k :: l'.
Proof.
  revert l'. induction l as [|x l IH]; intros l' Hr; simpl in Hr; [discriminate|].
  destruct (decide (x = k)) as [->|Hne].
  - injection Hr as <-. reflexivity.
  - destruct (list_remove k l) as [r|] eqn:E; [|discriminate].
    injection Hr as <-. rewrite (IH r eq_refl). apply Permutation_swap.
Qed.

Lemma list_remove_elem k (l : list K) :
  k ∈ l -> is_Some (list_remove k l).
Proof.
  induction l as [|x l IH]; intros Hin; [by apply elem_of_nil in Hin|].
  simpl. destruct (decide (x = k)); [eauto|].
  apply elem_of_cons in Hin as [->|Hin]; [done|].
  destruct (IH Hin) as [r ->]. eauto.
Qed.

Lemma wf_init (n : Z) : 0 <= n -> wf (init n : TileCache.t K V).
Proof.
  intros Hn. split; simpl.
  - constructor.
  - intros k. rewrite lookup_empty. split.
    + intros Hk. by apply elem_of_nil in Hk.
    + intros [x Hx]. discriminate.
  - lia.
Qed.

Lemma wf_clear c : 0 <= max_size c -> wf (clear c).
Proof. intros Hn. by apply wf_init. Qed.

(** The cache holds as many entries as the recency list has keys. *)
Lemma wf_size c : wf c -> size (cache c) = length (access_order c).
Proof.
  intros [Hnd Hk _].
  rewrite <- size_dom, <- (size_list_to_set (C := gset K) _ Hnd).
  f_equal. apply set_eq. intros k.
  rewrite elem_of_dom, elem_of_list_to_set. symmetry. apply Hk.
Qed.

Lemma get_miss k c : cache c !! k = None -> get k c = (None, c).
Proof. intros E. unfold get. by rewrite E. Qed.

(** A hit returns the stored buffer and moves the key to the tail. *)
Lemma get_hit k v c :
  wf c -> cache c !! k = Some v ->
  exists l', list_remove k (access_order c) = Some l' /\
    access_order c ≡ₚ k :: l' /\
    get k c = (Some v, {| cache := cache c; access_order := l' ++ [k];
                          max_size := max_size c |}).
Proof.
  intros Hwf E.
  assert (Hin : k ∈ access_order c) by (apply (wf_keys _ Hwf); eauto).
  destruct (list_remove_elem _ _ Hin) as [l' Hl'].
  exists l'. split; [done|]. split; [by apply list_remove_perm|].
  unfold get. by rewrite E, Hl'.
Qed.

Lemma get_wf k c : wf c -> wf (get k c).2.
Proof.
  intros Hwf. destruct (cache c !! k) as [v|] eqn:E.
  - destruct (get_hit _ _ _ Hwf E) as (l' & _ & Hp & ->). simpl.
    assert (Hp' : l' ++ [k] ≡ₚ access_order c).
    { rewrite Hp. symmetry. apply Permutation_cons_append. }
    destruct Hwf as [Hnd Hk Hb]. split; simpl.
    + by rewrite Hp'.
    + intros x. rewrite Hp'. apply Hk.
    + by rewrite Hp'.
  - by rewrite get_miss.
Qed.

Lemma put_present k v c : is_Some (cache c !! k) -> put k v c = Ok c.
Proof. intros [x E]. unfold put. by rewrite E. Qed.

(** [put] of an absent key into a cache with room left. *)
Lemma put_room k v c :
  cache c !! k = None ->
  Z.of_nat (length (access_order c)) < max_size c ->
  put k v c = Ok {| cache := <[k := v]> (cache c);
                    access_order := access_order c ++ [k];
                    max_size := max_size c |}.
Proof.
  intros E Hlt. unfold put. rewrite E.
  destruct (Z.leb_spec (max_size c) (Z.of_nat (length (access_order c)))); [lia|done].
Qed.

(** [put] of an absent key into a full cache. *)
Lemma put_full k v c oldest rest :
  cache c !! k = None ->
  max_size c <= Z.of_nat (length (access_order c)) ->
  access_order c = oldest :: rest ->
  put k v c = Ok {| cache := <[k := v]> (delete oldest (cache c));
                    access_order := rest ++ [k];
                    max_size := max_size c |}.
Proof.
  intros E Hle Ho. unfold put. rewrite E, Ho. rewrite Ho in Hle.
  destruct (Z.leb_spec (max_size c) (Z.of_nat (length (oldest :: rest)))); [done|lia].
Qed.

Lemma put_wf k v c c' : wf c -> put k v c = Ok c' -> wf c'.
Proof.
  intros Hwf Hput. destruct (cache c !! k) as [x|] eqn:E.
  { rewrite put_present in Hput by eauto. by injection Hput as <-. }
  assert (Hk : k ∉ access_order c).
  { intros Hin. apply (wf_keys _ Hwf) in Hin as [x Hx]. congruence. }
  destruct (Z.leb_spec (max_size c) (Z.of_nat (length (access_order c)))) as [Hle|Hlt].
  - destruct (access_order c) as [|oldest rest] eqn:Ho.
    { unfold put in Hput. rewrite E, Ho in Hput. simpl in Hput.
      simpl in Hle. destruct (Z.leb_spec (max_size c) (Z.of_nat 0)); [discriminate|lia]. }
    rewrite (put_full _ _ _ oldest rest) in Hput by (rewrite ?Ho; done).
    injection Hput as <-.
    destruct Hwf as [Hnd Hkeys Hb]. rewrite Ho in Hnd, Hkeys, Hb.
    apply NoDup_cons in Hnd as [Hno Hnd].
    split; simpl.
    + apply NoDup_app. split; [done|]. split; [|apply NoDup_singleton].
      intros x Hx Hx'. apply list_elem_of_singleton in Hx' as ->.
      apply Hk. by right.
    + intros x. rewrite elem_of_app, list_elem_of_singleton.
      destruct (decide (x = k)) as [->|Hxk].
      * rewrite lookup_insert_eq. split; eauto.
      * rewrite lookup_insert_ne by done.
        destruct (decide (x = oldest)) as [->|Hxo].
        -- rewrite lookup_delete_eq. split; [intros [?|?]; done|intros [? ?]; done].
        -- rewrite lookup_delete_ne by done. rewrite <- Hkeys, elem_of_cons.
           split; [intros [?|?]; [by right|done]|intros [?|?]; [done|by left]].
    + rewrite length_app. simpl in *. lia.
  - rewrite put_room in Hput by done. injection Hput as <-.
    destruct Hwf as [Hnd Hkeys Hb].
    split; simpl.
    + apply NoDup_app. split; [done|]. split; [|apply NoDup_singleton].
      intros x Hx Hx'. apply list_elem_of_singleton in Hx' as ->. done.
    + intros x. rewrite elem_of_app, list_elem_of_singleton.
      destruct (decide (x = k)) as [->|Hxk].
      * rewrite lookup_insert_eq. split; eauto.
      * rewrite lookup_insert_ne by done. rewrite <- Hkeys.
        split; [intros [?|?]; done|by left].
    + rewrite length_app. simpl. lia.
Qed.

Lemma put_max_size k v c c' : put k v c = Ok c' -> max_size c' = max_size c.
Proof.
  unfold put. destruct (cache c !! k); [by intros [= <-]|].
  destruct (max_size c <=? _); [|by intros [= <-]].
  destruct (access_order c); [done|by intros [= <-]].
Qed.

End TileCacheFacts.

Section TileCacheClaims.
Context {K : Type} `{Countable K} {V : Type}.
Implicit Types (c : TileCache.t K V) (k : K) (v : V).
Import TileCache.

(** A single [put] of a new key: the recency list gains the key at the
    tail and loses its head exactly when the cache was full. *)
Lemma put_fresh k v c :
  wf c -> 1 <= max_size c -> cache c !! k = None ->
  exists c' dropped,
    put k v c = Ok c' /\ wf c' /\ max_size c' = max_size c /\
    access_order c ++ [k] = dropped ++ access_order c' /\
    Z.of_nat (length (access_order c'))
      = Z.min (max_size c) (Z.of_nat (length (access_order c)) + 1) /\
    cache c' !! k = Some v /\
    (forall k', k' <> k -> k' ∈ access_order c' -> cache c' !! k' = cache c !! k') /\
    (forall k', k' <> k -> cache c !! k' = None -> cache c' !! k' = None).
Proof.
  intros Hwf Hn Ek.
  destruct (Z.leb_spec (max_size c) (Z.of_nat (length (access_order c)))) as [Hle|Hlt].
  - pose proof (wf_bound _ Hwf) as Hb.
    destruct (access_order c) as [|oldest rest] eqn:Ho; [simpl in Hle; lia|].
    assert (Hput := put_full k v c oldest rest Ek ltac:(by rewrite Ho) Ho).
    eexists _, [oldest]. split; [exact Hput|].
    split; [by apply (put_wf k v c)|]. simpl.
    split; [done|]. split; [done|].
    split; [rewrite length_app; simpl in *; lia|].
    split; [apply lookup_insert_eq|]. split.
    + intros k' Hne Hin. rewrite lookup_insert_ne by done.
      apply lookup_delete_ne. intros ->.
      pose proof (wf_nodup _ Hwf) as Hnd. rewrite Ho in Hnd.
      apply NoDup_cons in Hnd as [Hno _].
      apply elem_of_app in Hin as [Hin|Hin]; [done|].
      apply list_elem_of_singleton in Hin. done.
    + intros k' Hne Ek'. rewrite lookup_insert_ne by done.
      destruct (decide (oldest = k')) as [->|Hne'];
        [apply lookup_delete_eq|by rewrite lookup_delete_ne].
  - assert (Hput := put_room k v c Ek Hlt).
    eexists _, []. split; [exact Hput|].
    split; [by apply (put_wf k v c)|]. simpl.
    split; [done|]. split; [done|].
    split; [rewrite length_app; simpl; lia|].
    split; [apply lookup_insert_eq|]. split.
    + intros k' Hne _. by rewrite lookup_insert_ne.
    + intros k' Hne Ek'. by rewrite lookup_insert_ne.
Qed.

(** A run of [put]s of new, distinct keys: the recency list afterwards
    is the tail of the old list followed by the new keys, cut to the
    capacity, and every new key still listed has its buffer. *)
Lemma put_all_fresh (kvs : list (K * V)) c :
  wf c -> 1 <= max_size c ->
  NoDup kvs.*1 ->
  (forall k, k ∈ kvs.*1 -> cache c !! k = None) ->
  exists c' dropped,
    put_all kvs c = Ok c' /\ wf c' /\ max_size c' = max_size c /\
    access_order c ++ kvs.*1 = dropped ++ access_order c' /\
    Z.of_nat (length (access_order c'))
      = Z.min (max_size c) (Z.of_nat (length (access_order c) + length kvs)) /\
    (forall k v, (k, v) ∈ kvs -> k ∈ access_order c' -> cache c' !! k = Some v) /\
    (forall k, k ∉ kvs.*1 -> k ∈ access_order c' -> cache c' !! k = cache c !! k).
Proof.
  revert c. induction kvs as [|[k v] kvs IH]; intros c Hwf Hn Hnd Hfresh.
  { exists c, []. simpl. rewrite app_nil_r. split_and!; try done.
    - pose proof (wf_bound _ Hwf). lia.
    - intros k v Hin. by apply elem_of_nil in Hin. }
  simpl in Hnd. apply NoDup_cons in Hnd as [Hk Hnd].
  destruct (put_fresh k v c Hwf Hn) as
    (c1 & d1 & Hput & Hwf1 & Hm1 & Ho1 & Hlen1 & Hk1 & Hkeep1 & Hnone1).
  { apply Hfresh. simpl. by left. }
  destruct (IH c1 Hwf1 ltac:(lia) Hnd) as
    (c' & d2 & Hall & Hwf' & Hm' & Ho' & Hlen' & Hval' & Hkeep').
  { intros k' Hk'. apply Hnone1; [by intros ->|]. apply Hfresh. simpl. by right. }
  exists c', (d1 ++ d2). simpl. rewrite Hput. simpl.
  split; [exact Hall|]. split; [exact Hwf'|]. split; [lia|].
  split.
  { transitivity ((access_order c ++ [k]) ++ kvs.*1); [by rewrite <- app_assoc|].
    rewrite Ho1, <- app_assoc, Ho'. by rewrite app_assoc. }
  split; [lia|]. split.
  - intros k' v' Hin Hord. apply elem_of_cons in Hin as [[= -> ->]|Hin].
    + rewrite Hkeep' by done. exact Hk1.
    + by apply Hval'.
  - intros k' Hk' Hord. apply not_elem_of_cons in Hk' as [Hne Hk'].
    rewrite Hkeep' by done. apply Hkeep1; [done|].
    (* listed at the end, so not dropped by the first put *)
    destruct (decide (k' ∈ access_order c1)) as [Hin|Hnin]; [done|].
    exfalso.
    assert (Hin' : k' ∈ access_order c1 ++ kvs.*1).
    { rewrite Ho'. apply elem_of_app. by right. }
    apply elem_of_app in Hin' as [?|?]; done.
Qed.

(** C1 (as amended).  In a cache of capacity [n >= 1]: when the cache holds
    [n] entries, [put] of a key that is not present first evicts the
    least recently used key, the head of the recency list, and then
    inserts the new key at the tail; and after [n + 1] distinct keys
    have been inserted (none of them cached before), with no [get] in
    between, the first one is absent and the other [n] are present with
    their buffers. *)
Theorem put_evicts_least_recently_used (n : Z) :
  1 <= n ->
  (forall c k v,
      wf c -> max_size c = n -> cache c !! k = None ->
      Z.of_nat (size (cache c)) = n ->
      exists oldest rest,
        access_order c = oldest :: rest /\
        evicted_by_put k c = Some oldest /\
        put k v c = Ok {| cache := <[k := v]> (delete oldest (cache c));
                          access_order := rest ++ [k];
                          max_size := n |})
  /\
  (forall c k0 v0 (kvs : list (K * V)),
      wf c -> max_size c = n ->
      NoDup (k0 :: kvs.*1) ->
      (forall k, k ∈ k0 :: kvs.*1 -> cache c !! k = None) ->
      Z.of_nat (length kvs) = n ->
      exists c',
        put_all ((k0, v0) :: kvs) c = Ok c' /\
        cache c' !! k0 = None /\
        forall k v, (k, v) ∈ kvs -> cache c' !! k = Some v).
Proof.
  intros Hn. split.
  - intros c k v Hwf Hmax Ek Hsize.
    rewrite (wf_size c Hwf) in Hsize.
    destruct (access_order c) as [|oldest rest] eqn:Ho; [simpl in Hsize; lia|].
    exists oldest, rest. split; [done|]. split.
    + unfold evicted_by_put. rewrite Ek, Ho, Hmax.
      destruct (Z.leb_spec n (Z.of_nat (length (oldest :: rest)))); [done|lia].
    + rewrite <- Hmax. apply put_full; [done| |done]. rewrite Ho. lia.
  - intros c k0 v0 kvs Hwf Hmax Hnd Hfresh Hlen.
    destruct (put_all_fresh ((k0, v0) :: kvs) c Hwf ltac:(lia) Hnd Hfresh)
      as (c' & dropped & Hall & Hwf' & Hm' & Ho' & Hlen' & Hval' & _).
    simpl in Ho', Hlen'.
    assert (Hlo : length kvs.*1 = length (access_order c')).
    { rewrite length_fmap. lia. }
    assert (Ho : (access_order c ++ [k0]) ++ kvs.*1 = dropped ++ access_order c').
    { by rewrite <- Ho', <- app_assoc. }
    apply app_inj_2 in Ho as [_ Ho]; [|done]. clear Ho'. rename Ho into Ho'.
    apply NoDup_cons in Hnd as [Hk0 _].
    exists c'. split; [exact Hall|]. split.
    + destruct (cache c' !! k0) eqn:E; [|done].
      exfalso. apply Hk0. rewrite Ho'. apply (wf_keys _ Hwf'). eauto.
    + intros k v Hin. apply Hval'; [by right|].
      rewrite <- Ho'. apply list_elem_of_fmap. by exists (k, v).
Qed.

(** C7 (as amended).  A [get] of a present key returns its buffer and
    moves the key to the tail of the recency list, leaving the stored
    entries alone; when the cache holds at least two keys, the next
    eviction removes the head of that list, a different key that was used
    less recently, and the key read survives it.  In the scenario of the
    specification (A, B, C put into a cache of capacity 2, then [get A],
    then D put) D's insertion evicts B, not A: A had already been evicted
    by C's insertion and [get A] was a miss. *)
Theorem get_refreshes_recency :
  (forall c k v,
      wf c -> cache c !! k = Some v ->
      exists l',
        let c1 := {| cache := cache c; access_order := l' ++ [k];
                     max_size := max_size c |} in
        list_remove k (access_order c) = Some l' /\
        get k c = (Some v, c1) /\
        ((2 <= size (cache c))%nat ->
          forall k' v' o,
            evicted_by_put k' c1 = Some o ->
            o <> k /\ head l' = Some o /\
            exists c2, put k' v' c1 = Ok c2 /\
                       cache c2 !! k = Some v /\ cache c2 !! o = None))
  /\
  (forall (a b cc d : K) (va vb vc vd : V),
      NoDup [a; b; cc; d] ->
      exists c3 c4,
        put_all [(a, va); (b, vb); (cc, vc)] (init 2) = Ok c3 /\
        get a c3 = (None, c3) /\
        evicted_by_put d (get a c3).2 = Some b /\
        put d vd (get a c3).2 = Ok c4 /\
        access_order c4 = [cc; d] /\
        cache c4 !! a = None /\ cache c4 !! b = None /\
        cache c4 !! cc = Some vc /\ cache c4 !! d = Some vd).
Proof.
  split.
  - intros c k v Hwf Ek.
    destruct (get_hit k v c Hwf Ek) as (l' & Hrem & Hperm & Hget).
    exists l'. simpl. split; [done|]. split; [done|].
    intros Hsize k' v' o Hev.
    rewrite (wf_size c Hwf), Hperm in Hsize. simpl in Hsize.
    destruct l' as [|o' r]; [simpl in Hsize; lia|].
    assert (Hnd : NoDup (k :: o' :: r)) by (rewrite <- Hperm; apply (wf_nodup _ Hwf)).
    apply NoDup_cons in Hnd as [Hk _].
    assert (Hok : o' <> k) by (intros ->; apply Hk; by left).
    unfold evicted_by_put in Hev. cbn [cache access_order max_size] in Hev.
    destruct (cache c !! k') eqn:Ek'; [done|].
    destruct (max_size c <=? _) eqn:Hfull in Hev; [|done].
    apply Z.leb_le in Hfull.
    injection Hev as <-.
    split; [done|]. split; [done|].
    eexists. split.
    + apply (put_full k' v' _ o' (r ++ [k])); [done|done|done].
    + simpl. split.
      * rewrite lookup_insert_ne by congruence.
        by rewrite lookup_delete_ne.
      * assert (is_Some (cache c !! o')) as [x Hx].
        { apply (wf_keys _ Hwf). rewrite Hperm. right. by left. }
        rewrite lookup_insert_ne by congruence.
        apply lookup_delete_eq.
  - intros a b cc d va vb vc vd Hnd.
    apply NoDup_cons in Hnd as [Ha Hnd].
    apply NoDup_cons in Hnd as [Hb Hnd].
    apply NoDup_cons in Hnd as [Hc _].
    assert (a <> b /\ a <> cc /\ a <> d /\ b <> cc /\ b <> d /\ cc <> d)
      as (Hab & Hac & Had & Hbc & Hbd & Hcd) by set_solver.
    set (c3 := {| cache := <[cc := vc]> (delete a (<[b := vb]> (<[a := va]> ∅)));
                  access_order := [b; cc]; max_size := 2 |} : t K V).
    assert (E3 : put_all [(a, va); (b, vb); (cc, vc)] (init 2) = Ok c3).
    { simpl. rewrite (put_room a va (init 2)) by (by simpl; try apply lookup_empty).
      simpl. rewrite put_room; simpl; [|by rewrite lookup_insert_ne|lia].
      rewrite (put_full cc vc _ a [b]); simpl; [done| |lia|done].
      by rewrite !lookup_insert_ne. }
    assert (Ea : cache c3 !! a = None).
    { simpl. rewrite lookup_insert_ne by done. apply lookup_delete_eq. }
    assert (Ed : cache c3 !! d = None).
    { simpl. rewrite lookup_insert_ne, lookup_delete_ne, !lookup_insert_ne by done.
      apply lookup_empty. }
    exists c3. eexists. split; [done|].
    rewrite (get_miss a c3 Ea). simpl. split; [done|]. split.
    { unfold evicted_by_put. by rewrite Ed. }
    split.
    { apply (put_full d vd c3 b [cc]); [done|simpl; lia|done]. }
    simpl. split; [done|].
    split_and!.
    + rewrite lookup_insert_ne, lookup_delete_ne, lookup_insert_ne by done.
      apply lookup_delete_eq.
    + rewrite lookup_insert_ne by done. apply lookup_delete_eq.
    + rewrite lookup_insert_ne, lookup_delete_ne by done. apply lookup_insert_eq.
    + apply lookup_insert_eq.
Qed.

(** C8.  [put] on a key that is already present changes nothing: the
    cache afterwards is the cache before (same entries, same buffer for
    the key, same recency list, same size), nothing is evicted, and so a
    second [put] of that key with another buffer is a no-op as well. *)
Theorem put_present_is_noop c k v1 v2 :
  is_Some (cache c !! k) ->
  put k v1 c = Ok c /\
  bind (put k v1 c) (put k v2) = Ok c /\
  evicted_by_put k c = None.
Proof.
  intros Hk. split; [by apply put_present|]. split.
  - rewrite (put_present k v1 c Hk). simpl. by apply put_present.
  - unfold evicted_by_put. by destruct Hk as [x ->].
Qed.

End TileCacheClaims.

(** ** The cache on concrete keys *)

Lemma wf_cache_AB : TileCache.wf cache_AB.
Proof.
  apply (put_wf kB blank_tile
           {| TileCache.cache := <[kA := blank_tile]> ∅;
              TileCache.access_order := [kA]; TileCache.max_size := 2 |});
    [|reflexivity].
  apply (put_wf kA blank_tile (TileCache.init 2)); [|reflexivity].
  apply wf_init. lia.
Defined.

Lemma wf_cache_A1 : TileCache.wf cache_A1.
Proof.
  apply (put_wf kA blank_tile (TileCache.init 1)); [|reflexivity].
  apply wf_init. lia.
Defined.

(** C1, as stated, fails for capacity 0: the empty cache then holds
    [max_size] entries and the key is absent, yet [put] raises
    [IndexError] (from [access_order.pop(0)]) instead of inserting. *)
Lemma put_into_capacity_zero_raises :
  let c : TileCache.t cache_key ndarray := TileCache.init 0 in
  TileCache.wf c /\
  TileCache.cache c !! kA = None /\
  Z.of_nat (size (TileCache.cache c)) = TileCache.max_size c /\
  TileCache.put kA blank_tile c = Raise IndexError /\
  forall c', TileCache.put kA blank_tile c <> Ok c'.
Proof.
  simpl. split; [apply wf_init; lia|].
  split; [reflexivity|]. split; [reflexivity|]. split; [reflexivity|].
  intros c'. discriminate.
Qed.

Lemma put_evicts_least_recently_used_witness :
  1 <= 2 /\
  (exists oldest rest,
      TileCache.access_order cache_AB = oldest :: rest /\
      TileCache.evicted_by_put kC cache_AB = Some oldest /\
      TileCache.put kC blank_tile cache_AB =
        Ok {| TileCache.cache :=
                <[kC := blank_tile]> (delete oldest (TileCache.cache cache_AB));
              TileCache.access_order := rest ++ [kC];
              TileCache.max_size := 2 |}) /\
  (exists c',
      TileCache.put_all [(kA, blank_tile); (kB, blank_tile); (kC, blank_tile)]
                        (TileCache.init 2) = Ok c' /\
      TileCache.cache c' !! kA = None /\
      forall k v, (k, v) ∈ [(kB, blank_tile); (kC, blank_tile)] ->
                  TileCache.cache c' !! k = Some v).
Proof.
  split; [lia|].
  destruct (put_evicts_least_recently_used (K := cache_key) (V := ndarray) 2 ltac:(lia))
    as [Hfull Hrun].
  split.
  - apply (Hfull cache_AB kC blank_tile).
    + exact wf_cache_AB.
    + reflexivity.
    + reflexivity.
    + reflexivity.
  - apply (Hrun (TileCache.init 2) kA blank_tile [(kB, blank_tile); (kC, blank_tile)]).
    + apply wf_init. lia.
    + reflexivity.
    + apply (bool_decide_unpack _). vm_compute. reflexivity.
    + intros k _. apply lookup_empty.
    + reflexivity.
Defined.

(** C7, as stated, fails for a cache that holds a single key: after
    [get kA] the next eviction removes [kA] itself. *)
Lemma get_then_evicted_in_capacity_one :
  TileCache.wf cache_A1 /\
  TileCache.get kA cache_A1 = (Some blank_tile, cache_A1) /\
  TileCache.evicted_by_put kB (TileCache.get kA cache_A1).2 = Some kA /\
  exists c2,
    TileCache.put kB blank_tile (TileCache.get kA cache_A1).2 = Ok c2 /\
    TileCache.cache c2 !! kA = None.
Proof.
  split; [exact wf_cache_A1|].
  split; [reflexivity|]. split; [reflexivity|].
  eexists. split; [reflexivity|]. reflexivity.
Qed.

Lemma get_refreshes_recency_witness :
  (exists l',
      TileCache.list_remove kA (TileCache.access_order cache_AB) = Some l' /\
      TileCache.get kA cache_AB =
        (Some blank_tile,
         {| TileCache.cache := TileCache.cache cache_AB;
            TileCache.access_order := l' ++ [kA];
            TileCache.max_size := 2 |}) /\
      TileCache.evicted_by_put kC (TileCache.get kA cache_AB).2 = Some kB) /\
  (exists c3 c4,
      TileCache.put_all [(kA, blank_tile); (kB, blank_tile); (kC, blank_tile)]
                        (TileCache.init 2) = Ok c3 /\
      TileCache.evicted_by_put kD (TileCache.get kA c3).2 = Some kB /\
      TileCache.put kD blank_tile (TileCache.get kA c3).2 = Ok c4 /\
      TileCache.access_order c4 = [kC; kD]).
Proof.
  destruct (get_refreshes_recency (K := cache_key) (V := ndarray)) as [Hget Hscen].
  split.
  - destruct (Hget cache_AB kA blank_tile wf_cache_AB eq_refl) as (l' & Hrem & Hg & Hev).
    exists l'. split; [exact Hrem|]. split; [exact Hg|].
    reflexivity.
  - destruct (Hscen kA kB kC kD blank_tile blank_tile blank_tile blank_tile)
      as (c3 & c4 & H3 & _ & Hev & Hput & Hord & _).
    + apply (bool_decide_unpack _). vm_compute. reflexivity.
    + exists c3, c4. split; [exact H3|]. split; [exact Hev|]. split; [exact Hput|].
      exact Hord.
Defined.

Lemma put_present_is_noop_witness :
  is_Some (TileCache.cache cache_AB !! kA) /\
  TileCache.put kA {| arr_h := 1; arr_w := 1; arr_data := [7] |} cache_AB = Ok cache_AB /\
  TileCache.access_order cache_AB = [kA; kB] /\
  TileCache.cache cache_AB !! kA = Some blank_tile.
Proof.
  assert (Hk : is_Some (TileCache.cache cache_AB !! kA)) by (exists blank_tile; reflexivity).
  split; [exact Hk|].
  split.
  - exact (proj1 (put_present_is_noop cache_AB kA
                    {| arr_h := 1; arr_w := 1; arr_data := [7] |} blank_tile Hk)).
  - split; reflexivity.
Defined.

(** * Facts about the widget *)

Section MainWidgetFacts.
Context {View : Type} `{GraphicsView View} `{FloatPow}.
Implicit Types (w : MainWidget.t View) (k : tile_key).
Import MainWidget.

(** ** The completion handler *)

Lemma on_tile_loaded_level x y level arr w :
  current_level (_on_tile_loaded x y level arr w) = current_level w.
Proof.
  unfold _on_tile_loaded. destruct arr; try done. simpl.
  destruct (wsi_viewer w); [|done].
  destruct (negb _); [done|]. by destruct (placed _ _).
Qed.

Lemma on_tile_loaded_viewer x y level arr w :
  wsi_viewer (_on_tile_loaded x y level arr w) = wsi_viewer w.
Proof.
  unfold _on_tile_loaded. destruct arr; try done. simpl.
  destruct (wsi_viewer w) eqn:E; [|done].
  destruct (negb _); [done|]. by destruct (placed _ _).
Qed.

(** The handler always takes the key off the pending set, first thing. *)
Lemma on_tile_loaded_pending x y level arr w :
  pending_tasks (_on_tile_loaded x y level arr w)
  = pending_tasks w ∖ {[(level, x, y)]}.
Proof.
  unfold _on_tile_loaded. destruct arr; try done. simpl.
  destruct (wsi_viewer w); [|done].
  destruct (negb _); [done|]. by destruct (placed _ _).
Qed.

(** What the handler places when it does not discard. *)
Lemma on_tile_loaded_places x y level a w :
  is_Some (wsi_viewer w) -> level = current_level w ->
  (level, x, y) ∉ (wsi_tile_items w).*1 ->
  let item := {| item_pix := a; item_offset := (x, y) |} in
  wsi_tile_items (_on_tile_loaded x y level (PyArray a) w)
    = wsi_tile_items w ++ [((level, x, y), item)] /\
  scene_items (_on_tile_loaded x y level (PyArray a) w) = scene_items w ++ [item].
Proof.
  intros [v Hv] -> Hnot. unfold _on_tile_loaded. simpl. rewrite Hv.
  rewrite Z.eqb_refl. simpl.
  unfold placed. simpl. rewrite bool_decide_eq_false_2 by done. done.
Qed.

Lemma on_tile_loaded_tiles_on_level x y level arr w :
  tiles_on_level w -> tiles_on_level (_on_tile_loaded x y level arr w).
Proof.
  intros Hinv k. rewrite on_tile_loaded_level.
  unfold _on_tile_loaded. destruct arr; try apply Hinv. simpl.
  destruct (wsi_viewer w); [|apply Hinv].
  destruct (Z.eqb_spec level (current_level w)) as [->|]; simpl; [|apply Hinv].
  destruct (placed _ _); [apply Hinv|]. simpl.
  rewrite fmap_app, elem_of_app. simpl. intros [Hk|Hk]; [by apply Hinv|].
  by apply list_elem_of_singleton in Hk as ->.
Qed.

(** C2.  A completion whose buffer is not an array, or whose level is
    not the active level, or whose key is already placed, is dropped:
    the placed tiles, the scene and the level are what they were.  So
    when every placed tile is on the active level (which all operations
    maintain), a completion for a level the view has left is not among
    the placed tiles afterwards. *)
Theorem stale_completion_is_discarded x y level arr w :
  invalid_buffer arr = true \/ level <> current_level w
    \/ (level, x, y) ∈ (wsi_tile_items w).*1 ->
  let w' := _on_tile_loaded x y level arr w in
  wsi_tile_items w' = wsi_tile_items w /\
  scene_items w' = scene_items w /\
  current_level w' = current_level w /\
  (tiles_on_level w -> level <> current_level w ->
   (level, x, y) ∉ (wsi_tile_items w').*1).
Proof.
  intros Hdrop. simpl.
  assert (Hsame : wsi_tile_items (_on_tile_loaded x y level arr w) = wsi_tile_items w
                  /\ scene_items (_on_tile_loaded x y level arr w) = scene_items w).
  { unfold _on_tile_loaded. destruct arr as [|a|]; try done. simpl.
    destruct (wsi_viewer w); [|done].
    destruct (Z.eqb_spec level (current_level w)) as [->|]; simpl; [|done].
    destruct (placed _ _) eqn:Hp; [done|].
    unfold placed in Hp. simpl in Hp. apply bool_decide_eq_false in Hp.
    destruct Hdrop as [Hd|[Hd|Hd]]; [discriminate|done|done]. }
  destruct Hsame as [Hitems Hscene].
  split; [done|]. split; [done|]. split; [apply on_tile_loaded_level|].
  intros Hinv Hne Hin. rewrite Hitems in Hin.
  apply Hinv in Hin. simpl in Hin. done.
Qed.

End MainWidgetFacts.

Lemma stale_completion_is_discarded_witness :
  let w := widget_on slide4 1 (view_at 1) in
  let w' := MainWidget._on_tile_loaded 0 0 2 (PyArray blank_tile) w in
  2 <> MainWidget.current_level w /\
  MainWidget.tiles_on_level w /\
  MainWidget.wsi_tile_items w' = MainWidget.wsi_tile_items w /\
  MainWidget.scene_items w' = MainWidget.scene_items w /\
  (2, 0, 0) ∉ (MainWidget.wsi_tile_items w').*1.
Proof.
  cbv zeta.
  assert (Hne : 2 <> MainWidget.current_level (widget_on slide4 1 (view_at 1)))
    by discriminate.
  assert (Hinv : MainWidget.tiles_on_level (widget_on slide4 1 (view_at 1))).
  { intros k Hk. by apply elem_of_nil in Hk. }
  split; [exact Hne|]. split; [exact Hinv|].
  pose proof (stale_completion_is_discarded 0 0 2 (PyArray blank_tile)
                (widget_on slide4 1 (view_at 1)) (or_intror (or_introl Hne))) as Hthm.
  cbv zeta in Hthm. destruct Hthm as (Hitems & Hscene & _ & Hstale).
  split; [exact Hitems|]. split; [exact Hscene|]. exact (Hstale Hinv Hne).
Defined.

(** * The scheduling pass *)

Section Sorting.
Import MainWidget.

Lemma dist_le_trans a b c : dist_le a b -> dist_le b c -> dist_le a c.
Proof. unfold dist_le. apply Qle_trans. Qed.

Lemma insert_by_dist_perm c l : insert_by_dist c l ≡ₚ c :: l.
Proof.
  induction l as [|d l IH]; simpl; [done|].
  destruct (Qle_bool _ _); [done|].
  rewrite IH. apply Permutation_swap.
Qed.

Lemma sort_by_dist_perm l : sort_by_dist l ≡ₚ l.
Proof.
  induction l as [|c l IH]; simpl; [done|].
  rewrite insert_by_dist_perm. by rewrite IH.
Qed.

Lemma insert_by_dist_sorted c l :
  StronglySorted dist_le l -> StronglySorted dist_le (insert_by_dist c l).
Proof.
  induction 1 as [|d l Hs IH Hall]; simpl.
  { repeat constructor. }
  destruct (Qle_bool (cand_dist c) (cand_dist d)) eqn:E.
  - apply Qle_bool_iff in E.
    constructor; [by constructor|].
    constructor; [done|].
    eapply Forall_impl; [exact Hall|].
    intros x Hx. by apply (dist_le_trans c d x).
  - assert (Hdc : dist_le d c).
    { unfold dist_le. apply Qlt_le_weak, Qnot_le_lt.
      intros Hle. apply Qle_bool_iff in Hle. congruence. }
    constructor; [done|].
    rewrite insert_by_dist_perm. by constructor.
Qed.

Lemma sort_by_dist_sorted l : StronglySorted dist_le (sort_by_dist l).
Proof.
  induction l as [|c l IH]; simpl; [constructor|].
  by apply insert_by_dist_sorted.
Qed.

Lemma insert_by_dist_stable q c l :
  at_dist q (insert_by_dist c l) = at_dist q (c :: l).
Proof.
  induction l as [|d l IH]; [done|].
  simpl. destruct (Qle_bool (cand_dist c) (cand_dist d)) eqn:E; [done|].
  unfold at_dist in *. simpl in *. rewrite IH.
  destruct (Qeq_bool (cand_dist c) q) eqn:Ec; [|done].
  destruct (Qeq_bool (cand_dist d) q) eqn:Ed; [|done].
  exfalso. apply Qeq_bool_iff in Ec, Ed.
  assert (Hle : (cand_dist c <= cand_dist d)%Q) by (rewrite Ec, Ed; apply Qle_refl).
  apply Qle_bool_iff in Hle. congruence.
Qed.

(** The sort is stable: candidates at equal distance keep the order in
    which the loops produced them. *)
Lemma sort_by_dist_stable q l : at_dist q (sort_by_dist l) = at_dist q l.
Proof.
  induction l as [|c l IH]; [done|].
  simpl. rewrite insert_by_dist_stable.
  unfold at_dist in *. simpl. by rewrite IH.
Qed.









End Sorting.

Section SchedulingPass.
Context {View : Type} `{GraphicsView View} `{FloatPow}.
Implicit Types (w : MainWidget.t View) (k : tile_key).
Import MainWidget.

Lemma dict_pop_keys k (its : list (tile_key * PixmapItem)) :
  (dict_pop k its).*1 ⊆ its.*1.
Proof.
  intros x Hx. apply list_elem_of_fmap in Hx as (p & -> & Hp).
  apply list_elem_of_fmap. exists p. split; [done|].
  unfold dict_pop in Hp. apply list_elem_of_In, filter_In in Hp as [Hp _].
  by apply list_elem_of_In.
Qed.

(** The removal loops touch the placed tiles and the scene only, and
    never add a tile. *)
Lemma remove_tiles_frame (l : list (tile_key * PixmapItem)) w :
  let w' := foldl remove_tile w l in
  wsi_viewer w' = wsi_viewer w /\
  pending_tasks w' = pending_tasks w /\
  current_level w' = current_level w /\
  graphics_view w' = graphics_view w /\
  update_timer w' = update_timer w /\
  effects w' = effects w /\
  (wsi_tile_items w').*1 ⊆ (wsi_tile_items w).*1.
Proof.
  revert w. induction l as [|p l IH]; intros w; simpl; [done|].
  destruct (IH (remove_tile w p)) as (Hv & Hp & Hl & Hg & Ht & He & Hk).
  simpl in *. split_and!; try done.
  etrans; [exact Hk|]. apply dict_pop_keys.
Qed.

Lemma capacity_guard_frame w :
  let w' := capacity_guard w in
  wsi_viewer w' = wsi_viewer w /\
  pending_tasks w' = pending_tasks w /\
  current_level w' = current_level w /\
  graphics_view w' = graphics_view w /\
  update_timer w' = update_timer w /\
  effects w' = effects w /\
  (wsi_tile_items w').*1 ⊆ (wsi_tile_items w).*1.
Proof.
  unfold capacity_guard. destruct (_ <? _); [apply remove_tiles_frame|done].
Qed.

Lemma pass_cleaned_frame w :
  let w' := pass_cleaned w in
  wsi_viewer w' = wsi_viewer w /\
  pending_tasks w' = pending_tasks w /\
  current_level w' = current_level w /\
  graphics_view w' = graphics_view w /\
  update_timer w' = update_timer w /\
  effects w' = effects w /\
  (wsi_tile_items w').*1 ⊆ (wsi_tile_items w).*1.
Proof.
  unfold pass_cleaned, evict_invisible.
  destruct (capacity_guard_frame w) as (Hv & Hp & Hl & Hg & Ht & He & Hk).
  match goal with |- context [foldl remove_tile ?w0 ?l] =>
    destruct (remove_tiles_frame l w0) as (Hv' & Hp' & Hl' & Hg' & Ht' & He' & Hk')
  end.
  simpl in *. split_and!; try congruence.
  etrans; [exact Hk'|exact Hk].
Qed.

(** The dispatch loop started with its counter at [count]: it handles
    the first [MAX_TILES_PER_REQUEST - count] candidates, for each one
    first adding the key to the pending set and then submitting the
    task, and changes nothing else. *)
Lemma dispatch_spec ds (cs : list candidate) count w :
  0 <= count ->
  let reached := take (Z.to_nat (MAX_TILES_PER_REQUEST - count)) cs in
  let w' := dispatch ds cs count w in
  effects w' = effects w ++ dispatch_effects (current_level w) ds reached /\
  pending_tasks w' = pending_tasks w ∪ list_to_set (cand_key (current_level w) <$> reached) /\
  wsi_viewer w' = wsi_viewer w /\
  wsi_tile_items w' = wsi_tile_items w /\
  scene_items w' = scene_items w /\
  current_level w' = current_level w /\
  graphics_view w' = graphics_view w /\
  update_timer w' = update_timer w.
Proof.
  revert count w. induction cs as [|c cs IH]; intros count w Hc; simpl.
  { rewrite take_nil. simpl. rewrite app_nil_r. split_and!; try done.
    by rewrite (right_id_L ∅ (∪)). }
  destruct (Z.leb_spec MAX_TILES_PER_REQUEST count) as [Hle|Hlt].
  { replace (Z.to_nat (MAX_TILES_PER_REQUEST - count)) with 0%nat by lia.
    simpl. rewrite app_nil_r. split_and!; try done.
    by rewrite (right_id_L ∅ (∪)). }
  replace (Z.to_nat (MAX_TILES_PER_REQUEST - count))
    with (S (Z.to_nat (MAX_TILES_PER_REQUEST - (count + 1)))) by lia.
  destruct (IH (count + 1) (dispatch_one ds c w) ltac:(lia))
    as (He & Hp & Hv & Hi & Hs & Hl & Hg & Ht).
  simpl in *. split_and!; try done.
  - rewrite He. by rewrite <- !app_assoc.
  - rewrite Hp. rewrite (comm_L (∪) {[_]} (pending_tasks w)).
    by rewrite <- (assoc_L (∪)).
Qed.

Lemma update_visible_tiles_unfold w v :
  wsi_viewer w = Some v ->
  rect_isEmpty (pass_rect w) = false ->
  update_visible_tiles w
  = dispatch (get_downsample v (current_level w))
             (sort_by_dist (pass_candidates w)) 0 (pass_cleaned w).
Proof.
  intros Hv He. unfold update_visible_tiles. rewrite Hv.
  unfold pass_rect in He. rewrite He.
  destruct (pass_cleaned_frame w) as (_ & _ & Hl & _).
  simpl in Hl. unfold pass_cleaned in Hl. unfold pass_x0, pass_y0, pass_x1, pass_y1, pass_rect in Hl.
  rewrite Hl. reflexivity.
Qed.

(** Membership in [range(start, stop, step)]. *)
Lemma py_range_elem (start stop step x : Z) :
  0 < step ->
  x ∈ py_range start stop step <->
  exists i, 0 <= i /\ x = start + i * step /\ x < stop.
Proof.
  intros Hs. unfold py_range.
  rewrite list_elem_of_fmap. split.
  - intros (n & -> & Hn). apply elem_of_seq in Hn. exists (Z.of_nat n).
    split; [lia|]. split; [done|].
    assert (Z.of_nat n < (stop - start + step - 1) / step) by lia.
    assert (Z.of_nat n + 1 <= (stop - start + step - 1) / step) by lia.
    assert ((Z.of_nat n + 1) * step <= stop - start + step - 1).
    { etrans; [apply Z.mul_le_mono_nonneg_r; [lia|eassumption]|].
      rewrite Z.mul_comm. apply Z.mul_div_le. lia. }
    lia.
  - intros (i & Hi & -> & Hlt). exists (Z.to_nat i). split; [f_equal; lia|].
    apply elem_of_seq. split; [lia|]. simpl.
    assert (i + 1 <= (stop - start + step - 1) / step); [|lia].
    apply Z.div_le_lower_bound; [lia|]. nia.
Qed.

(** The candidates are the tiles of the grid over the box that are
    neither placed nor pending, each with its squared distance. *)
Lemma candidates_elem x0 y0 x1 y1 center w (c : candidate) :
  c ∈ candidates x0 y0 x1 y1 center w <->
  exists x y,
    c = (dist2 center x y, x, y) /\
    y ∈ py_range y0 (y1 + TILE_SIZE) TILE_SIZE /\
    x ∈ py_range x0 (x1 + TILE_SIZE) TILE_SIZE /\
    placed (current_level w, x, y) w = false /\
    pending (current_level w, x, y) w = false.
Proof.
  unfold candidates. rewrite list_elem_of_In, in_flat_map. split.
  - intros (y & Hy & Hc). apply in_flat_map in Hc as (x & Hx & Hc).
    destruct (placed _ _) eqn:Hpl; [by destruct Hc|].
    destruct (pending _ _) eqn:Hpe; [by destruct Hc|].
    simpl in Hc. destruct Hc as [<-|[]].
    exists x, y. by rewrite <- !list_elem_of_In in *.
  - intros (x & y & -> & Hy & Hx & Hpl & Hpe).
    exists y. split; [by apply list_elem_of_In|].
    apply in_flat_map. exists x. split; [by apply list_elem_of_In|].
    rewrite Hpl, Hpe. by left.
Qed.

(** In the calls of a dispatch, every [submit] comes after the
    [pending_tasks.add] of its key. *)
Lemma dispatch_effects_add_first level ds (cs : list candidate) es1 tk es2 :
  dispatch_effects level ds cs = es1 ++ Submit tk :: es2 ->
  PendingAdd (task_key tk) ∈ es1.
Proof.
  revert es1. induction cs as [|c cs IH]; intros es1 Heq; simpl in Heq.
  { by destruct es1. }
  destruct es1 as [|e1 es1]; simpl in Heq; [discriminate|].
  injection Heq as <- Heq.
  destruct es1 as [|e2 es1]; simpl in Heq.
  - injection Heq as <- _. left.
  - injection Heq as <- Heq. right. right. by apply IH.
Qed.

(** What a pass over an open slide with something visible does to the
    pending set and the executor. *)
Lemma update_visible_tiles_effects w v :
  wsi_viewer w = Some v ->
  rect_isEmpty (pass_rect w) = false ->
  effects (update_visible_tiles w)
  = effects w ++ dispatch_effects (current_level w)
                   (get_downsample v (current_level w)) (pass_dispatched w) /\
  pending_tasks (update_visible_tiles w)
  = pending_tasks w ∪ list_to_set (cand_key (current_level w) <$> pass_dispatched w).
Proof.
  intros Hv He.
  rewrite (update_visible_tiles_unfold w v Hv He).
  destruct (pass_cleaned_frame w) as (Hcv & Hcp & Hcl & Hcg & Hct & Hce & Hck).
  cbv zeta in *.
  destruct (dispatch_spec (get_downsample v (current_level w))
              (sort_by_dist (pass_candidates w)) 0 (pass_cleaned w) ltac:(lia))
    as (Heff & Hpend & _).
  cbv zeta in Heff, Hpend. rewrite Hcl, Hce in Heff. rewrite Hcl, Hcp in Hpend.
  split; [exact Heff|exact Hpend].
Qed.

(** The candidates of a pass: the grid tiles over the aligned box that
    are not placed after the removal loops and were not pending. *)
Lemma pass_candidates_elem w (c : candidate) :
  c ∈ pass_candidates w <->
  exists x y,
    c = (dist2 (rect_center (pass_rect w)) x y, x, y) /\
    y ∈ py_range (pass_y0 w) (pass_y1 w + TILE_SIZE) TILE_SIZE /\
    x ∈ py_range (pass_x0 w) (pass_x1 w + TILE_SIZE) TILE_SIZE /\
    ((current_level w, x, y) ∉ (wsi_tile_items (pass_cleaned w)).*1) /\
    (current_level w, x, y) ∉ pending_tasks w.
Proof.
  destruct (pass_cleaned_frame w) as (Hcv & Hcp & Hcl & Hcg & Hct & Hce & Hck).
  cbv zeta in *.
  unfold pass_candidates. rewrite candidates_elem.
  rewrite Hcl. unfold placed, pending. rewrite Hcp.
  split; intros (x & y & Hc & Hy & Hx & Hpl & Hpe); exists x, y; split_and!; try done.
  - by apply bool_decide_eq_false in Hpl.
  - by apply bool_decide_eq_false in Hpe.
  - by apply bool_decide_eq_false.
  - by apply bool_decide_eq_false.
Qed.







End SchedulingPass.

(** ** A pass on a concrete widget *)

(** Level 2 of [slide4], view on (0, 0, 1024, 1024): nine tiles around the
    centre (512, 512); the four nearest tie and go out in raster order. *)
Example pass_order_level2 :
  MainWidget.submitted_keys
    (MainWidget.effects (MainWidget.update_visible_tiles (widget_on slide4 2 (view_at 1))))
  = [(2, 0, 0); (2, 512, 0); (2, 0, 512); (2, 512, 512);
     (2, 1024, 0); (2, 1024, 512); (2, 0, 1024); (2, 512, 1024);
     (2, 1024, 1024)].
Proof. vm_compute. reflexivity. Qed.



(** * Decoding tasks and the pending set *)

Section PendingSet.
Context {View : Type} `{GraphicsView View} `{FloatPow}.
Implicit Types (w : MainWidget.t View) (k : tile_key).
Import MainWidget.

(** A pass leaves the slide, the level, the view and the timer alone and
    places no tile. *)
Lemma update_visible_tiles_frame w :
  let w' := update_visible_tiles w in
  wsi_viewer w' = wsi_viewer w /\
  current_level w' = current_level w /\
  graphics_view w' = graphics_view w /\
  update_timer w' = update_timer w /\
  (wsi_tile_items w').*1 ⊆ (wsi_tile_items w).*1.
Proof.
  cbv zeta. destruct (wsi_viewer w) as [v|] eqn:Hv.
  2:{ unfold update_visible_tiles. by rewrite Hv. }
  destruct (rect_isEmpty (pass_rect w)) eqn:He.
  { unfold update_visible_tiles. rewrite Hv. unfold pass_rect in He. by rewrite He. }
  rewrite (update_visible_tiles_unfold w v Hv He).
  destruct (pass_cleaned_frame w) as (Hcv & Hcp & Hcl & Hcg & Hct & Hce & Hck).
  match goal with |- context [dispatch ?ds ?cs 0 ?w0] =>
    destruct (dispatch_spec ds cs 0 w0 ltac:(lia)) as (_ & _ & Hdv & Hdi & _ & Hdl & Hdg & Hdt)
  end.
  cbv zeta in *. rewrite Hdv, Hdl, Hdg, Hdt, Hdi. split_and!; congruence || done.
Qed.

Lemma submitted_keys_dispatch level ds (cs : list candidate) :
  submitted_keys (dispatch_effects level ds cs) = cand_key level <$> cs.
Proof. induction cs as [|c cs IH]; simpl; [done|]. by rewrite IH. Qed.

Lemma submitted_keys_app (es1 es2 : list Effect) :
  submitted_keys (es1 ++ es2) = submitted_keys es1 ++ submitted_keys es2.
Proof. unfold submitted_keys. apply flat_map_app. Qed.

(** A key that is pending is not dispatched again: the tasks a pass
    submits are for keys that were not pending before it. *)
Lemma pending_key_not_dispatched w :
  exists es,
    effects (update_visible_tiles w) = effects w ++ es /\
    forall k, k ∈ pending_tasks w -> k ∉ submitted_keys es.
Proof.
  destruct (wsi_viewer w) as [v|] eqn:Hv.
  2:{ exists []. unfold update_visible_tiles. rewrite Hv, app_nil_r.
      split; [done|]. intros k _ Hk. by apply elem_of_nil in Hk. }
  destruct (rect_isEmpty (pass_rect w)) eqn:He.
  { exists []. unfold update_visible_tiles. rewrite Hv. unfold pass_rect in He.
    rewrite He, app_nil_r. split; [done|]. intros k _ Hk. by apply elem_of_nil in Hk. }
  destruct (update_visible_tiles_effects w v Hv He) as [Heff _].
  eexists. split; [exact Heff|].
  intros k Hk Hin. rewrite submitted_keys_dispatch in Hin.
  apply list_elem_of_fmap in Hin as (c & -> & Hc).
  apply (subseteq_take _ _) in Hc. rewrite sort_by_dist_perm in Hc.
  apply pass_candidates_elem in Hc as (x & y & -> & _ & _ & _ & Hnp). by apply Hnp.
Qed.

(** A task whose region read raises emits no signal, and the pending set
    is what it was. *)
Lemma run_task_read_fails tk w v e :
  wsi_viewer w = Some v ->
  TileCache.cache (cache v) !! (task_lv tk, task_x0 tk, task_y0 tk, task_t tk) = None ->
  read_region (slide v) (task_x0 tk, task_y0 tk) (task_lv tk) (task_t tk, task_t tk)
    = Raise e ->
  (run_task tk w).2 = None /\
  pending_tasks (run_task tk w).1 = pending_tasks w /\
  current_level (run_task tk w).1 = current_level w /\
  wsi_tile_items (run_task tk w).1 = wsi_tile_items w.
Proof.
  intros Hv Hmiss Hread. unfold run_task, read_tile. rewrite Hv. cbv zeta.
  assert (Hget : TileCache.get (K := cache_key)
                   (task_lv tk, task_x0 tk, task_y0 tk, task_t tk) (cache v)
                 = (None, cache v)) by (by apply get_miss).
  rewrite Hget, Hread. done.
Qed.

End PendingSet.

(** C3 at a failing input.  Level 2 of a slide whose decoder raises: the
    pass dispatches tile (2, 0, 0); its task raises in the worker and emits
    no [tile_loaded], so [_on_tile_loaded] never runs for it; the key is
    still pending afterwards and the next pass submits nothing.  Had the
    handler been called with [None], the next pass would have dispatched
    the key again. *)
Theorem failed_decode_stays_pending :
  let w0 := widget_on slide4_failing 2 (view_at 1) in
  let w1 := MainWidget.update_visible_tiles w0 in
  let tk := MainWidget.make_task 2 16 0 0 in
  let w2 := (MainWidget.run_task tk w1).1 in
  Submit tk ∈ MainWidget.effects w1 /\
  (2, 0, 0) ∈ MainWidget.pending_tasks w1 /\
  (MainWidget.run_task tk w1).2 = None /\
  (2, 0, 0) ∈ MainWidget.pending_tasks w2 /\
  MainWidget.effects (MainWidget.update_visible_tiles w2) = MainWidget.effects w1 /\
  (2, 0, 0) ∈ MainWidget.submitted_keys
                (drop (length (MainWidget.effects w1))
                   (MainWidget.effects
                      (MainWidget.update_visible_tiles
                         (MainWidget._on_tile_loaded 0 0 2 PyNone w2)))).
Proof.
  cbv zeta. split_and!.
  - apply (bool_decide_unpack _). vm_compute. reflexivity.
  - apply (bool_decide_unpack _). vm_compute. reflexivity.
  - vm_compute. reflexivity.
  - apply (bool_decide_unpack _). vm_compute. reflexivity.
  - vm_compute. reflexivity.
  - apply (bool_decide_unpack _). vm_compute. reflexivity.
Qed.

(** * Level selection *)

Lemma Qlt_bool_iff (a b : Q) : Qlt_bool a b = true <-> (a < b)%Q.
Proof.
  unfold Qlt_bool. rewrite negb_true_iff. split.
  - intros E. apply Qnot_le_lt. intros Hle. apply Qle_bool_iff in Hle. congruence.
  - intros Hlt. destruct (Qle_bool b a) eqn:E; [|done].
    apply Qle_bool_iff in E. exfalso. by apply (Qlt_not_le a b).
Qed.

Lemma Qlt_bool_false (a b : Q) : Qlt_bool a b = false <-> (b <= a)%Q.
Proof.
  unfold Qlt_bool. rewrite negb_false_iff. apply Qle_bool_iff.
Qed.

(** The thresholds are the doubles next to 2.4 and 0.7. *)
Lemma thresholds_are_the_literals :
  (upper < 2.4 /\ 2.4 - upper < 1 # 2251799813685248)%Q /\
  (lower < 0.7 /\ 0.7 - lower < 1 # 4503599627370496)%Q /\
  (lower < upper)%Q.
Proof. vm_compute. repeat split. Qed.

Section LevelSelection.
Context {View : Type} `{GraphicsView View} `{FloatPow}.
Implicit Types (w : MainWidget.t View).
Import MainWidget.

(** The selector's decision: one level finer above [upper], one level
    coarser below [lower], no change otherwise; never more than one
    level away, and no change at all inside the band. *)
Lemma select_level_spec (s : Q) (level max_level : Z) :
  ((upper < s)%Q -> 0 < level -> select_level s level max_level = level - 1) /\
  ((s < lower)%Q -> level < max_level -> select_level s level max_level = level + 1) /\
  (~ ((upper < s)%Q /\ 0 < level) -> ~ ((s < lower)%Q /\ level < max_level) ->
     select_level s level max_level = level) /\
  Z.abs (select_level s level max_level - level) <= 1 /\
  ((lower <= s)%Q -> (s <= upper)%Q -> select_level s level max_level = level).
Proof.
  unfold select_level.
  destruct (Qlt_bool upper s) eqn:Eu;
    [apply Qlt_bool_iff in Eu|apply Qlt_bool_false in Eu];
    (destruct (Qlt_bool s lower) eqn:El;
      [apply Qlt_bool_iff in El|apply Qlt_bool_false in El]);
    destruct (Z.ltb_spec 0 level), (Z.ltb_spec level max_level); simpl;
    split_and!; intros;
    first [lia | tauto | unfold upper, lower in *; exfalso; lra].
Qed.

Lemma set_level_same w : set_level (current_level w) w = w.
Proof. by destruct w. Qed.

(** Inside the band an evaluation changes nothing and re-enters
    nothing. *)
Lemma maybe_change_level_in_band (rec : t View -> option (t View)) (s : Q) w :
  (lower <= s)%Q -> (s <= upper)%Q ->
  _maybe_change_level rec s w = Some w.
Proof.
  intros Hl Hu. unfold _maybe_change_level.
  destruct (wsi_viewer w) as [v|]; [|done]. cbv zeta.
  destruct (select_level_spec s (current_level w) (get_level_count v - 1))
    as (_ & _ & _ & _ & Hband).
  rewrite (Hband Hl Hu), set_level_same, Z.eqb_refl. done.
Qed.

(** Any run of evaluations at scales inside the band leaves the widget,
    and so the level, as it was. *)
Lemma in_band_scales_keep_level fuel (scales : list Q) w :
  Forall (fun s => (lower <= s)%Q /\ (s <= upper)%Q) scales ->
  evaluate_scales fuel scales w = Some w.
Proof.
  induction 1 as [|s scales [Hl Hu] _ IH]; simpl; [done|].
  by rewrite maybe_change_level_in_band.
Qed.

Lemma reload_and_center_frame old_level v w :
  let w' := reload_and_center old_level v w in
  wsi_viewer w' = wsi_viewer w /\
  current_level w' = current_level w /\
  view_m11 (graphics_view w') = view_m11 (graphics_view w) /\
  wsi_tile_items w' = [] /\ pending_tasks w' = ∅ /\ scene_items w' = [].
Proof.
  cbv zeta. unfold reload_and_center. simpl.
  rewrite view_m11_centerOn, view_m11_setSceneRect. done.
Qed.

(** When the selector decides on another level, the call continues as
    the evaluation that the forced update makes: same slide, the new
    level, the same view scale. *)
Lemma maybe_change_level_reenters fuel (s : Q) w v :
  wsi_viewer w = Some v ->
  select_level s (current_level w) (get_level_count v - 1) <> current_level w ->
  exists w2,
    _maybe_change_level (_do_update (S fuel)) s w
    = _maybe_change_level (_do_update fuel) (view_m11 (graphics_view w)) w2 /\
    wsi_viewer w2 = Some v /\
    current_level w2 = select_level s (current_level w) (get_level_count v - 1) /\
    view_m11 (graphics_view w2) = view_m11 (graphics_view w).
Proof.
  intros Hv Hne.
  set (l' := select_level s (current_level w) (get_level_count v - 1)) in *.
  set (w3 := set_timer false (reload_and_center (current_level w) v (set_level l' w))).
  destruct (update_visible_tiles_frame w3) as (Huv & Hul & Hug & _).
  destruct (reload_and_center_frame (current_level w) v (set_level l' w))
    as (Hrv & Hrl & Hrm & _).
  cbv zeta in Huv, Hul, Hug, Hrv, Hrl, Hrm.
  cbn [wsi_viewer current_level graphics_view set_level] in Hrv, Hrl, Hrm.
  assert (Hv3 : wsi_viewer w3 = Some v) by (subst w3; cbn [wsi_viewer set_timer]; congruence).
  assert (Hm3 : view_m11 (graphics_view (update_visible_tiles w3))
                = view_m11 (graphics_view w)).
  { rewrite Hug. subst w3. cbn [graphics_view set_timer]. exact Hrm. }
  exists (update_visible_tiles w3). split; [|split; [congruence|split; [|exact Hm3]]].
  - unfold _maybe_change_level at 1. rewrite Hv. cbv zeta.
    cbn [current_level set_level]. fold l'.
    destruct (Z.eqb_spec l' (current_level w)) as [|_]; [done|].
    cbn [negb]. unfold _reload_scene_for_level. cbn [wsi_viewer set_level]. rewrite Hv.
    unfold request_update. cbn [_do_update]. unfold do_update_body.
    fold w3. unfold _update_scale_bar_and_hud. rewrite Huv, Hv3, Hm3. reflexivity.
  - rewrite Hul. subst w3. cbn [current_level set_timer]. exact Hrl.
Qed.

(** Above [upper], a level change re-enters [_do_update] at once, with
    the view's scale unchanged, and the selector steps again: the call
    returns only at level 0. *)
Lemma zoom_in_cascades_to_level_0 (n : nat) :
  forall fuel w v (s : Q),
    (n <= fuel)%nat ->
    wsi_viewer w = Some v ->
    (upper < s)%Q -> (upper < view_m11 (graphics_view w))%Q ->
    current_level w = Z.of_nat n ->
    exists w', _maybe_change_level (_do_update fuel) s w = Some w' /\
               current_level w' = 0 /\ wsi_viewer w' = Some v.
Proof.
  induction n as [|n IH]; intros fuel w v s Hfuel Hv Hs Hm Hl.
  - exists w. unfold _maybe_change_level. rewrite Hv. cbv zeta.
    destruct (select_level_spec s (current_level w) (get_level_count v - 1))
      as (_ & _ & Hstay & _).
    rewrite Hstay, set_level_same, Z.eqb_refl; [done|lia|].
    intros [Hlt _]. unfold upper, lower in *. lra.
  - destruct fuel as [|fuel]; [lia|].
    destruct (select_level_spec s (current_level w) (get_level_count v - 1))
      as (Hin & _).
    specialize (Hin Hs ltac:(lia)).
    destruct (maybe_change_level_reenters fuel s w v Hv ltac:(lia))
      as (w2 & -> & Hv2 & Hl2 & Hm2).
    apply (IH fuel w2 v); [lia|done|done|by rewrite Hm2|lia].
Qed.

(** Below [lower] likewise: the call returns only at the coarsest
    level. *)
Lemma zoom_out_cascades_to_max_level (n : nat) :
  forall fuel w v (s : Q),
    (n <= fuel)%nat ->
    wsi_viewer w = Some v ->
    (s < lower)%Q -> (view_m11 (graphics_view w) < lower)%Q ->
    get_level_count v - 1 - current_level w = Z.of_nat n ->
    exists w', _maybe_change_level (_do_update fuel) s w = Some w' /\
               current_level w' = get_level_count v - 1 /\ wsi_viewer w' = Some v.
Proof.
  induction n as [|n IH]; intros fuel w v s Hfuel Hv Hs Hm Hl.
  - exists w. unfold _maybe_change_level. rewrite Hv. cbv zeta.
    destruct (select_level_spec s (current_level w) (get_level_count v - 1))
      as (_ & _ & Hstay & _).
    rewrite Hstay, set_level_same, Z.eqb_refl; [split; [done|split; [lia|done]]| |lia].
    intros [Hlt _]. unfold upper, lower in *. lra.
  - destruct fuel as [|fuel]; [lia|].
    destruct (select_level_spec s (current_level w) (get_level_count v - 1))
      as (_ & Hout & _).
    specialize (Hout Hs ltac:(lia)).
    destruct (maybe_change_level_reenters fuel s w v Hv ltac:(lia))
      as (w2 & -> & Hv2 & Hl2 & Hm2).
    apply (IH fuel w2 v); [lia|done|done|by rewrite Hm2|lia].
Qed.

(** Every evaluation returns: after its own step the re-entered ones
    run at the view's scale, in one direction, and levels are finitely
    many. *)
Lemma maybe_change_level_returns (s : Q) w v :
  wsi_viewer w = Some v ->
  0 <= current_level w < get_level_count v ->
  exists w', _maybe_change_level
               (_do_update (S (Z.to_nat (get_level_count v)))) s w = Some w'.
Proof.
  intros Hv Hl.
  set (l' := select_level s (current_level w) (get_level_count v - 1)).
  destruct (decide (l' = current_level w)) as [E|Hne].
  { exists w. unfold _maybe_change_level. rewrite Hv. cbv zeta. fold l'.
    rewrite E, set_level_same, Z.eqb_refl. done. }
  destruct (maybe_change_level_reenters (Z.to_nat (get_level_count v)) s w v Hv Hne)
    as (w2 & -> & Hv2 & Hl2 & Hm2).
  fold l' in Hl2.
  assert (Hr : 0 <= l' <= get_level_count v - 1).
  { unfold l', select_level.
    destruct (Qlt_bool upper s), (Qlt_bool s lower);
      destruct (Z.ltb_spec 0 (current_level w)),
               (Z.ltb_spec (current_level w) (get_level_count v - 1)); simpl; lia. }
  rewrite <- Hm2.
  destruct (Qlt_le_dec upper (view_m11 (graphics_view w2))) as [Hup|Hup].
  - destruct (zoom_in_cascades_to_level_0 (Z.to_nat l')
                (Z.to_nat (get_level_count v)) w2 v (view_m11 (graphics_view w2)))
      as (w' & Hrun & _); [lia|done|done|done|lia|]. by exists w'.
  - destruct (Qlt_le_dec (view_m11 (graphics_view w2)) lower) as [Hlo|Hlo].
    + destruct (zoom_out_cascades_to_max_level
                  (Z.to_nat (get_level_count v - 1 - l'))
                  (Z.to_nat (get_level_count v)) w2 v (view_m11 (graphics_view w2)))
        as (w' & Hrun & _); [lia|done|done|done|lia|]. by exists w'.
    + exists w2. by apply maybe_change_level_in_band.
Qed.

(** [_do_update] returns, given fuel for one re-entry per level. *)
Lemma do_update_returns w :
  level_in_range w ->
  exists fuel w', _do_update fuel w = Some w'.
Proof.
  intros Hl. destruct (wsi_viewer w) as [v|] eqn:Hv.
  - destruct (update_visible_tiles_frame w) as (Huv & Hul & _).
    cbv zeta in Huv, Hul.
    destruct (maybe_change_level_returns
                (view_m11 (graphics_view (update_visible_tiles w)))
                (update_visible_tiles w) v) as (w' & Hrun).
    + congruence.
    + rewrite Hul. by apply Hl.
    + exists (S (S (Z.to_nat (get_level_count v)))), w'.
      cbn [_do_update]. unfold do_update_body, _update_scale_bar_and_hud.
      rewrite Huv, Hv. exact Hrun.
  - exists 1%nat, w. cbn [_do_update]. unfold do_update_body, _update_scale_bar_and_hud.
    unfold update_visible_tiles. rewrite Hv. by rewrite Hv.
Qed.

End LevelSelection.

(** C4 at a failing input.  Four levels, active level 2, view scale 3.0:
    the selector's own decision is level 1, but the level change forces an
    update on the spot, which evaluates the selector again at the same
    scale; when [_maybe_change_level] returns the level is 0, two levels
    away. *)
Theorem zoom_in_from_level_2_ends_at_level_0 :
  let w := widget_on slide4 2 (view_at 3) in
  (upper < 3)%Q /\
  MainWidget.select_level 3 (MainWidget.current_level w) 3 = 1 /\
  MainWidget.current_level
    <$> MainWidget._maybe_change_level (MainWidget._do_update 3) 3 w = Some 0.
Proof. cbv zeta. split; [reflexivity|]. split; vm_compute; reflexivity. Qed.

(** * Recentring on a level switch *)

Section Recenter.
Context {View : Type} `{GraphicsView View} `{FloatPow}.
Implicit Types (w : MainWidget.t View).
Import MainWidget.

(** The reload asks the view for its centre, resizes the scene, empties
    it and asks the view to centre on the recomputed point; what the
    centre then is, is the view's affair. *)
Lemma reload_and_center_view old_level (v : WSIViewer) w :
  let w' := reload_and_center old_level v w in
  graphics_view w'
  = view_centerOn
      (recenter (get_downsample v old_level)
                (get_downsample v (current_level w))
                (view_center (graphics_view w)))
      (view_setSceneRect (get_dimensions v (current_level w)) (graphics_view w)) /\
  wsi_tile_items w' = [] /\ pending_tasks w' = ∅ /\ scene_items w' = [] /\
  current_level w' = current_level w /\ wsi_viewer w' = wsi_viewer w.
Proof. done. Qed.

End Recenter.


(** * Opening a slide *)

Section OpenSlide.
Context {View : Type} `{GraphicsView View} `{FloatPow}.
Implicit Types (w : MainWidget.t View).
Import MainWidget.

(** C10 (as amended).  After a slide with [level_count >= 1] levels has
    been opened, the active level is [min 2 (level_count - 1)]: level 2
    when there are at least three levels, otherwise the coarsest level,
    which is level 0 exactly when the image has a single level; nothing
    is placed, pending or on the scene. *)
Theorem open_slide_initial_level (rec : t View -> option (t View))
        (s : OpenSlide) w :
  1 <= level_count s ->
  exists w',
    open_slide rec (Ok s) w = Some w' /\
    wsi_viewer w' = Some (WSIViewer_init s) /\
    current_level w' = Z.min 2 (level_count s - 1) /\
    (3 <= level_count s -> current_level w' = 2) /\
    (level_count s < 3 -> current_level w' = level_count s - 1) /\
    (current_level w' = 0 <-> level_count s = 1) /\
    wsi_tile_items w' = [] /\
    pending_tasks w' = ∅ /\
    scene_items w' = [].
Proof.
  intros Hn. eexists. split.
  - unfold open_slide, fit_in_view. cbn [scene_items set_view clear_tiles set_pending
      set_tile_items set_scene]. reflexivity.
  - cbn. unfold get_level_count. cbn. split_and!; try done; lia.
Qed.

End OpenSlide.

(** C10, as stated, fails for a single-level image: the initial level is
    level 0. *)
Lemma single_level_slide_opens_at_level_0 :
  1 <= level_count slide1 /\
  MainWidget.current_level
    <$> MainWidget.open_slide (MainWidget._do_update 1) (Ok slide1)
          (MainWidget.init (view_at 1)) = Some 0.
Proof. split; [vm_compute; discriminate|]. vm_compute. reflexivity. Qed.

Lemma open_slide_initial_level_witness :
  1 <= level_count slide4 /\
  exists w',
    MainWidget.open_slide (MainWidget._do_update 1) (Ok slide4)
      (MainWidget.init (view_at 1)) = Some w' /\
    MainWidget.current_level w' = 2 /\
    MainWidget.wsi_tile_items w' = [] /\
    MainWidget.pending_tasks w' = ∅.
Proof.
  assert (Hn : 1 <= level_count slide4) by (vm_compute; discriminate).
  split; [exact Hn|].
  destruct (open_slide_initial_level (MainWidget._do_update 1) slide4
              (MainWidget.init (view_at 1)) Hn)
    as (w' & Hopen & _ & Hlevel & _ & _ & _ & Hitems & Hpend & _).
  exists w'. split; [exact Hopen|]. split; [exact Hlevel|]. split; [exact Hitems|exact Hpend].
Defined.

(** * Invariants of the widget *)

Section Invariants.
Context {View : Type} `{GraphicsView View} `{FloatPow}.
Implicit Types (w : MainWidget.t View).
Import MainWidget.

Lemma init_inv (view : View) : widget_inv (init view).
Proof.
  split.
  - intros k Hk. by apply elem_of_nil in Hk.
  - intros v Hv. discriminate.
Qed.

Lemma on_tile_loaded_inv x y level arr w :
  widget_inv w -> widget_inv (_on_tile_loaded x y level arr w).
Proof.
  intros [Ht Hl]. split; [by apply on_tile_loaded_tiles_on_level|].
  intros v. rewrite on_tile_loaded_viewer, on_tile_loaded_level. apply Hl.
Qed.

Lemma update_visible_tiles_inv w :
  widget_inv w -> widget_inv (update_visible_tiles w).
Proof.
  intros [Ht Hl].
  destruct (update_visible_tiles_frame w) as (Hv & Hlv & _ & _ & Hk).
  cbv zeta in *. split.
  - intros k Hin. rewrite Hlv. apply Ht. by apply Hk.
  - intros v. rewrite Hv, Hlv. apply Hl.
Qed.

Lemma run_task_inv tk w : widget_inv w -> widget_inv (run_task tk w).1.
Proof.
  intros [Ht Hl]. unfold run_task.
  destruct (wsi_viewer w) as [v|] eqn:Hv; [|done].
  assert (Hs : slide (read_tile (task_x0 tk) (task_y0 tk) (task_t tk) (task_lv tk) v).2
               = slide v).
  { unfold read_tile. cbv zeta. destruct (TileCache.get _ _) as [[a|] c1]; [done|].
    destruct (read_region _ _ _ _); [|done]. by destruct (TileCache.put _ _ _). }
  destruct (read_tile _ _ _ _ v) as [[arr|e] v']; simpl in *.
  all: split; [exact Ht|].
  all: intros v0 [= <-]; unfold get_level_count; rewrite Hs; by apply Hl.
Qed.

Lemma remove_image_inv w : widget_inv w -> widget_inv (remove_image w).
Proof.
  intros Hinv. unfold remove_image. destruct (wsi_viewer w); [|done].
  split.
  - intros k Hk. by apply elem_of_nil in Hk.
  - intros v Hv. discriminate.
Qed.

Lemma select_level_in_range (s : Q) (level max_level : Z) :
  0 <= level <= max_level -> 0 <= select_level s level max_level <= max_level.
Proof.
  intros Hr. unfold select_level.
  destruct (Qlt_bool upper s), (Qlt_bool s lower);
    destruct (Z.ltb_spec 0 level), (Z.ltb_spec level max_level); simpl; lia.
Qed.

Section Reentry.
Variable rec : t View -> option (t View).
Hypothesis rec_inv : forall a b, rec a = Some b -> widget_inv a -> widget_inv b.

Lemma maybe_change_level_inv (s : Q) w w' :
  _maybe_change_level rec s w = Some w' -> widget_inv w -> widget_inv w'.
Proof.
  unfold _maybe_change_level. intros Hrun [Ht Hl].
  destruct (wsi_viewer w) as [v|] eqn:Hv; [|by injection Hrun as <-].
  cbv zeta in Hrun. cbn [current_level set_level] in Hrun.
  assert (Hr := select_level_in_range s (current_level w) (get_level_count v - 1)).
  pose proof (Hl v Hv) as Hlv. specialize (Hr ltac:(lia)).
  destruct (Z.eqb_spec (select_level s (current_level w) (get_level_count v - 1))
              (current_level w)) as [E|_]; cbn [negb] in Hrun.
  - injection Hrun as <-. rewrite E, set_level_same. done.
  - unfold _reload_scene_for_level, request_update in Hrun.
    cbn [wsi_viewer set_level] in Hrun. rewrite Hv in Hrun.
    apply rec_inv in Hrun; [done|]. split.
    + intros k Hk. by apply elem_of_nil in Hk.
    + intros v0 Hv0. simpl in Hv0. rewrite Hv in Hv0.
      injection Hv0 as <-. simpl. lia.
Qed.

Lemma update_scale_bar_and_hud_inv w w' :
  _update_scale_bar_and_hud rec w = Some w' -> widget_inv w -> widget_inv w'.
Proof.
  unfold _update_scale_bar_and_hud. destruct (wsi_viewer w).
  - apply maybe_change_level_inv.
  - by intros [= <-].
Qed.

Lemma open_slide_inv (opened : result OpenSlide) w w' :
  (forall s, opened = Ok s -> 1 <= level_count s) ->
  open_slide rec opened w = Some w' -> widget_inv w -> widget_inv w'.
Proof.
  intros Hcount Hrun Hinv. unfold open_slide in Hrun.
  destruct opened as [s|e].
  - unfold fit_in_view in Hrun. simpl in Hrun. injection Hrun as <-.
    specialize (Hcount s eq_refl). split.
    + intros k Hk. by apply elem_of_nil in Hk.
    + intros v [= <-]. simpl. unfold get_level_count. simpl. lia.
  - injection Hrun as <-. destruct (wsi_viewer w) eqn:Hv; [|done].
    split.
    + intros k Hk. by apply elem_of_nil in Hk.
    + intros v0 Hv0. discriminate.
Qed.
End Reentry.

Lemma do_update_inv fuel w w' :
  _do_update fuel w = Some w' -> widget_inv w -> widget_inv w'.
Proof.
  revert w w'. induction fuel as [|fuel IH]; intros w w'; [discriminate|].
  simpl. unfold do_update_body. intros Hrun Hinv.
  apply (update_scale_bar_and_hud_inv _ IH) in Hrun; [done|].
  by apply update_visible_tiles_inv.
Qed.

End Invariants.

(** * More on the tile cache *)

Section TileCacheMore.
Context {K : Type} `{Countable K} {V : Type}.
Implicit Types (c : TileCache.t K V) (k : K) (v : V).
Import TileCache.

(** X1.  The representation invariant holds for a new cache and is kept
    by [get], by every [put] that returns, and by [clear]; under it the
    cache holds as many entries as the recency list has keys and never
    more than [max_size]. *)
Theorem cache_invariant_kept :
  (forall n : Z, 0 <= n -> wf (init n : TileCache.t K V)) /\
  (forall c k v,
      wf c ->
      wf (get k c).2 /\
      (forall c', put k v c = Ok c' -> wf c') /\
      wf (clear c) /\
      size (cache c) = length (access_order c) /\
      Z.of_nat (size (cache c)) <= max_size c).
Proof.
  split; [apply wf_init|].
  intros c k v Hwf. split_and!.
  - by apply get_wf.
  - intros c'. by apply put_wf.
  - apply wf_clear. pose proof (wf_bound _ Hwf). lia.
  - by apply wf_size.
  - rewrite (wf_size c Hwf). apply (wf_bound _ Hwf).
Qed.

(** X2.  [put] raises only in one situation: the key is absent, the
    recency list is empty and [max_size] is not positive; the exception
    is then the [IndexError] of [pop(0)].  A cache of capacity at least 1
    never raises. *)
Theorem put_raises_iff c k v (e : PyExc) :
  put k v c = Raise e <->
  e = IndexError /\ cache c !! k = None /\ access_order c = [] /\ max_size c <= 0.
Proof.
  unfold put. split.
  - destruct (cache c !! k); [discriminate|].
    destruct (Z.leb_spec (max_size c) (Z.of_nat (length (access_order c))))
      as [Hle|Hlt]; [|discriminate].
    destruct (access_order c); [|discriminate].
    intros [= <-]. simpl in Hle. split_and!; try done.
  - intros (-> & -> & -> & Hle). simpl.
    destruct (max_size c <=? _) eqn:E; [done|].
    apply Z.leb_gt in E. simpl in E. lia.
Qed.

(** X3.  [get] returns exactly what is stored under the key, changes
    neither the stored entries nor the capacity, and only reorders the
    recency list; a miss leaves the cache as it is. *)
Theorem get_returns_stored c k :
  wf c ->
  (get k c).1 = cache c !! k /\
  cache (get k c).2 = cache c /\
  max_size (get k c).2 = max_size c /\
  access_order (get k c).2 ≡ₚ access_order c /\
  (cache c !! k = None -> (get k c).2 = c).
Proof.
  intros Hwf. destruct (cache c !! k) as [v|] eqn:E.
  - destruct (get_hit k v c Hwf E) as (l' & _ & Hp & ->). simpl.
    split_and!; try done. rewrite Hp. symmetry. apply Permutation_cons_append.
  - rewrite (get_miss k c E). done.
Qed.

(** X4.  After a [put] that returns, [get] of the key yields the buffer
    just put when the key was new, and the buffer stored before when the
    key was already cached: [put] never overwrites. *)
Theorem put_then_get c c' k v :
  put k v c = Ok c' ->
  (cache c !! k = None -> (get k c').1 = Some v) /\
  (forall v0, cache c !! k = Some v0 -> (get k c').1 = Some v0).
Proof.
  intros Hput.
  assert (Hlook : forall c0, (get k c0).1 = cache c0 !! k).
  { intros c0. unfold get. by destruct (cache c0 !! k). }
  rewrite Hlook. unfold put in Hput. split.
  - intros E. rewrite E in Hput.
    destruct (max_size c <=? _).
    + destruct (access_order c); [discriminate|].
      injection Hput as <-. apply lookup_insert_eq.
    + injection Hput as <-. apply lookup_insert_eq.
  - intros v0 E. rewrite E in Hput. by injection Hput as <-.
Qed.

(** X5.  A [put] that returns leaves every other key as it was, except
    the one key it evicts, which is the head of the recency list; the
    number of entries never goes down and goes up by at most one. *)
Theorem put_touches_only_the_evicted c c' k v :
  wf c ->
  put k v c = Ok c' ->
  (forall k', k' <> k ->
     cache c' !! k' = cache c !! k' \/
     (evicted_by_put k c = Some k' /\ head (access_order c) = Some k' /\
      cache c' !! k' = None)) /\
  (size (cache c) <= size (cache c') <= S (size (cache c)))%nat.
Proof.
  intros Hwf Hput.
  assert (Hwf' : wf c') by (by apply (put_wf k v c)).
  split.
  - intros k' Hne. unfold put, evicted_by_put in *.
    destruct (cache c !! k) eqn:E; [injection Hput as <-; by left|].
    destruct (max_size c <=? _).
    + destruct (access_order c) as [|oldest rest]; [discriminate|].
      injection Hput as <-. simpl.
      rewrite lookup_insert_ne by done.
      destruct (decide (oldest = k')) as [->|Hno].
      * right. by rewrite lookup_delete_eq.
      * left. by rewrite lookup_delete_ne.
    + injection Hput as <-. simpl. left. by rewrite lookup_insert_ne.
  - rewrite (wf_size c Hwf), (wf_size c' Hwf').
    unfold put in Hput.
    destruct (cache c !! k) eqn:E; [injection Hput as <-; lia|].
    destruct (max_size c <=? _).
    + destruct (access_order c) as [|oldest rest]; [discriminate|].
      injection Hput as <-. simpl. rewrite length_app. simpl. lia.
    + injection Hput as <-. simpl. rewrite length_app. simpl. lia.
Qed.

End TileCacheMore.

Lemma cache_invariant_kept_witness :
  TileCache.wf (TileCache.get kA cache_AB).2 /\
  TileCache.wf (TileCache.clear cache_AB) /\
  Z.of_nat (size (TileCache.cache cache_AB)) <= TileCache.max_size cache_AB.
Proof.
  destruct (cache_invariant_kept (K := cache_key) (V := ndarray)) as [_ Hkeep].
  destruct (Hkeep cache_AB kA blank_tile wf_cache_AB) as (Hg & _ & Hc & _ & Hb).
  split; [exact Hg|]. split; [exact Hc|exact Hb].
Defined.

Lemma get_returns_stored_witness :
  (TileCache.get kB cache_AB).1 = Some blank_tile /\
  TileCache.cache (TileCache.get kB cache_AB).2 = TileCache.cache cache_AB /\
  (TileCache.get kC cache_AB).2 = cache_AB.
Proof.
  destruct (get_returns_stored cache_AB kB wf_cache_AB) as (Hr & Hc & _).
  destruct (get_returns_stored cache_AB kC wf_cache_AB) as (_ & _ & _ & _ & Hm).
  split; [rewrite Hr; reflexivity|]. split; [exact Hc|]. apply Hm. reflexivity.
Defined.

Lemma put_then_get_witness :
  exists c',
    TileCache.put kC blank_tile cache_AB = Ok c' /\
    (TileCache.get kC c').1 = Some blank_tile.
Proof.
  eexists. split; [reflexivity|].
  refine (proj1 (put_then_get cache_AB _ kC blank_tile _) _); reflexivity.
Defined.

Lemma put_touches_only_the_evicted_witness :
  exists c',
    TileCache.put kC blank_tile cache_AB = Ok c' /\
    (size (TileCache.cache cache_AB) <= size (TileCache.cache c'))%nat.
Proof.
  eexists. split; [reflexivity|].
  refine (proj1 (proj2 (put_touches_only_the_evicted cache_AB _ kC blank_tile
                          wf_cache_AB _))).
  reflexivity.
Defined.

(** * More on the slide wrapper *)

Section ViewerMore.
Lemma put_returns_with_capacity {K : Type} `{Countable K} {V : Type}
      (c : TileCache.t K V) (k : K) (v : V) :
  1 <= TileCache.max_size c -> exists c', TileCache.put k v c = Ok c'.
Proof.
  intros Hn. unfold TileCache.put. destruct (TileCache.cache c !! k); [eauto|].
  destruct (Z.leb_spec (TileCache.max_size c)
              (Z.of_nat (length (TileCache.access_order c)))).
  - destruct (TileCache.access_order c); [simpl in *; lia|eauto].
  - eauto.
Qed.

Lemma get_fst {K : Type} `{Countable K} {V : Type} (c : TileCache.t K V) (k : K) :
  (TileCache.get k c).1 = TileCache.cache c !! k
  /\ TileCache.cache (TileCache.get k c).2 = TileCache.cache c
  /\ TileCache.max_size (TileCache.get k c).2 = TileCache.max_size c.
Proof. unfold TileCache.get. by destruct (TileCache.cache c !! k). Qed.

Lemma put_fresh_lookup {K : Type} `{Countable K} {V : Type}
      (c c' : TileCache.t K V) (k : K) (v : V) :
  TileCache.cache c !! k = None -> TileCache.put k v c = Ok c' ->
  TileCache.cache c' !! k = Some v.
Proof.
  intros E Hput. unfold TileCache.put in Hput. rewrite E in Hput.
  destruct (TileCache.max_size c <=? _).
  - destruct (TileCache.access_order c); [discriminate|].
    injection Hput as <-. apply lookup_insert_eq.
  - injection Hput as <-. apply lookup_insert_eq.
Qed.

(** X6.  When [read_tile] returns an array, that array is in the cache
    under the tile's key afterwards, and reading the same tile again
    returns it from the cache: the decoder is not asked, whatever it
    would answer now. *)
Theorem read_tile_is_cached (x y t l : Z) (v v' : WSIViewer) (arr : ndarray) :
  read_tile x y t l v = (Ok arr, v') ->
  slide v' = slide v /\
  TileCache.cache (cache v') !! ((l, x, y, t) : cache_key) = Some arr /\
  forall s : OpenSlide,
    (read_tile x y t l {| slide := s; cache := cache v' |}).1 = Ok arr.
Proof.
  intros Hread.
  assert (Hc : slide v' = slide v /\
               TileCache.cache (cache v') !! ((l, x, y, t) : cache_key) = Some arr).
  { unfold read_tile in Hread. cbv zeta in Hread.
    destruct (get_fst (cache v) ((l, x, y, t) : cache_key)) as (Hg1 & Hg2 & _).
    destruct (TileCache.get _ (cache v)) as [[cached|] c1]; simpl in Hg1, Hg2.
    - injection Hread as <- <-. simpl. by rewrite Hg2.
    - destruct (read_region _ _ _ _) as [a|e]; [|discriminate].
      destruct (TileCache.put _ a c1) as [c2|e] eqn:Hput; [|discriminate].
      injection Hread as <- <-. simpl. split; [done|].
      apply (put_fresh_lookup c1 c2); [by rewrite Hg2|done]. }
  destruct Hc as [Hs Hk]. split; [done|]. split; [done|].
  intros s. unfold read_tile. cbv zeta. cbn [cache].
  destruct (get_fst (cache v') ((l, x, y, t) : cache_key)) as (Hg1 & _).
  destruct (TileCache.get _ (cache v')) as [o c1]. simpl in Hg1.
  rewrite Hg1, Hk. done.
Qed.

(** X7.  With a cache of capacity at least 1, [read_tile] raises exactly
    when the tile is not cached and the decoder raises, with the
    decoder's exception; nothing is cached then: the stored entries are
    what they were. *)
Theorem read_tile_raises_iff (x y t l : Z) (v : WSIViewer) (e : PyExc) :
  1 <= TileCache.max_size (cache v) ->
  ((read_tile x y t l v).1 = Raise e <->
   TileCache.cache (cache v) !! ((l, x, y, t) : cache_key) = None /\
   read_region (slide v) (x, y) l (t, t) = Raise e) /\
  ((read_tile x y t l v).1 = Raise e ->
   TileCache.cache (cache (read_tile x y t l v).2) = TileCache.cache (cache v)).
Proof.
  intros Hn. unfold read_tile. cbv zeta.
  destruct (get_fst (cache v) ((l, x, y, t) : cache_key)) as (Hg1 & Hg2 & Hg3).
  destruct (TileCache.get _ (cache v)) as [o c1]. simpl in Hg1, Hg2, Hg3.
  rewrite <- Hg1. destruct o as [cached|].
  { split; [split; [discriminate|intros [? _]; discriminate]|discriminate]. }
  destruct (read_region _ _ _ _) as [a|e0].
  - destruct (put_returns_with_capacity c1 ((l, x, y, t) : cache_key) a ltac:(lia))
      as [c2 ->]. simpl.
    split; [split; [discriminate|intros [_ ?]; discriminate]|discriminate].
  - simpl. split; [split|].
    + intros [= ->]. done.
    + intros [_ [= ->]]. done.
    + intros _. done.
Qed.

(** The cache invariant survives [read_tile]. *)
Lemma read_tile_wf (x y t l : Z) (v : WSIViewer) :
  TileCache.wf (cache v) -> TileCache.wf (cache (read_tile x y t l v).2).
Proof.
  intros Hwf. unfold read_tile. cbv zeta.
  pose proof (get_wf ((l, x, y, t) : cache_key) (cache v) Hwf) as Hg.
  destruct (TileCache.get _ (cache v)) as [[cached|] c1]; simpl in Hg; [done|].
  destruct (read_region _ _ _ _) as [a|e0]; [|done].
  destruct (TileCache.put _ a c1) as [c2|e] eqn:Hput; [|done].
  simpl. by apply (put_wf ((l, x, y, t) : cache_key) a c1).
Qed.

End ViewerMore.

Lemma read_tile_is_cached_witness :
  exists v',
    read_tile 0 0 512 2 (WSIViewer_init slide4) = (Ok blank_tile, v') /\
    (read_tile 0 0 512 2 {| slide := slide4_failing; cache := cache v' |}).1
    = Ok blank_tile.
Proof.
  eexists. split; [reflexivity|].
  refine (proj2 (proj2 (read_tile_is_cached 0 0 512 2 (WSIViewer_init slide4) _
                          blank_tile _)) slide4_failing).
  reflexivity.
Defined.

Lemma read_tile_raises_iff_witness :
  1 <= TileCache.max_size (cache (WSIViewer_init slide4_failing)) /\
  (read_tile 0 0 512 2 (WSIViewer_init slide4_failing)).1 = Raise OpenSlideError.
Proof.
  assert (Hn : 1 <= TileCache.max_size (cache (WSIViewer_init slide4_failing)))
    by (vm_compute; discriminate).
  split; [exact Hn|].
  apply (proj1 (read_tile_raises_iff 0 0 512 2 (WSIViewer_init slide4_failing)
                  OpenSlideError Hn)).
  split; reflexivity.
Defined.

(** * More on the scheduling pass *)

Section RemovalLoops.
Context {View : Type} `{GraphicsView View} `{FloatPow}.
Implicit Types (w : MainWidget.t View) (k : tile_key)
         (its : list (tile_key * PixmapItem)).
Import MainWidget.

Lemma filter_and {A} (f g : A -> bool) (l : list A) :
  List.filter g (List.filter f l) = List.filter (fun x => f x && g x) l.
Proof.
  induction l as [|x l IH]; simpl; [done|].
  destruct (f x); simpl; [|done]. destruct (g x); by rewrite IH.
Qed.

Lemma filter_all {A} (f : A -> bool) (l : list A) :
  (forall x, x ∈ l -> f x = true) -> List.filter f l = l.
Proof.
  induction l as [|x l IH]; intros Hall; simpl; [done|].
  rewrite (Hall x) by left. rewrite IH; [done|]. intros y Hy. apply Hall. by right.
Qed.

Lemma filter_none {A} (f : A -> bool) (l : list A) :
  (forall x, x ∈ l -> f x = false) -> List.filter f l = [].
Proof.
  induction l as [|x l IH]; intros Hall; simpl; [done|].
  rewrite (Hall x) by left. apply IH. intros y Hy. apply Hall. by right.
Qed.

(** What the removal loop leaves of the placed tiles: the entries whose
    key is not among the removed ones. *)
Lemma remove_tiles_items (l : list (tile_key * PixmapItem)) w :
  wsi_tile_items (foldl remove_tile w l)
  = List.filter (fun p => negb (bool_decide (p.1 ∈ l.*1))) (wsi_tile_items w).
Proof.
  revert w. induction l as [|p l IH]; intros w; simpl.
  { symmetry. by apply filter_all. }
  rewrite IH. simpl. unfold dict_pop. rewrite filter_and.
  apply filter_ext. intros q. cbv beta.
  destruct (decide (q.1 = p.1)) as [E|Hne].
  - rewrite (bool_decide_eq_true_2 (q.1 = p.1)) by done. simpl.
    rewrite bool_decide_eq_true_2; [done|]. rewrite E. by left.
  - rewrite (bool_decide_eq_false_2 (q.1 = p.1)) by done. simpl.
    f_equal. apply bool_decide_ext.
    split; [intros Hin; by right|intros [E|Hin]%elem_of_cons; done].
Qed.

(** After the eviction loop the placed tiles are those that the test of
    lines 874-878 lets stay. *)
Lemma evict_invisible_items x0 y0 x1 y1 w :
  wsi_tile_items (evict_invisible x0 y0 x1 y1 w)
  = List.filter (fun p => negb (out_of_view (current_level w) x0 y0 x1 y1 p.1))
                (wsi_tile_items w).
Proof.
  unfold evict_invisible. rewrite remove_tiles_items.
  apply filter_ext_in. intros p Hp. cbv beta. f_equal.
  destruct (out_of_view (current_level w) x0 y0 x1 y1 p.1) eqn:E.
  - apply bool_decide_eq_true_2. apply list_elem_of_fmap. exists p. split; [done|].
    apply list_elem_of_In, filter_In. by split.
  - apply bool_decide_eq_false_2. intros Hin.
    apply list_elem_of_fmap in Hin as (q & Hq1 & Hq).
    apply list_elem_of_In, filter_In in Hq as [_ Hq]. rewrite <- Hq1 in Hq. congruence.
Qed.

Lemma filter_out_prefix its (n : nat) :
  NoDup its.*1 ->
  List.filter (fun p => negb (bool_decide (p.1 ∈ (take n its).*1))) its
  = drop n its.
Proof.
  intros Hnd.
  transitivity (List.filter (fun p => negb (bool_decide (p.1 ∈ (take n its).*1)))
                            (take n its ++ drop n its)).
  { by rewrite take_drop. }
  rewrite <- (take_drop n its) in Hnd.
  rewrite fmap_app in Hnd. apply NoDup_app in Hnd as (_ & Hdisj & _).
  rewrite List.filter_app.
  rewrite filter_none, filter_all; [done| |].
  - intros p Hp. cbv beta. rewrite bool_decide_eq_false_2; [done|].
    intros Hin. apply (Hdisj p.1 Hin). apply list_elem_of_fmap. by exists p.
  - intros p Hp. cbv beta. rewrite bool_decide_eq_true_2; [done|].
    apply list_elem_of_fmap. by exists p.
Qed.

(** Above the ceiling the guard drops the oldest third of the placed
    tiles. *)
Lemma capacity_guard_items w :
  NoDup (wsi_tile_items w).*1 ->
  wsi_tile_items (capacity_guard w)
  = if MAX_TILES_ON_SCENE <? Z.of_nat (length (wsi_tile_items w))
    then drop (Z.to_nat (Z.of_nat (length (wsi_tile_items w)) / 3)) (wsi_tile_items w)
    else wsi_tile_items w.
Proof.
  intros Hnd. unfold capacity_guard.
  destruct (MAX_TILES_ON_SCENE <? _); [|done].
  rewrite remove_tiles_items. by apply filter_out_prefix.
Qed.

End RemovalLoops.

(** * The scene and the placed tiles *)

Section SceneInvariant.
Context {View : Type} `{GraphicsView View} `{FloatPow}.
Implicit Types (w : MainWidget.t View) (k : tile_key)
         (its : list (tile_key * PixmapItem)).
Import MainWidget.

Lemma scene_removeItem_app (it : PixmapItem) (l1 l2 : list PixmapItem) :
  it ∉ l1 -> scene_removeItem it (l1 ++ it :: l2) = l1 ++ l2.
Proof.
  induction l1 as [|x l1 IH]; intros Hnot; simpl.
  - by rewrite decide_True.
  - apply not_elem_of_cons in Hnot as [Hne Hnot].
    rewrite decide_False by done. by rewrite IH.
Qed.

Lemma dict_pop_split its1 its2 (p : tile_key * PixmapItem) :
  NoDup (its1 ++ p :: its2).*1 ->
  dict_pop p.1 (its1 ++ p :: its2) = its1 ++ its2.
Proof.
  intros Hnd. rewrite fmap_app in Hnd. simpl in Hnd.
  apply NoDup_app in Hnd as (_ & Hdisj & Hnd2).
  apply NoDup_cons in Hnd2 as [Hp2 _].
  unfold dict_pop. rewrite List.filter_app. simpl.
  rewrite (bool_decide_eq_true_2 (p.1 = p.1)) by done. simpl.
  rewrite !filter_all; [done| |].
  - intros q Hq. cbv beta. rewrite bool_decide_eq_false_2; [done|].
    intros E. apply Hp2. rewrite <- E. apply list_elem_of_fmap. by exists q.
  - intros q Hq. cbv beta. rewrite bool_decide_eq_false_2; [done|].
    intros E. apply (Hdisj q.1); [apply list_elem_of_fmap; by exists q|].
    rewrite E. by left.
Qed.

(** One turn of a removal loop on a tile that is placed takes the same
    entry out of the dict and out of the scene. *)
Lemma remove_tile_matches its (p : tile_key * PixmapItem) :
  NoDup its.*1 -> NoDup its.*2 -> p ∈ its ->
  scene_removeItem p.2 its.*2 = (dict_pop p.1 its).*2 /\
  NoDup (dict_pop p.1 its).*1 /\ NoDup (dict_pop p.1 its).*2 /\
  (forall q, q ∈ its -> q.1 <> p.1 -> q ∈ dict_pop p.1 its) /\
  (forall q, q ∈ dict_pop p.1 its -> q ∈ its).
Proof.
  intros Hk Hi Hp.
  apply list_elem_of_split in Hp as (its1 & its2 & ->).
  rewrite (dict_pop_split its1 its2 p Hk).
  rewrite !fmap_app in *. simpl in *.
  pose proof Hi as Hi'. apply NoDup_app in Hi' as (Hi1 & Hidisj & Hi2).
  apply NoDup_cons in Hi2 as [Hpi Hi2].
  pose proof Hk as Hk'. apply NoDup_app in Hk' as (Hk1 & Hkdisj & Hk2).
  apply NoDup_cons in Hk2 as [Hpk Hk2].
  split_and!.
  - apply scene_removeItem_app. intros Hin. apply (Hidisj _ Hin). by left.
  - apply NoDup_app. split_and!; [done| |done].
    intros x Hx Hx'. apply (Hkdisj x Hx). by right.
  - apply NoDup_app. split_and!; [done| |done].
    intros x Hx Hx'. apply (Hidisj x Hx). by right.
  - intros q Hq Hne. apply elem_of_app in Hq as [Hq|Hq]; [apply elem_of_app; by left|].
    apply elem_of_cons in Hq as [->|Hq]; [done|]. apply elem_of_app. by right.
  - intros q Hq. apply elem_of_app in Hq as [Hq|Hq]; apply elem_of_app;
      [by left|right; by right].
Qed.

(** A whole removal loop over placed tiles keeps the scene in step with
    the dict. *)
Lemma remove_tiles_matches (l : list (tile_key * PixmapItem)) w :
  NoDup (wsi_tile_items w).*1 -> NoDup (wsi_tile_items w).*2 ->
  scene_items w = (wsi_tile_items w).*2 ->
  (forall q, q ∈ l -> q ∈ wsi_tile_items w) -> NoDup l.*1 ->
  scene_items (foldl remove_tile w l) = (wsi_tile_items (foldl remove_tile w l)).*2.
Proof.
  revert w. induction l as [|p l IH]; intros w Hk Hi Hs Hl Hnd; simpl; [done|].
  simpl in Hnd. apply NoDup_cons in Hnd as [Hp Hnd].
  destruct (remove_tile_matches (wsi_tile_items w) p Hk Hi (Hl p ltac:(left)))
    as (Hscene & Hk' & Hi' & Hkeep & _).
  apply IH; simpl; try done.
  - by rewrite Hs.
  - intros q Hq. apply Hkeep; [apply Hl; by right|].
    intros E. apply Hp. rewrite <- E. apply list_elem_of_fmap. by exists q.
Qed.

(** On one level, distinct keys have distinct origins, so the items of
    the placed tiles are pairwise distinct. *)
Lemma items_distinct w :
  scene_inv w -> NoDup (wsi_tile_items w).*2.
Proof.
  intros (Hlv & Hk & _ & Hoff).
  apply NoDup_fmap_2_strong; [|by apply NoDup_fmap_1 in Hk].
  intros [[[lp xp] yp] ip] [[[lq xq] yq] iq] Hp Hq E. simpl in E. subst iq.
  pose proof (Hoff _ _ Hp) as Op. pose proof (Hoff _ _ Hq) as Oq.
  simpl in Op, Oq. rewrite Op in Oq. injection Oq as -> ->.
  pose proof (Hlv (lp, xq, yq)) as Lp. pose proof (Hlv (lq, xq, yq)) as Lq.
  simpl in Lp, Lq.
  rewrite Lp, Lq; [done| |].
  - apply list_elem_of_fmap. by exists (lq, xq, yq, ip).
  - apply list_elem_of_fmap. by exists (lp, xq, yq, ip).
Qed.

Lemma filter_sub {A} (f : A -> bool) (l : list A) x :
  x ∈ List.filter f l -> x ∈ l.
Proof. intros Hx. apply list_elem_of_In, filter_In in Hx as [Hx _]. by apply list_elem_of_In. Qed.

Lemma NoDup_fmap_filter {A B} (g : A -> B) (f : A -> bool) (l : list A) :
  NoDup (g <$> l) -> NoDup (g <$> List.filter f l).
Proof.
  induction l as [|x l IH]; simpl; [done|].
  intros Hnd. apply NoDup_cons in Hnd as [Hx Hnd].
  destruct (f x); simpl; [|by apply IH].
  apply NoDup_cons. split; [|by apply IH].
  intros Hin. apply Hx. apply list_elem_of_fmap in Hin as (y & -> & Hy).
  apply list_elem_of_fmap. exists y. split; [done|]. by apply (filter_sub f).
Qed.

(** A removal loop over placed tiles keeps [scene_inv]. *)
Lemma remove_tiles_scene_inv (l : list (tile_key * PixmapItem)) w :
  scene_inv w ->
  (forall q, q ∈ l -> q ∈ wsi_tile_items w) -> NoDup l.*1 ->
  scene_inv (foldl remove_tile w l).
Proof.
  intros Hinv Hl Hnd.
  pose proof (items_distinct w Hinv) as Hi.
  destruct Hinv as (Hlv & Hk & Hs & Hoff).
  destruct (remove_tiles_frame l w) as (_ & _ & Hlevel & _ & _ & _ & Hsub).
  cbv zeta in Hlevel, Hsub.
  split_and!.
  - intros k Hin. rewrite Hlevel. apply Hlv. by apply Hsub.
  - unfold keys_unique. rewrite remove_tiles_items. by apply NoDup_fmap_filter.
  - split; [by apply remove_tiles_matches|].
    intros k it Hin. rewrite remove_tiles_items in Hin.
    apply Hoff. by apply filter_sub in Hin.
Qed.

Lemma sub_take {A} (n : nat) (l : list A) x : x ∈ take n l -> x ∈ l.
Proof. apply (subseteq_take n l). Qed.

Lemma NoDup_fmap_take {A B} (g : A -> B) (n : nat) (l : list A) :
  NoDup (g <$> l) -> NoDup (g <$> take n l).
Proof.
  rewrite <- (take_drop n l) at 1. rewrite fmap_app.
  intros Hnd. by apply NoDup_app in Hnd as (? & _).
Qed.

Lemma pass_cleaned_scene_inv w : scene_inv w -> scene_inv (pass_cleaned w).
Proof.
  intros Hinv.
  assert (Hg : scene_inv (capacity_guard w)).
  { unfold capacity_guard. destruct (_ <? _); [|done].
    apply remove_tiles_scene_inv; [done|apply sub_take|].
    apply NoDup_fmap_take. apply Hinv. }
  unfold pass_cleaned, evict_invisible.
  apply remove_tiles_scene_inv; [done|apply filter_sub|].
  apply NoDup_fmap_filter. apply Hg.
Qed.

Lemma update_visible_tiles_items w v :
  wsi_viewer w = Some v ->
  rect_isEmpty (pass_rect w) = false ->
  wsi_tile_items (update_visible_tiles w) = wsi_tile_items (pass_cleaned w) /\
  scene_items (update_visible_tiles w) = scene_items (pass_cleaned w).
Proof.
  intros Hv He. rewrite (update_visible_tiles_unfold w v Hv He).
  match goal with |- context [dispatch ?ds ?cs 0 ?w0] =>
    destruct (dispatch_spec ds cs 0 w0 ltac:(lia)) as (_ & _ & _ & Hi & Hs & _)
  end.
  cbv zeta in Hi, Hs. by rewrite Hi, Hs.
Qed.

Lemma update_visible_tiles_scene_inv w :
  scene_inv w -> scene_inv (update_visible_tiles w).
Proof.
  intros Hinv. destruct (wsi_viewer w) as [v|] eqn:Hv.
  2:{ unfold update_visible_tiles. by rewrite Hv. }
  destruct (rect_isEmpty (pass_rect w)) eqn:He.
  { unfold update_visible_tiles. rewrite Hv. unfold pass_rect in He. by rewrite He. }
  destruct (update_visible_tiles_items w v Hv He) as [Hi Hs].
  destruct (update_visible_tiles_frame w) as (_ & Hl & _).
  destruct (pass_cleaned_frame w) as (_ & _ & Hcl & _).
  cbv zeta in Hl, Hcl.
  destruct (pass_cleaned_scene_inv w Hinv) as (Hlv & Hk & Hsc & Hoff).
  unfold scene_inv, tiles_on_level, keys_unique, scene_matches.
  rewrite Hi, Hs, Hl. rewrite <- Hcl. done.
Qed.

Lemma on_tile_loaded_scene_inv x y level arr w :
  scene_inv w -> scene_inv (_on_tile_loaded x y level arr w).
Proof.
  intros (Hlv & Hk & Hs & Hoff).
  split; [by apply on_tile_loaded_tiles_on_level|].
  unfold _on_tile_loaded. destruct arr as [|a|]; try done. simpl.
  destruct (wsi_viewer w); [|done].
  destruct (Z.eqb_spec level (current_level w)) as [->|]; simpl; [|done].
  destruct (placed _ _) eqn:Hp; [done|].
  unfold placed in Hp. simpl in Hp. apply bool_decide_eq_false in Hp.
  unfold keys_unique, scene_matches. simpl. split_and!.
  - rewrite fmap_app. simpl. apply NoDup_app. split_and!; [done| |apply NoDup_singleton].
    intros k Hin Hin'. apply list_elem_of_singleton in Hin' as ->. done.
  - rewrite fmap_app, Hs. done.
  - intros k it Hin. apply elem_of_app in Hin as [Hin|Hin]; [by apply Hoff|].
    apply list_elem_of_singleton in Hin. by injection Hin as -> ->.
Qed.

Lemma cleared_scene_inv w :
  wsi_tile_items w = [] -> scene_items w = [] -> scene_inv w.
Proof.
  intros Hi Hs. unfold scene_inv, tiles_on_level, keys_unique, scene_matches.
  rewrite Hi, Hs. simpl. split_and!; try done.
  - intros k Hk. by apply elem_of_nil in Hk.
  - apply NoDup_nil_2.
  - intros k it Hk. by apply elem_of_nil in Hk.
Qed.

End SceneInvariant.

(** * What a scheduling pass does *)

Section PassProperties.
Context {View : Type} `{GraphicsView View} `{FloatPow}.
Implicit Types (w : MainWidget.t View) (k : tile_key).
Import MainWidget.

Lemma out_of_view_false level x0 y0 x1 y1 (lv tx ty : Z) :
  out_of_view level x0 y0 x1 y1 (lv, tx, ty) = false <->
  lv = level /\
  x0 - 2 * TILE_SIZE <= tx <= x1 + TILE_SIZE /\
  y0 - 2 * TILE_SIZE <= ty <= y1 + TILE_SIZE.
Proof.
  unfold out_of_view.
  rewrite !orb_false_iff, negb_false_iff, Z.eqb_eq, !Z.ltb_ge. lia.
Qed.

Lemma pass_effects_spec w :
  pass_effects w
  = match wsi_viewer w with
    | Some v =>
        if rect_isEmpty (pass_rect w) then []
        else dispatch_effects (current_level w)
               (get_downsample v (current_level w)) (pass_dispatched w)
    | None => []
    end.
Proof.
  unfold pass_effects. destruct (wsi_viewer w) as [v|] eqn:Hv.
  - destruct (rect_isEmpty (pass_rect w)) eqn:He.
    + unfold update_visible_tiles. rewrite Hv. unfold pass_rect in He.
      rewrite He. apply drop_all.
    + destruct (update_visible_tiles_effects w v Hv He) as [-> _].
      by rewrite drop_app_length.
  - unfold update_visible_tiles. rewrite Hv. apply drop_all.
Qed.

Lemma elem_of_dispatch_effects level ds (cs : list candidate) tk :
  Submit tk ∈ dispatch_effects level ds cs ->
  exists c, c ∈ cs /\ tk = make_task level ds c.1.2 c.2.
Proof.
  unfold dispatch_effects. rewrite list_elem_of_In, in_flat_map.
  intros (c & Hc & Hin). exists c. split; [by apply list_elem_of_In|].
  destruct Hin as [?|[[= ->]|[]]]; done.
Qed.

Lemma pass_dispatched_sub w (c : candidate) :
  c ∈ pass_dispatched w -> c ∈ pass_candidates w.
Proof.
  intros Hc. apply (subseteq_take _ _) in Hc. by rewrite sort_by_dist_perm in Hc.
Qed.

(** X8.  After a pass over an open slide with something visible, every
    placed tile is on the active level and within one tile of the
    aligned box; the pass places nothing, and below the ceiling of 2500
    placed tiles it keeps every tile that passes that test. *)
Theorem pass_leaves_no_stale_tile w v :
  wsi_viewer w = Some v ->
  rect_isEmpty (pass_rect w) = false ->
  let w' := update_visible_tiles w in
  (forall lv tx ty,
      (lv, tx, ty) ∈ (wsi_tile_items w').*1 ->
      lv = current_level w /\
      pass_x0 w - 2 * TILE_SIZE <= tx <= pass_x1 w + TILE_SIZE /\
      pass_y0 w - 2 * TILE_SIZE <= ty <= pass_y1 w + TILE_SIZE) /\
  (forall p, p ∈ wsi_tile_items w' -> p ∈ wsi_tile_items w) /\
  (forall lv tx ty it,
      Z.of_nat (length (wsi_tile_items w)) <= MAX_TILES_ON_SCENE ->
      ((lv, tx, ty), it) ∈ wsi_tile_items w ->
      lv = current_level w ->
      pass_x0 w - 2 * TILE_SIZE <= tx <= pass_x1 w + TILE_SIZE ->
      pass_y0 w - 2 * TILE_SIZE <= ty <= pass_y1 w + TILE_SIZE ->
      ((lv, tx, ty), it) ∈ wsi_tile_items w').
Proof.
  intros Hv He. cbv zeta.
  destruct (update_visible_tiles_items w v Hv He) as [-> _].
  unfold pass_cleaned. rewrite evict_invisible_items.
  destruct (capacity_guard_frame w) as (_ & _ & Hgl & _).
  cbv zeta in Hgl. rewrite Hgl. split_and!.
  - intros lv tx ty Hin. apply list_elem_of_fmap in Hin as (p & Hp1 & Hp).
    apply list_elem_of_In, filter_In in Hp as [_ Hp]. rewrite <- Hp1 in Hp.
    apply negb_true_iff in Hp. by apply out_of_view_false in Hp.
  - intros p Hp. apply filter_sub in Hp.
    unfold capacity_guard in Hp. destruct (_ <? _); [|done].
    rewrite remove_tiles_items in Hp. by apply filter_sub in Hp.
  - intros lv tx ty it Hlen Hin Hlv Hx Hy.
    apply list_elem_of_In, filter_In. split.
    + apply list_elem_of_In. unfold capacity_guard.
      destruct (Z.ltb_spec MAX_TILES_ON_SCENE (Z.of_nat (length (wsi_tile_items w))));
        [lia|done].
    + apply negb_true_iff. simpl. by apply out_of_view_false.
Qed.

(** X9.  With more than 2500 tiles placed, the guard at the start of a
    pass removes the oldest third (by insertion) and nothing else; with
    2500 or fewer it does nothing. *)
Theorem capacity_guard_drops_oldest_third w :
  keys_unique w ->
  let n := length (wsi_tile_items w) in
  (MAX_TILES_ON_SCENE < Z.of_nat n ->
   wsi_tile_items (capacity_guard w) = drop (n / 3) (wsi_tile_items w) /\
   length (wsi_tile_items (capacity_guard w)) = (n - n / 3)%nat) /\
  (Z.of_nat n <= MAX_TILES_ON_SCENE -> capacity_guard w = w).
Proof.
  intros Hk. cbv zeta. split.
  - intros Hlt. rewrite (capacity_guard_items w Hk).
    destruct (Z.ltb_spec MAX_TILES_ON_SCENE (Z.of_nat (length (wsi_tile_items w))));
      [|lia].
    replace (Z.to_nat (Z.of_nat (length (wsi_tile_items w)) / 3))
      with (length (wsi_tile_items w) / 3)%nat.
    + split; [done|]. by rewrite length_drop.
    + rewrite <- (Nat2Z.id (_ / 3)%nat). f_equal.
      rewrite Nat2Z.inj_div. done.
  - intros Hle. unfold capacity_guard.
    destruct (Z.ltb_spec MAX_TILES_ON_SCENE (Z.of_nat (length (wsi_tile_items w))));
      [lia|done].
Qed.

(** X10.  Every task that a pass submits is for a tile of the active
    level whose origin is a multiple of the tile size inside the aligned
    box; it asks for a [TILE_SIZE] tile at the origin multiplied by the
    level's downsample, the product being a double, and truncated. *)
Theorem dispatched_tiles_are_on_the_grid w (tk : Task) :
  Submit tk ∈ pass_effects w ->
  exists v,
    wsi_viewer w = Some v /\
    task_lv tk = current_level w /\
    task_t tk = TILE_SIZE /\
    task_tx tk mod TILE_SIZE = 0 /\ task_ty tk mod TILE_SIZE = 0 /\
    pass_x0 w <= task_tx tk < pass_x1 w + TILE_SIZE /\
    pass_y0 w <= task_ty tk < pass_y1 w + TILE_SIZE /\
    task_x0 tk
      = py_int (fmul (inject_Z (task_tx tk)) (get_downsample v (current_level w))) /\
    task_y0 tk
      = py_int (fmul (inject_Z (task_ty tk)) (get_downsample v (current_level w))).
Proof.
  rewrite pass_effects_spec. destruct (wsi_viewer w) as [v|];
    [|intros Hin; by apply elem_of_nil in Hin].
  destruct (rect_isEmpty (pass_rect w)); [intros Hin; by apply elem_of_nil in Hin|].
  intros Hin. apply elem_of_dispatch_effects in Hin as (c & Hc & ->).
  apply pass_dispatched_sub, pass_candidates_elem in Hc
    as (x & y & -> & Hy & Hx & _ & _).
  apply py_range_elem in Hx as (i & Hi & Hxi & Hxlt); [|done].
  apply py_range_elem in Hy as (j & Hj & Hyj & Hylt); [|done].
  exists v. simpl. split_and!; try done.
  - rewrite Hxi. unfold pass_x0. rewrite <- Z.mul_add_distr_r. apply Z_mod_mult.
  - rewrite Hyj. unfold pass_y0. rewrite <- Z.mul_add_distr_r. apply Z_mod_mult.
  - rewrite Hxi. unfold TILE_SIZE. lia.
  - rewrite Hyj. unfold TILE_SIZE. lia.
Qed.

End PassProperties.

Section PassDispatch.
Context {View : Type} `{GraphicsView View} `{FloatPow}.
Implicit Types (w : MainWidget.t View) (k : tile_key).
Import MainWidget.

Lemma NoDup_flat_map {A B} (f : A -> list B) (l : list A) :
  NoDup l ->
  (forall x, x ∈ l -> NoDup (f x)) ->
  (forall x1 x2 y, x1 ∈ l -> x2 ∈ l -> y ∈ f x1 -> y ∈ f x2 -> x1 = x2) ->
  NoDup (flat_map f l).
Proof.
  induction l as [|x l IH]; intros Hnd Hf Hdisj; simpl; [apply NoDup_nil_2|].
  apply NoDup_cons in Hnd as [Hx Hnd].
  apply NoDup_app. split_and!.
  - apply Hf. by left.
  - intros y Hy Hy'. apply list_elem_of_In, in_flat_map in Hy' as (x' & Hx' & Hy').
    apply list_elem_of_In in Hx', Hy'.
    assert (x = x') as -> by (apply (Hdisj x x' y); [by left|by right|done|done]).
    done.
  - apply IH; [done| |].
    + intros x' Hx'. apply Hf. by right.
    + intros x1 x2 y H1 H2. apply Hdisj; by right.
Qed.

Lemma py_range_nodup (start stop step : Z) :
  0 < step -> NoDup (py_range start stop step).
Proof.
  intros Hs. unfold py_range. apply NoDup_fmap_2; [|apply NoDup_seq].
  intros i j E. nia.
Qed.

(** The loops of lines 888-896 produce each tile at most once. *)
Lemma candidates_nodup x0 y0 x1 y1 center w :
  NoDup (cand_key (current_level w) <$> candidates x0 y0 x1 y1 center w).
Proof.
  apply NoDup_fmap_2_strong.
  - intros c1 c2 H1 H2 E.
    apply candidates_elem in H1 as (a1 & b1 & -> & _).
    apply candidates_elem in H2 as (a2 & b2 & -> & _).
    unfold cand_key in E. simpl in E. by injection E as -> ->.
  - unfold candidates. apply NoDup_flat_map.
    + by apply py_range_nodup.
    + intros y _. apply NoDup_flat_map.
      * by apply py_range_nodup.
      * intros x _. destruct (_ || _); [apply NoDup_nil_2|apply NoDup_singleton].
      * intros a1 a2 c _ _ Hc1 Hc2.
        destruct (placed (_, a1, _) _ || _); [by apply elem_of_nil in Hc1|].
        destruct (placed (_, a2, _) _ || _); [by apply elem_of_nil in Hc2|].
        apply list_elem_of_singleton in Hc1, Hc2. congruence.
    + intros b1 b2 c _ _ Hc1 Hc2.
      apply list_elem_of_In, in_flat_map in Hc1 as (a1 & _ & Hc1).
      apply list_elem_of_In, in_flat_map in Hc2 as (a2 & _ & Hc2).
      destruct (placed (_, a1, b1) _ || _); [done|].
      destruct (placed (_, a2, b2) _ || _); [done|].
      destruct Hc1 as [<-|[]]. destruct Hc2 as [E|[]]. congruence.
Qed.

Lemma pass_dispatched_nodup w :
  NoDup (cand_key (current_level w) <$> pass_dispatched w).
Proof.
  unfold pass_dispatched. apply NoDup_fmap_take.
  rewrite sort_by_dist_perm. unfold pass_candidates.
  destruct (pass_cleaned_frame w) as (_ & _ & Hl & _). cbv zeta in Hl.
  rewrite <- Hl. apply candidates_nodup.
Qed.

(** X11.  A pass submits at most one task per tile, and none for a tile
    that was pending or is placed; every tile it submits is pending
    afterwards, and no key leaves the pending set. *)
Theorem one_decode_per_tile w :
  let w' := update_visible_tiles w in
  NoDup (submitted_keys (pass_effects w)) /\
  (forall k, k ∈ submitted_keys (pass_effects w) ->
     (k ∉ pending_tasks w) /\
     (k ∉ (wsi_tile_items w').*1) /\
     k ∈ pending_tasks w') /\
  pending_tasks w ⊆ pending_tasks w'.
Proof.
  cbv zeta. rewrite pass_effects_spec.
  destruct (wsi_viewer w) as [v|] eqn:Hv.
  2:{ unfold update_visible_tiles. rewrite Hv. simpl.
      split; [apply NoDup_nil_2|]. split; [|done].
      intros k Hk. by apply elem_of_nil in Hk. }
  destruct (rect_isEmpty (pass_rect w)) eqn:He.
  { unfold update_visible_tiles. rewrite Hv. unfold pass_rect in He. rewrite He.
    simpl. split; [apply NoDup_nil_2|]. split; [|done].
    intros k Hk. by apply elem_of_nil in Hk. }
  rewrite submitted_keys_dispatch.
  destruct (update_visible_tiles_effects w v Hv He) as [_ Hpend].
  destruct (update_visible_tiles_items w v Hv He) as [Hitems _].
  split; [apply pass_dispatched_nodup|]. split.
  - intros k Hk. pose proof Hk as Hk'.
    apply list_elem_of_fmap in Hk as (c & -> & Hc).
    apply pass_dispatched_sub, pass_candidates_elem in Hc
      as (x & y & -> & _ & _ & Hnp & Hnq).
    split; [done|]. split; [by rewrite Hitems|].
    rewrite Hpend. apply elem_of_union. right. by apply elem_of_list_to_set.
  - rewrite Hpend. apply union_subseteq_l.
Qed.


End PassDispatch.

(** * The completion handler, the scene and the life of a tile *)

Section Preservation.
Context {View : Type} `{GraphicsView View} `{FloatPow}.
Implicit Types (w : MainWidget.t View).
Import MainWidget.

(** A property that a pass keeps and that holds right after the scene
    has been reloaded for a level is kept by [_do_update] and by
    [_maybe_change_level]. *)
Section Kept.
Variable P : MainWidget.t View -> Prop.
Hypothesis P_pass : forall w, P w -> P (update_visible_tiles w).
Hypothesis P_reload :
  forall w old_level v l,
    wsi_viewer w = Some v ->
    P (set_timer false (reload_and_center old_level v (set_level l w))).

Lemma maybe_change_level_keeps (rec : MainWidget.t View -> option (MainWidget.t View))
      (s : Q) w w' :
  (forall a b, rec a = Some b -> P a -> P b) ->
  _maybe_change_level rec s w = Some w' -> P w -> P w'.
Proof.
  intros Hrec Hrun HP. unfold _maybe_change_level in Hrun.
  destruct (wsi_viewer w) as [v|] eqn:Hv; [|by injection Hrun as <-].
  cbv zeta in Hrun. cbn [current_level set_level] in Hrun.
  destruct (Z.eqb_spec (select_level s (current_level w) (get_level_count v - 1))
              (current_level w)) as [E|_]; cbn [negb] in Hrun.
  - injection Hrun as <-. by rewrite E, set_level_same.
  - unfold _reload_scene_for_level, request_update in Hrun.
    cbn [wsi_viewer set_level] in Hrun. rewrite Hv in Hrun.
    apply Hrec in Hrun; [done|]. by apply P_reload.
Qed.

Lemma do_update_keeps fuel w w' :
  _do_update fuel w = Some w' -> P w -> P w'.
Proof.
  revert w w'. induction fuel as [|fuel IH]; intros w w'; [discriminate|].
  simpl. unfold do_update_body, _update_scale_bar_and_hud. intros Hrun HP.
  destruct (wsi_viewer (update_visible_tiles w)).
  - apply (maybe_change_level_keeps _ _ _ _ IH Hrun). by apply P_pass.
  - injection Hrun as <-. by apply P_pass.
Qed.
End Kept.

Lemma reload_cleared old_level v w :
  wsi_tile_items (set_timer false (reload_and_center old_level v w)) = [] /\
  scene_items (set_timer false (reload_and_center old_level v w)) = [] /\
  pending_tasks (set_timer false (reload_and_center old_level v w)) = ∅ /\
  wsi_viewer (set_timer false (reload_and_center old_level v w)) = wsi_viewer w.
Proof. done. Qed.

Lemma do_update_scene_inv fuel w w' :
  _do_update fuel w = Some w' -> scene_inv w -> scene_inv w'.
Proof.
  apply (do_update_keeps scene_inv).
  - apply update_visible_tiles_scene_inv.
  - intros w0 old v l _. by apply cleared_scene_inv.
Qed.


(** X14.  The scene shows exactly the placed tiles: starting from
    [__init__], after any completion, pass, worker task, forced update,
    level evaluation, opening or closing of a slide, no key is placed
    twice, the items of the scene are the items of the placed tiles in
    placing order, and each item sits at its tile's origin. *)
Theorem scene_shows_the_placed_tiles :
  (forall view : View, scene_inv (init view)) /\
  (forall w,
      scene_inv w ->
      (forall x y level arr, scene_inv (_on_tile_loaded x y level arr w)) /\
      scene_inv (update_visible_tiles w) /\
      (forall tk, scene_inv (run_task tk w).1) /\
      scene_inv (remove_image w) /\
      (forall fuel w', _do_update fuel w = Some w' -> scene_inv w') /\
      (forall fuel s w',
          _maybe_change_level (_do_update fuel) s w = Some w' -> scene_inv w') /\
      (forall fuel opened w',
          open_slide (_do_update fuel) opened w = Some w' -> scene_inv w')).
Proof.
  split; [intros view; by apply cleared_scene_inv|].
  intros w Hinv. split_and!.
  - intros x y level arr. by apply on_tile_loaded_scene_inv.
  - by apply update_visible_tiles_scene_inv.
  - intros tk. unfold run_task. destruct (wsi_viewer w); [|done].
    by destruct (read_tile _ _ _ _ _) as [[?|?] ?].
  - unfold remove_image. destruct (wsi_viewer w); [|done]. by apply cleared_scene_inv.
  - intros fuel w' Hrun. by apply (do_update_scene_inv fuel w).
  - intros fuel s w' Hrun.
    apply (maybe_change_level_keeps scene_inv) with (rec := _do_update fuel) (s := s) (w := w);
      try done.
    + intros w0 old v l _. by apply cleared_scene_inv.
    + intros a b. apply do_update_scene_inv.
  - intros fuel opened w' Hrun. unfold open_slide in Hrun.
    destruct opened as [s|e].
    + unfold fit_in_view in Hrun. simpl in Hrun. injection Hrun as <-.
      by apply cleared_scene_inv.
    + injection Hrun as <-. destruct (wsi_viewer w); [|done].
      by apply cleared_scene_inv.
Qed.

(** X15.  The life of a tile whose decode succeeds: with a cache of
    capacity at least 1, a task for a tile that is not cached and that
    the decoder can read emits [tile_loaded] with the decoded array;
    when the handler then runs, the level being the task's level and the
    tile not placed, the tile is placed with that array, is no longer
    pending, and the array is in the cache. *)
Theorem decoded_tile_gets_placed (tk : Task) w v (arr : ndarray) :
  wsi_viewer w = Some v ->
  1 <= TileCache.max_size (cache v) ->
  TileCache.cache (cache v)
    !! ((task_lv tk, task_x0 tk, task_y0 tk, task_t tk) : cache_key) = None ->
  read_region (slide v) (task_x0 tk, task_y0 tk) (task_lv tk) (task_t tk, task_t tk)
    = Ok arr ->
  task_lv tk = current_level w ->
  task_key tk ∉ (wsi_tile_items w).*1 ->
  exists w1 v1,
    run_task tk w = (w1, Some (task_tx tk, task_ty tk, task_lv tk, PyArray arr)) /\
    wsi_viewer w1 = Some v1 /\
    TileCache.cache (cache v1)
      !! ((task_lv tk, task_x0 tk, task_y0 tk, task_t tk) : cache_key) = Some arr /\
    let w2 := _on_tile_loaded (task_tx tk) (task_ty tk) (task_lv tk) (PyArray arr) w1 in
    (task_key tk, {| item_pix := arr; item_offset := (task_tx tk, task_ty tk) |})
      ∈ wsi_tile_items w2 /\
    {| item_pix := arr; item_offset := (task_tx tk, task_ty tk) |} ∈ scene_items w2 /\
    task_key tk ∉ pending_tasks w2.
Proof.
  intros Hv Hn Hmiss Hread Hlv Hk.
  assert (Hget : TileCache.get ((task_lv tk, task_x0 tk, task_y0 tk, task_t tk) : cache_key)
                   (cache v) = (None, cache v)) by (by apply get_miss).
  destruct (put_returns_with_capacity (cache v)
              ((task_lv tk, task_x0 tk, task_y0 tk, task_t tk) : cache_key) arr Hn)
    as [c2 Hput].
  exists (set_viewer (Some (set_cache c2 v)) w), (set_cache c2 v).
  split.
  { unfold run_task, read_tile. rewrite Hv. cbv zeta. rewrite Hget, Hread, Hput. done. }
  split; [done|]. split; [by apply (put_fresh_lookup (cache v) c2)|].
  cbv zeta.
  destruct (on_tile_loaded_places (task_tx tk) (task_ty tk) (task_lv tk) arr
              (set_viewer (Some (set_cache c2 v)) w)) as [Hi Hs]; [by eexists|done|done|].
  cbv zeta in Hi, Hs. rewrite Hi, Hs, on_tile_loaded_pending.
  split_and!.
  - apply elem_of_app. right. by left.
  - apply elem_of_app. right. by left.
  - intros Hin. apply elem_of_difference in Hin as [_ Hin]. apply Hin.
    by apply elem_of_singleton.
Qed.

End Preservation.

(** * Opening, closing and the level over time *)

Section Lifecycle.
Context {View : Type} `{GraphicsView View} `{FloatPow}.
Implicit Types (w : MainWidget.t View).
Import MainWidget.

Lemma on_tile_loaded_closed x y level arr w :
  closed_is_empty w -> closed_is_empty (_on_tile_loaded x y level arr w).
Proof.
  intros Hc Hv. rewrite on_tile_loaded_viewer in Hv.
  destruct (Hc Hv) as (Hi & Hp & Hs).
  rewrite on_tile_loaded_pending, Hp, empty_difference_L.
  unfold _on_tile_loaded. destruct arr; simpl; rewrite ?Hv; simpl; done.
Qed.

Lemma do_update_closed fuel w w' :
  _do_update fuel w = Some w' -> closed_is_empty w -> closed_is_empty w'.
Proof.
  apply (do_update_keeps closed_is_empty).
  - intros w0 Hc Hv.
    destruct (update_visible_tiles_frame w0) as (Hv' & _). cbv zeta in Hv'.
    rewrite Hv' in Hv. unfold update_visible_tiles. rewrite Hv. by apply Hc.
  - intros w0 old v l Hv0 Hv. simpl in Hv. congruence.
Qed.

(** X16.  With no slide open nothing is placed, pending or on the scene,
    from [__init__] on and after every operation.  So an [open_slide]
    whose decoder cannot open the file leaves no slide and nothing
    placed or pending, at the level the widget had; and [remove_image]
    does the same and does nothing when repeated. *)
Theorem nothing_is_left_without_a_slide :
  (forall view : View, closed_is_empty (init view)) /\
  (forall w,
      closed_is_empty w ->
      (forall x y level arr, closed_is_empty (_on_tile_loaded x y level arr w)) /\
      closed_is_empty (update_visible_tiles w) /\
      (forall tk, closed_is_empty (run_task tk w).1) /\
      (forall fuel w', _do_update fuel w = Some w' -> closed_is_empty w') /\
      (forall fuel s w',
          open_slide (_do_update fuel) (Ok s) w = Some w' -> closed_is_empty w') /\
      (forall rec e,
          exists w',
            open_slide rec (Raise e) w = Some w' /\
            wsi_viewer w' = None /\ wsi_tile_items w' = [] /\
            pending_tasks w' = ∅ /\ scene_items w' = [] /\
            current_level w' = current_level w) /\
      (wsi_viewer (remove_image w) = None /\
       wsi_tile_items (remove_image w) = [] /\
       pending_tasks (remove_image w) = ∅ /\
       scene_items (remove_image w) = [] /\
       remove_image (remove_image w) = remove_image w)).
Proof.
  split; [intros view _; done|].
  intros w Hc. split_and!.
  - intros x y level arr. by apply on_tile_loaded_closed.
  - intros Hv. destruct (update_visible_tiles_frame w) as (Hv' & _). cbv zeta in Hv'.
    rewrite Hv' in Hv. unfold update_visible_tiles. rewrite Hv. by apply Hc.
  - intros tk. unfold run_task. destruct (wsi_viewer w) eqn:Hv; [|done].
    by destruct (read_tile _ _ _ _ _) as [[?|?] ?].
  - intros fuel w' Hrun. by apply (do_update_closed fuel w).
  - intros fuel s w' Hrun. unfold open_slide, fit_in_view in Hrun. simpl in Hrun.
    injection Hrun as <-. intros Hv. done.
  - intros rec e. eexists. split; [reflexivity|].
    destruct (wsi_viewer w) eqn:Hv; [done|].
    destruct (Hc Hv) as (Hi & Hp & Hs). done.
  - unfold remove_image. by destruct (wsi_viewer w) eqn:Hv.
  - unfold remove_image. destruct (wsi_viewer w) eqn:Hv; [done|]. by apply Hc.
  - unfold remove_image. destruct (wsi_viewer w) eqn:Hv; [done|]. by apply Hc.
  - unfold remove_image. destruct (wsi_viewer w) eqn:Hv; [done|]. by apply Hc.
  - unfold remove_image. destruct (wsi_viewer w) eqn:Hv; [done|]. by rewrite Hv.
Qed.

(** X17.  The decision of the level selector: one level finer when the
    scale is above the upper threshold and a finer level exists, one
    level coarser when it is below the lower threshold and a coarser
    level exists, otherwise the same level; so never more than one level
    away, never outside [0, max_level] when started inside, and always
    the same level for a scale inside the band. *)
Theorem selector_moves_one_level (s : Q) (level max_level : Z) :
  ((upper < s)%Q -> 0 < level -> select_level s level max_level = level - 1) /\
  ((s < lower)%Q -> level < max_level -> select_level s level max_level = level + 1) /\
  (~ ((upper < s)%Q /\ 0 < level) -> ~ ((s < lower)%Q /\ level < max_level) ->
     select_level s level max_level = level) /\
  Z.abs (select_level s level max_level - level) <= 1 /\
  (0 <= level <= max_level -> 0 <= select_level s level max_level <= max_level) /\
  ((lower <= s)%Q -> (s <= upper)%Q -> select_level s level max_level = level).
Proof.
  destruct (select_level_spec s level max_level) as (H1 & H2 & H3 & H4 & H5).
  split_and!; try done. apply select_level_in_range.
Qed.

(** X18.  Evaluations at scales inside the band change nothing at all:
    after any run of them the widget is the widget before, whatever the
    fuel. *)
Theorem scales_in_band_change_nothing fuel (scales : list Q) w :
  Forall (fun s => (lower <= s)%Q /\ (s <= upper)%Q) scales ->
  evaluate_scales fuel scales w = Some w.
Proof. apply in_band_scales_keep_level. Qed.

(** X19.  A level change runs to the end of the pyramid in one call:
    with the view's scale above the upper threshold [_maybe_change_level]
    returns at level 0, with the scale below the lower threshold it
    returns at the coarsest level, the slide still open; one re-entry of
    [_do_update] per level crossed is enough fuel. *)
Theorem level_change_runs_to_the_end fuel w v :
  wsi_viewer w = Some v ->
  0 <= current_level w < get_level_count v ->
  (Z.to_nat (get_level_count v) <= fuel)%nat ->
  let s := view_m11 (graphics_view w) in
  ((upper < s)%Q ->
   exists w', _maybe_change_level (_do_update fuel) s w = Some w' /\
              current_level w' = 0 /\ wsi_viewer w' = Some v) /\
  ((s < lower)%Q ->
   exists w', _maybe_change_level (_do_update fuel) s w = Some w' /\
              current_level w' = get_level_count v - 1 /\ wsi_viewer w' = Some v).
Proof.
  intros Hv Hl Hfuel. cbv zeta. split; intros Hs.
  - apply (zoom_in_cascades_to_level_0 (Z.to_nat (current_level w))); try done; lia.
  - apply (zoom_out_cascades_to_max_level
             (Z.to_nat (get_level_count v - 1 - current_level w))); try done; lia.
Qed.

Lemma maybe_change_level_mono
      (rec rec' : MainWidget.t View -> option (MainWidget.t View)) (s : Q) w w' :
  (forall a b, rec a = Some b -> rec' a = Some b) ->
  _maybe_change_level rec s w = Some w' -> _maybe_change_level rec' s w = Some w'.
Proof.
  intros Hrec. unfold _maybe_change_level. destruct (wsi_viewer w) as [v|] eqn:Hv; [|done].
  cbv zeta. destruct (negb _); [|done].
  unfold _reload_scene_for_level, request_update. cbn [wsi_viewer set_level].
  rewrite Hv. apply Hrec.
Qed.

Lemma do_update_more_fuel n m w w' :
  (n <= m)%nat -> _do_update n w = Some w' -> _do_update m w = Some w'.
Proof.
  revert m w w'. induction n as [|n IH]; intros m w w' Hle; [discriminate|].
  destruct m as [|m]; [lia|]. simpl.
  unfold do_update_body, _update_scale_bar_and_hud.
  destruct (wsi_viewer (update_visible_tiles w)); [|done].
  apply maybe_change_level_mono. intros a b. apply IH. lia.
Qed.

(** X20.  [_do_update] returns: for a widget whose level is a level of
    the open slide, any fuel of at least [level_count + 2] re-entries
    gives a result, and with no slide open one step does. *)
Theorem do_update_returns_with_enough_fuel fuel w :
  level_in_range w ->
  (match wsi_viewer w with
   | Some v => Z.to_nat (get_level_count v) + 2
   | None => 1
   end <= fuel)%nat ->
  exists w', _do_update fuel w = Some w'.
Proof.
  intros Hl Hfuel. destruct (wsi_viewer w) as [v|] eqn:Hv.
  - destruct (update_visible_tiles_frame w) as (Huv & Hul & _).
    cbv zeta in Huv, Hul.
    destruct (maybe_change_level_returns
                (view_m11 (graphics_view (update_visible_tiles w)))
                (update_visible_tiles w) v) as (w' & Hrun).
    + congruence.
    + rewrite Hul. by apply Hl.
    + exists w'. apply (do_update_more_fuel (S (S (Z.to_nat (get_level_count v)))));
        [lia|].
      cbn [_do_update]. unfold do_update_body, _update_scale_bar_and_hud.
      rewrite Huv, Hv. exact Hrun.
  - exists w. apply (do_update_more_fuel 1); [lia|].
    cbn [_do_update]. unfold do_update_body, _update_scale_bar_and_hud.
    unfold update_visible_tiles. rewrite Hv. by rewrite Hv.
Qed.

(** X21.  The active level is always a level of the open slide, and the
    placed tiles are tiles of the active level: this holds after
    [__init__] and is kept by completions, passes, worker tasks, forced
    updates, level evaluations, closing, and the opening of any slide
    with at least one level. *)
Theorem level_stays_a_level_of_the_slide :
  (forall view : View, widget_inv (init view)) /\
  (forall w,
      widget_inv w ->
      (forall x y level arr, widget_inv (_on_tile_loaded x y level arr w)) /\
      widget_inv (update_visible_tiles w) /\
      (forall tk, widget_inv (run_task tk w).1) /\
      widget_inv (remove_image w) /\
      (forall fuel w', _do_update fuel w = Some w' -> widget_inv w') /\
      (forall fuel s w',
          _maybe_change_level (_do_update fuel) s w = Some w' -> widget_inv w') /\
      (forall fuel opened w',
          (forall s, opened = Ok s -> 1 <= level_count s) ->
          open_slide (_do_update fuel) opened w = Some w' -> widget_inv w')).
Proof.
  split; [apply init_inv|].
  intros w Hinv. split_and!.
  - intros x y level arr. by apply on_tile_loaded_inv.
  - by apply update_visible_tiles_inv.
  - intros tk. by apply run_task_inv.
  - by apply remove_image_inv.
  - intros fuel w' Hrun. by apply (do_update_inv fuel w).
  - intros fuel s w' Hrun.
    apply (maybe_change_level_inv (_do_update fuel) (do_update_inv fuel) s w); done.
  - intros fuel opened w' Hcount Hrun.
    apply (open_slide_inv (_do_update fuel) opened w); done.
Qed.

End Lifecycle.

(** ** The pass and the handler on concrete widgets *)

Lemma pass_leaves_no_stale_tile_witness :
  let w := widget_two_tiles in
  MainWidget.wsi_viewer w = Some (WSIViewer_init slide4) /\
  rect_isEmpty (MainWidget.pass_rect w) = false /\
  ((2, 0, 0), tile_item 0 0) ∈ MainWidget.wsi_tile_items (MainWidget.update_visible_tiles w) /\
  MainWidget.wsi_tile_items (MainWidget.update_visible_tiles w) = [((2, 0, 0), tile_item 0 0)].
Proof.
  cbv zeta. split; [reflexivity|]. split; [reflexivity|].
  pose proof (pass_leaves_no_stale_tile widget_two_tiles (WSIViewer_init slide4)
                eq_refl eq_refl) as Hthm.
  cbv zeta in Hthm. destruct Hthm as (_ & _ & Hkeep).
  split.
  - apply (Hkeep 2 0 0 (tile_item 0 0)).
    + vm_compute. discriminate.
    + left.
    + reflexivity.
    + vm_compute. split; discriminate.
    + vm_compute. split; discriminate.
  - vm_compute. reflexivity.
Defined.

Lemma tile_row_keys_unique (n : nat) : keys_unique (widget_with_row n).
Proof.
  unfold keys_unique, widget_with_row, tile_row. simpl.
  rewrite <- list_fmap_compose. apply NoDup_fmap_2; [|apply NoDup_seq].
  intros i j E. simpl in E. injection E as E. lia.
Defined.

Lemma capacity_guard_drops_oldest_third_witness :
  keys_unique (widget_with_row 2502) /\
  length (MainWidget.wsi_tile_items (MainWidget.capacity_guard (widget_with_row 2502)))
  = 1668%nat /\
  MainWidget.capacity_guard (widget_with_row 3) = widget_with_row 3.
Proof.
  split; [apply tile_row_keys_unique|].
  destruct (capacity_guard_drops_oldest_third (widget_with_row 2502)
              (tile_row_keys_unique 2502)) as [Hover _].
  destruct (capacity_guard_drops_oldest_third (widget_with_row 3)
              (tile_row_keys_unique 3)) as [_ Hunder].
  cbv zeta in Hover, Hunder. split.
  - assert (Hlen : length (MainWidget.wsi_tile_items (widget_with_row 2502)) = 2502%nat).
    { vm_compute. reflexivity. }
    rewrite Hlen in Hover. destruct Hover as [_ ->]; [vm_compute; reflexivity|].
    reflexivity.
  - apply Hunder. vm_compute. discriminate.
Defined.

Lemma dispatched_tiles_are_on_the_grid_witness :
  let w := widget_on slide4 2 (view_at 1) in
  let tk := MainWidget.make_task 2 16 1024 512 in
  Submit tk ∈ pass_effects w /\
  task_tx tk mod TILE_SIZE = 0 /\
  MainWidget.pass_x0 w <= task_tx tk < MainWidget.pass_x1 w + TILE_SIZE.
Proof.
  cbv zeta.
  assert (Hin : Submit (MainWidget.make_task 2 16 1024 512)
                  ∈ pass_effects (widget_on slide4 2 (view_at 1))).
  { apply (bool_decide_unpack _). vm_compute. reflexivity. }
  split; [exact Hin|].
  destruct (dispatched_tiles_are_on_the_grid _ _ Hin)
    as (v & _ & _ & _ & Hmod & _ & Hbox & _).
  split; [exact Hmod|exact Hbox].
Defined.

Lemma one_decode_per_tile_witness :
  let w := widget_on slide4 2 (view_at 1) in
  NoDup (MainWidget.submitted_keys (pass_effects w)) /\
  (2, 0, 0) ∈ MainWidget.pending_tasks (MainWidget.update_visible_tiles w).
Proof.
  cbv zeta.
  destruct (one_decode_per_tile (widget_on slide4 2 (view_at 1))) as (Hnd & Hsub & _).
  split; [exact Hnd|].
  apply (Hsub (2, 0, 0)). apply (bool_decide_unpack _). vm_compute. reflexivity.
Defined.



Lemma widget_two_tiles_on_level : MainWidget.tiles_on_level widget_two_tiles.
Proof.
  intros k Hk. cbn in Hk.
  apply elem_of_cons in Hk as [->|Hk]; [reflexivity|].
  apply elem_of_cons in Hk as [->|Hk]; [reflexivity|].
  by apply elem_of_nil in Hk.
Defined.

Lemma widget_two_tiles_scene_inv : scene_inv widget_two_tiles.
Proof.
  split; [exact widget_two_tiles_on_level|]. split.
  - apply (bool_decide_unpack _). vm_compute. reflexivity.
  - split; [reflexivity|]. intros k it Hk. cbn in Hk.
    apply elem_of_cons in Hk as [[= -> ->]|Hk]; [reflexivity|].
    apply elem_of_cons in Hk as [[= -> ->]|Hk]; [reflexivity|].
    by apply elem_of_nil in Hk.
Defined.

(** A slide is open on level 2 with two tiles placed, one of them out of
    view; a third tile arrives and is placed, then a pass removes the tile
    out of view. *)
Lemma scene_shows_the_placed_tiles_witness :
  let w := MainWidget.update_visible_tiles
             (MainWidget._on_tile_loaded 512 0 2 (PyArray blank_tile)
                widget_two_tiles) in
  scene_inv widget_two_tiles /\
  scene_inv w /\
  MainWidget.wsi_tile_items w
    = [((2, 0, 0), tile_item 0 0); ((2, 512, 0), tile_item 512 0)] /\
  MainWidget.scene_items w = [tile_item 0 0; tile_item 512 0].
Proof.
  cbv zeta. split; [exact widget_two_tiles_scene_inv|].
  destruct (scene_shows_the_placed_tiles (View := PlainView)) as [_ Hkeep].
  destruct (Hkeep _ widget_two_tiles_scene_inv) as (Hload & _).
  destruct (Hkeep _ (Hload 512 0 2 (PyArray blank_tile))) as (_ & Hpass & _).
  split; [exact Hpass|]. split; vm_compute; reflexivity.
Defined.

Lemma decoded_tile_gets_placed_witness :
  let w := widget_on slide4 2 (view_at 1) in
  let tk := MainWidget.make_task 2 16 512 0 in
  exists w1 v1,
    MainWidget.run_task tk w = (w1, Some (512, 0, 2, PyArray blank_tile)) /\
    MainWidget.wsi_viewer w1 = Some v1 /\
    ((2, 512, 0), tile_item 512 0)
      ∈ MainWidget.wsi_tile_items
          (MainWidget._on_tile_loaded 512 0 2 (PyArray blank_tile) w1).
Proof.
  cbv zeta.
  destruct (decoded_tile_gets_placed (MainWidget.make_task 2 16 512 0)
              (widget_on slide4 2 (view_at 1)) (WSIViewer_init slide4) blank_tile)
    as (w1 & v1 & Hrun & Hv1 & _ & Hplaced & _).
  - reflexivity.
  - vm_compute. discriminate.
  - reflexivity.
  - reflexivity.
  - reflexivity.
  - apply not_elem_of_nil.
  - exists w1, v1. split; [exact Hrun|]. split; [exact Hv1|exact Hplaced].
Defined.

Lemma nothing_is_left_without_a_slide_witness :
  exists w',
    MainWidget.open_slide (MainWidget._do_update 1) (Raise OpenSlideError)
      (MainWidget.init (view_at 1)) = Some w' /\
    MainWidget.wsi_viewer w' = None /\ MainWidget.pending_tasks w' = ∅.
Proof.
  destruct (nothing_is_left_without_a_slide (View := PlainView)) as [Hinit Hkeep].
  destruct (Hkeep _ (Hinit (view_at 1))) as (_ & _ & _ & _ & _ & Hfail & _).
  destruct (Hfail (MainWidget._do_update 1) OpenSlideError)
    as (w' & Hopen & Hv & _ & Hp & _).
  exists w'. split; [exact Hopen|]. split; [exact Hv|exact Hp].
Defined.

Lemma scales_in_band_change_nothing_witness :
  MainWidget.evaluate_scales 1 [1%Q; 1.5%Q; 1%Q; 1.5%Q] (widget_on slide4 2 (view_at 1))
  = Some (widget_on slide4 2 (view_at 1)).
Proof.
  apply (scales_in_band_change_nothing 1 [1%Q; 1.5%Q; 1%Q; 1.5%Q]).
  repeat constructor; vm_compute; discriminate.
Defined.

Lemma level_change_runs_to_the_end_witness :
  (exists w', MainWidget._maybe_change_level (MainWidget._do_update 4) 3
                (widget_on slide4 2 (view_at 3)) = Some w' /\
              MainWidget.current_level w' = 0) /\
  (exists w', MainWidget._maybe_change_level (MainWidget._do_update 4) 0.5
                (widget_on slide4 1 (view_at 0.5)) = Some w' /\
              MainWidget.current_level w' = 3).
Proof.
  split.
  - destruct (level_change_runs_to_the_end 4 (widget_on slide4 2 (view_at 3))
                (WSIViewer_init slide4) eq_refl) as [Hin _].
    + vm_compute. split; [discriminate|reflexivity].
    + vm_compute. lia.
    + destruct Hin as (w' & Hrun & Hl & _); [reflexivity|].
      exists w'. split; [exact Hrun|exact Hl].
  - destruct (level_change_runs_to_the_end 4 (widget_on slide4 1 (view_at 0.5))
                (WSIViewer_init slide4) eq_refl) as [_ Hout].
    + vm_compute. split; [discriminate|reflexivity].
    + vm_compute. lia.
    + destruct Hout as (w' & Hrun & Hl & _); [reflexivity|].
      exists w'. split; [exact Hrun|exact Hl].
Defined.

Lemma do_update_returns_with_enough_fuel_witness :
  exists w', MainWidget._do_update 6 (widget_on slide4 2 (view_at 3)) = Some w'.
Proof.
  apply (do_update_returns_with_enough_fuel 6 (widget_on slide4 2 (view_at 3))).
  - intros v [= <-]. vm_compute. split; [discriminate|reflexivity].
  - vm_compute. lia.
Defined.

Lemma widget_two_tiles_inv : MainWidget.widget_inv widget_two_tiles.
Proof.
  split; [exact widget_two_tiles_on_level|].
  intros v [= <-]. vm_compute. split; [discriminate|reflexivity].
Defined.

(** A slide with four levels is open on level 2 with two tiles placed.  A
    third tile arrives and a pass runs: the level is still 2 and the tiles
    are tiles of level 2.  An evaluation at scale 3.0 moves to level 1,
    with nothing placed. *)
Lemma level_stays_a_level_of_the_slide_witness :
  let w := MainWidget.update_visible_tiles
             (MainWidget._on_tile_loaded 512 0 2 (PyArray blank_tile)
                widget_two_tiles) in
  MainWidget.widget_inv widget_two_tiles /\
  MainWidget.widget_inv w /\
  MainWidget.wsi_viewer w = Some (WSIViewer_init slide4) /\
  MainWidget.current_level w = 2 /\
  (MainWidget.wsi_tile_items w).*1 = [(2, 0, 0); (2, 512, 0)] /\
  exists w',
    MainWidget._maybe_change_level (MainWidget._do_update 4) 3 widget_two_tiles
      = Some w' /\
    MainWidget.widget_inv w' /\ MainWidget.current_level w' = 1.
Proof.
  cbv zeta. split; [exact widget_two_tiles_inv|].
  destruct (level_stays_a_level_of_the_slide (View := PlainView)) as [_ Hkeep].
  destruct (Hkeep _ widget_two_tiles_inv) as (Hload & _ & _ & _ & _ & Hlevel & _).
  destruct (Hkeep _ (Hload 512 0 2 (PyArray blank_tile))) as (_ & Hpass & _).
  split; [exact Hpass|]. split_and!; [vm_compute; reflexivity..|].
  destruct (MainWidget._maybe_change_level (MainWidget._do_update 4) 3 widget_two_tiles)
    as [w'|] eqn:E; [|vm_compute in E; discriminate].
  exists w'. split; [reflexivity|]. split; [exact (Hlevel 4%nat 3%Q w' E)|].
  assert (Hl : MainWidget.current_level <$>
                 MainWidget._maybe_change_level (MainWidget._do_update 4) 3
                   widget_two_tiles = Some 1) by (vm_compute; reflexivity).
  rewrite E in Hl. by injection Hl.
Defined.

(** * The scale bar and the overview *)

Section ScaleBar.
Import ScaleBarWidget.

Variables px_per_um target_px : Q.

Lemma scan_step_first_nearest (l seen : list Z) (b : best) :
  best_px b = fmul (inject_Z (best_um b)) px_per_um /\
  best_diff b = Some (diff_of px_per_um target_px (best_um b)) ->
  first_nearest px_per_um target_px seen (best_um b) ->
  let r := foldl (scan_step px_per_um target_px) b l in
  (best_px r = fmul (inject_Z (best_um r)) px_per_um /\
   best_diff r = Some (diff_of px_per_um target_px (best_um r))) /\
  first_nearest px_per_um target_px (seen ++ l) (best_um r).
Proof.
  revert seen b. induction l as [|um l IH]; intros seen b Hs Hf.
  - cbn. by rewrite app_nil_r.
  - cbn [foldl]. replace (seen ++ um :: l) with ((seen ++ [um]) ++ l)
      by (by rewrite <- app_assoc).
    apply IH.
    + destruct Hs as [Hp Hd]. unfold scan_step. rewrite Hd.
      destruct (Qlt_bool _ _); [split; reflexivity | by split].
    + destruct Hs as [Hp Hd]. destruct Hf as (before & after & -> & Hb & Ha).
      unfold scan_step. rewrite Hd.
      fold (diff_of px_per_um target_px um).
      destruct (Qlt_bool _ _) eqn:E.
      * apply Qlt_bool_iff in E. cbn [best_um].
        exists (before ++ best_um b :: after), []. split; [done|]. split.
        -- intros u Hu. apply elem_of_app in Hu as [Hu|Hu].
           ++ eapply Qlt_trans; [exact E | by apply Hb].
           ++ apply elem_of_cons in Hu as [->|Hu]; [exact E|].
              eapply Qlt_le_trans; [exact E | by apply Ha].
        -- intros u Hu. by apply elem_of_nil in Hu.
      * apply Qlt_bool_false in E.
        exists before, (after ++ [um]). split; [by rewrite <- app_assoc|].
        split; [exact Hb|]. intros u Hu.
        apply elem_of_app in Hu as [Hu|Hu]; [by apply Ha|].
        apply list_elem_of_singleton in Hu as ->. exact E.
Qed.

Lemma scan_first_nearest :
  let r := scan px_per_um target_px in
  best_px r = fmul (inject_Z (best_um r)) px_per_um /\
  first_nearest px_per_um target_px nice_um (best_um r).
Proof.
  pose proof (scan_step_first_nearest [20; 50; 100; 200; 500; 1000; 2000] [10]
    (mk_best 10 (fmul (inject_Z 10) px_per_um)
             (Some (diff_of px_per_um target_px 10)))) as Hscan.
  destruct Hscan as [[Hp _] Hf].
  - by split.
  - exists [], []. split; [done|].
    split; intros u Hu; by apply elem_of_nil in Hu.
  - split; [exact Hp | exact Hf].
Qed.

End ScaleBar.

(** Rounding to a double does not lose a quotient whose denominator is
    below [2^1000]: the result is not zero. *)
Lemma round_half_even_ge (n d : Z) : 0 < d -> n / d <= round_half_even n d.
Proof.
  intros Hd. unfold round_half_even. destruct (2 * (n mod d) ?= d); [|lia|lia].
  destruct (Z.even (n / d)); lia.
Qed.

Lemma round64_pos_positive (n d : Z) :
  0 < n -> 0 < d -> d < 2 ^ 1000 -> (0 < round64_pos n d)%Q.
Proof.
  intros Hn Hd Hbound. unfold round64_pos. cbv zeta.
  set (e0 := Z.log2 n - Z.log2 d - 52).
  match goal with |- context [Z.max ?x (-1074)] => set (e1 := x) end.
  pose proof (Z.log2_spec n Hn) as [Hn1 Hn2].
  pose proof (Z.log2_spec d Hd) as [Hd1 Hd2].
  pose proof (Z.log2_nonneg n) as Hln.
  pose proof (Z.log2_nonneg d) as Hld0.
  assert (Hld : Z.log2 d < 1000) by (apply Z.log2_lt_pow2; lia).
  assert (He1 : e0 - 1 <= e1 <= e0) by (subst e1; destruct (_ <? _); lia).
  assert (Hmax : Z.max e1 (-1074) = e1) by (subst e0; lia).
  rewrite Hmax.
  assert (Hkey : forall e, e <= e0 ->
            (0 <= e -> d * 2 ^ e <= n) /\ (e < 0 -> d <= n * 2 ^ (- e))).
  { intros e He. split; intros Hs.
    - assert (2 ^ (Z.succ (Z.log2 d)) * 2 ^ e <= 2 ^ Z.log2 n).
      { rewrite <- Z.pow_add_r by lia. apply Z.pow_le_mono_r; subst e0; lia. }
      nia.
    - assert (2 ^ (Z.succ (Z.log2 d)) <= 2 ^ Z.log2 n * 2 ^ (- e)).
      { rewrite <- Z.pow_add_r by lia. apply Z.pow_le_mono_r; subst e0; lia. }
      assert (0 < 2 ^ (- e)) by (apply Z.pow_pos_nonneg; lia).
      nia. }
  destruct (Hkey e1 ltac:(lia)) as [Hpos Hneg].
  destruct (Z.leb_spec 0 e1) as [Hs|Hs].
  - assert (0 < 2 ^ e1) by (apply Z.pow_pos_nonneg; lia).
    assert (1 <= n / (d * 2 ^ e1)).
    { apply Z.div_le_lower_bound; [nia|]. specialize (Hpos Hs). lia. }
    pose proof (round_half_even_ge n (d * 2 ^ e1) ltac:(nia)).
    unfold Qlt. cbn. nia.
  - assert (0 < 2 ^ (- e1)) by (apply Z.pow_pos_nonneg; lia).
    assert (1 <= n * 2 ^ (- e1) / d).
    { apply Z.div_le_lower_bound; [lia|]. specialize (Hneg Hs). lia. }
    pose proof (round_half_even_ge (n * 2 ^ (- e1)) d Hd).
    rewrite Qred_correct. unfold Qlt. cbn. lia.
Qed.

Lemma round64_nonzero (q : Q) :
  ~ (q == 0)%Q -> Z.pos (Qden q) < 2 ^ 1000 -> ~ (round64 q == 0)%Q.
Proof.
  intros Hq Hd. unfold round64. destruct q as [[|n|n] d]; cbn [Qnum Qden] in *.
  - exfalso. apply Hq. reflexivity.
  - pose proof (round64_pos_positive (Z.pos n) (Z.pos d) ltac:(lia) ltac:(lia) Hd) as Hp.
    intros E. rewrite E in Hp. discriminate.
  - pose proof (round64_pos_positive (Z.pos n) (Z.pos d) ltac:(lia) ltac:(lia) Hd) as Hp.
    intros E. apply (Qopp_comp _ _) in E. rewrite Qopp_involutive in E.
    rewrite E in Hp. discriminate.
Qed.

(** The ratio of a non-zero pixel count to a positive one of at most
    [2^53] is not the double zero. *)
Lemma fdiv_int_nonzero (a b : Z) :
  a <> 0 -> 0 < b <= 2 ^ 53 ->
  Qeq_bool (fdiv (inject_Z a) (inject_Z b)) 0 = false.
Proof.
  intros Ha Hb. apply not_true_is_false. intros E. apply Qeq_bool_iff in E.
  revert E. unfold fdiv. apply round64_nonzero.
  - intros E. destruct b as [|b|b]; [lia| |lia].
    unfold Qeq, Qdiv, Qmult, Qinv in E. cbn in E. lia.
  - destruct b as [|b|b]; [lia| |lia].
    unfold Qdiv, Qmult, Qinv. cbn [Qnum Qden inject_Z].
    assert (2 ^ 53 < 2 ^ 1000) by (apply Z.pow_lt_mono_r; lia).
    lia.
Qed.

Lemma py_max_le (a b : Q) : (a <= ScaleBarWidget.py_max a b)%Q.
Proof.
  unfold ScaleBarWidget.py_max. destruct (Qlt_bool a b) eqn:E.
  - apply Qlt_bool_iff in E. by apply Qlt_le_weak.
  - apply Qle_refl.
Qed.

Lemma py_clamp (lo hi v : Q) :
  (lo <= hi)%Q ->
  (lo <= ScaleBarWidget.py_max lo (ScaleBarWidget.py_min hi v) <= hi)%Q.
Proof.
  intros Hle. unfold ScaleBarWidget.py_max, ScaleBarWidget.py_min.
  destruct (Qlt_bool v hi) eqn:E1;
    [apply Qlt_bool_iff in E1 | apply Qlt_bool_false in E1];
    (destruct (Qlt_bool lo _) eqn:E2;
      [apply Qlt_bool_iff in E2 | apply Qlt_bool_false in E2]); lra.
Qed.

(** X22. On a slide with a resolution ([mpp] positive), the scale bar is
    labelled with a length of the list 10, 20, 50, ... 2000 micrometres: the
    one whose bar, as the doubles compute it, is nearest to half the drawing
    width, the first of the list among those computed equally near.  The
    bar drawn is that length in pixels, cut to lie between 40 pixels and the
    drawing width less 40, and is never shorter than 40 pixels. *)
Theorem scale_bar_shows_the_nearest_nice_length
    (widget_width : Z) (s : ScaleBarWidget.t) (m : Q) :
  ScaleBarWidget.mpp s = Some m ->
  (0 < m)%Q ->
  let px_per_um := fdiv (ScaleBarWidget.view_scale s) m in
  let target_px := fmul (inject_Z (widget_width - 24)) 0.5 in
  exists um,
    (ScaleBarWidget.bar widget_width s).2 = ScaleBarWidget.LabelUm um /\
    ScaleBarWidget.first_nearest px_per_um target_px ScaleBarWidget.nice_um um /\
    (ScaleBarWidget.bar widget_width s).1 =
      ScaleBarWidget.py_max 40
        (ScaleBarWidget.py_min (inject_Z (widget_width - 24 - 40))
                               (fmul (inject_Z um) px_per_um)) /\
    (40 <= (ScaleBarWidget.bar widget_width s).1)%Q.
Proof.
  intros Hm Hpos px_per_um target_px.
  destruct (scan_first_nearest px_per_um target_px) as [Hp Hf].
  exists (ScaleBarWidget.best_um (ScaleBarWidget.scan px_per_um target_px)).
  assert (Hbar : ScaleBarWidget.bar widget_width s =
    (ScaleBarWidget.py_max 40
       (ScaleBarWidget.py_min (inject_Z (widget_width - 24 - 40))
          (ScaleBarWidget.best_px (ScaleBarWidget.scan px_per_um target_px))),
     ScaleBarWidget.LabelUm
       (ScaleBarWidget.best_um (ScaleBarWidget.scan px_per_um target_px)))).
  { unfold ScaleBarWidget.bar. rewrite Hm.
    assert (Qeq_bool m 0 = false) as ->.
    { apply not_true_is_false. intros E. apply Qeq_bool_iff in E. lra. }
    assert (Qle_bool m 0 = false) as ->.
    { apply not_true_is_false. intros E. apply Qle_bool_iff in E. lra. }
    reflexivity. }
  rewrite Hbar. cbn [fst snd]. split; [done|]. split; [exact Hf|].
  split; [by rewrite Hp|]. apply py_max_le.
Qed.

(** At width 64, [mpp] 3.0 and scale 4.0 the bars of 10 and 20 micrometres
    are equally far from the target of 20 pixels, but not in doubles: the
    label is 20. *)
Lemma scale_bar_shows_the_nearest_nice_length_witness :
  (ScaleBarWidget.bar 64 (ScaleBarWidget.mk (Some 3%Q) 4%Q)).2
    = ScaleBarWidget.LabelUm 20 /\
  exists um,
    (ScaleBarWidget.bar 64 (ScaleBarWidget.mk (Some 3%Q) 4%Q)).2 =
      ScaleBarWidget.LabelUm um /\
    ScaleBarWidget.first_nearest (fdiv 4 3) (fmul (inject_Z (64 - 24)) 0.5)
      ScaleBarWidget.nice_um um.
Proof.
  split; [vm_compute; reflexivity|].
  destruct (scale_bar_shows_the_nearest_nice_length 64
              (ScaleBarWidget.mk (Some 3%Q) 4%Q) 3%Q eq_refl)
    as (um & Hl & Hf & _).
  - reflexivity.
  - exists um. split; [exact Hl | exact Hf].
Defined.

(** X23. Once a thumbnail is set for a slide of positive size, every point
    of the overview widget, inside the thumbnail or not, is mapped to a point
    of the slide: [_to_level0] returns, and its result lies between 0 and the
    slide's width and height.  (Sizes up to [2^53], beyond which an [int]
    is not a double any more.) *)
Theorem overview_point_lands_on_the_slide
    (o o' : OverviewWidget.t) (scaled full_size : Z * Z) (pos : QPointF) :
  0 < full_size.1 <= 2 ^ 53 ->
  0 < full_size.2 <= 2 ^ 53 ->
  OverviewWidget.set_overview scaled full_size o = Some o' ->
  exists cx cy,
    OverviewWidget._to_level0 pos o' = Some (cx, cy) /\
    (0 <= cx <= inject_Z full_size.1)%Q /\
    (0 <= cy <= inject_Z full_size.2)%Q.
Proof.
  intros Hw Hh Hset. unfold OverviewWidget.set_overview in Hset.
  destruct (_ || _) eqn:E0 in Hset; [done|]. injection Hset as <-.
  assert (Hfw : (0 <= inject_Z full_size.1)%Q)
    by (rewrite <- (Zle_Qle 0); lia).
  assert (Hfh : (0 <= inject_Z full_size.2)%Q)
    by (rewrite <- (Zle_Qle 0); lia).
  unfold OverviewWidget._to_level0.
  cbn [OverviewWidget._pix OverviewWidget._ratio_x OverviewWidget._ratio_y
       OverviewWidget._full_w OverviewWidget._full_h].
  destruct (negb _) eqn:Et.
  { exists 0%Q, 0%Q. split; [done|]. split; split; lra. }
  apply negb_false_iff in Et. unfold OverviewWidget.pix_truthy in Et.
  apply negb_true_iff, orb_false_iff in Et as [Es1 Es2].
  apply Z.eqb_neq in Es1, Es2.
  rewrite (fdiv_int_nonzero _ _ Es1 Hw), (fdiv_int_nonzero _ _ Es2 Hh). cbn [orb].
  eexists _, _. split; [reflexivity|]. split; by apply py_clamp.
Qed.

Lemma overview_point_lands_on_the_slide_witness :
  exists cx cy,
    OverviewWidget._to_level0 {| pt_x := 500%Q; pt_y := (-3)%Q |}
      (OverviewWidget.mk (Some (212, 106)) 8192 4096
         (fdiv (inject_Z 212) (inject_Z 8192)) (fdiv (inject_Z 106) (inject_Z 4096))
         None)
      = Some (cx, cy) /\
    (0 <= cx <= inject_Z 8192)%Q /\ (0 <= cy <= inject_Z 4096)%Q.
Proof.
  apply (overview_point_lands_on_the_slide OverviewWidget.init _
           (212, 106) (8192, 4096)).
  - split; [reflexivity | discriminate].
  - split; [reflexivity | discriminate].
  - reflexivity.
Defined.

(** Without the bound the ratio can round to zero: for a slide [2^1100]
    pixels wide [set_overview] stores the ratio 0.0 and [_to_level0] raises
    on the division. *)
Lemma overview_of_a_huge_slide_raises :
  (fun o => OverviewWidget._to_level0 {| pt_x := 100%Q; pt_y := 100%Q |} o)
    <$> OverviewWidget.set_overview (212, 212) (2 ^ 1100, 2 ^ 1100)
          OverviewWidget.init
  = Some None.
Proof. vm_compute. reflexivity. Qed.

(** * The review manager *)

Section Review.
Import ReviewManager.

Lemma pop_app {A : Type} (l : list A) (a : A) : pop (l ++ [a]) = Some (l, a).
Proof.
  induction l as [|b l IH]; [reflexivity|].
  cbn [app pop]. by rewrite IH.
Qed.

Lemma pop_Some {A : Type} (l r : list A) (a : A) :
  pop l = Some (r, a) -> l = r ++ [a].
Proof.
  revert r. induction l as [|b l IH]; intros r Hp; [done|].
  cbn [pop] in Hp. destruct (pop l) as [[r' c]|] eqn:E.
  - injection Hp as <- <-. by rewrite (IH r' eq_refl).
  - injection Hp as <- <-. destruct l as [|c l]; [done|].
    cbn [pop] in E. by destruct (pop l) as [[? ?]|].
Qed.

Lemma pop_None {A : Type} (l : list A) : pop l = None -> l = [].
Proof.
  destruct l as [|b l]; [done|]. cbn [pop].
  by destruct (pop l) as [[? ?]|].
Qed.

Lemma set_label_same (p : Types.Patch) : Types.set_label (Types.label p) p = p.
Proof. by destruct p. Qed.

Lemma find_relabel (pid l : string) (ps : list Types.Patch) (p : Types.Patch) :
  _find pid ps = Some p ->
  _find pid (relabel pid l ps) = Some (Types.set_label l p).
Proof.
  unfold _find. induction ps as [|a ps IH]; [done|].
  cbn [List.find relabel]. destruct (String.eqb (Types.patch_id a) pid) eqn:E.
  - intros [= ->]. cbn [List.find]. cbn [Types.set_label Types.patch_id].
    by rewrite E.
  - intros Hf. cbn [List.find]. rewrite E. by apply IH.
Qed.

Lemma relabel_relabel (pid l1 l2 : string) (ps : list Types.Patch) :
  relabel pid l2 (relabel pid l1 ps) = relabel pid l2 ps.
Proof.
  induction ps as [|a ps IH]; [done|].
  cbn [relabel]. destruct (String.eqb (Types.patch_id a) pid) eqn:E.
  - cbn [relabel Types.set_label Types.patch_id]. by rewrite E.
  - cbn [relabel]. by rewrite E, IH.
Qed.

Lemma relabel_same (pid : string) (ps : list Types.Patch) (p : Types.Patch) :
  _find pid ps = Some p -> relabel pid (Types.label p) ps = ps.
Proof.
  unfold _find. induction ps as [|a ps IH]; [done|].
  cbn [List.find relabel]. destruct (String.eqb (Types.patch_id a) pid) eqn:E.
  - intros [= ->]. by rewrite set_label_same.
  - intros Hf. by rewrite IH.
Qed.

Lemma relabel_unlabelled (pid l : string) (ps : list Types.Patch) :
  unlabelled <$> relabel pid l ps = unlabelled <$> ps.
Proof.
  induction ps as [|a ps IH]; [done|].
  cbn [relabel]. destruct (String.eqb (Types.patch_id a) pid).
  - reflexivity.
  - cbn [fmap list_fmap]. f_equal. exact IH.
Qed.

Lemma assign_unlabelled (pid l : string) (ps : list Types.Patch) :
  unlabelled <$> assign pid l ps = unlabelled <$> ps.
Proof.
  unfold assign. destruct (_find pid ps); [apply relabel_unlabelled | done].
Qed.

(** Taking back an assignment: the old label is the one the patch had. *)
Lemma assign_back (pid old new : string) (ps : list Types.Patch) (p : Types.Patch) :
  _find pid ps = Some p ->
  Types.label p = old ->
  assign pid old (assign pid new ps) = ps.
Proof.
  intros Hf <-. unfold assign. rewrite Hf, (find_relabel _ _ _ _ Hf).
  rewrite relabel_relabel. by apply relabel_same.
Qed.

Lemma replay_snoc (recs : list ChangeRec) (rec : ChangeRec) (ps : list Types.Patch) :
  replay (recs ++ [rec]) ps =
  assign (rec_patch_id rec) (rec_new_label rec) (replay recs ps).
Proof. unfold replay. by rewrite foldl_app. Qed.

Lemma valid_chain_app (l1 l2 : list ChangeRec) (ps : list Types.Patch) :
  valid_chain (l1 ++ l2) ps <->
  valid_chain l1 ps /\ valid_chain l2 (replay l1 ps).
Proof.
  revert ps. induction l1 as [|rec l1 IH]; intros ps.
  - cbn. tauto.
  - cbn [app valid_chain]. rewrite IH. cbn [replay foldl]. tauto.
Qed.

Lemma history_inv_set_data (ps0 : list Types.Patch) (meta : Types.SlideMeta) (s : t) :
  history_inv ps0 (set_data ps0 meta s).
Proof. by split. Qed.

Lemma history_inv_move_class (ps0 : list Types.Patch) (pid new now : string) (s : t) :
  history_inv ps0 s -> history_inv ps0 (move_class pid new now s).
Proof.
  intros [Hc Hp]. unfold move_class.
  destruct (_find pid (_patches s)) as [p|] eqn:Hf; [|by split].
  destruct (String.eqb (Types.label p) new); [by split|].
  unfold history_inv, _emit.
  cbn [_undo_stack _redo_stack _patches reverse rev_append].
  rewrite app_nil_r. apply valid_chain_app in Hc as [Hc _].
  split.
  - apply valid_chain_app. split; [exact Hc|].
    cbn [valid_chain rec_patch_id rec_old_label]. split; [|done].
    exists p. by rewrite <- Hp.
  - rewrite replay_snoc. cbn [rec_patch_id rec_new_label].
    rewrite <- Hp. unfold assign. by rewrite Hf.
Qed.

Lemma history_inv_undo (ps0 : list Types.Patch) (s : t) :
  history_inv ps0 s -> history_inv ps0 (undo s).
Proof.
  intros [Hc Hp]. unfold undo.
  destruct (pop (_undo_stack s)) as [[rest rec]|] eqn:E; [|by split].
  apply pop_Some in E. rewrite E in Hc, Hp.
  unfold history_inv, _emit. cbn [_undo_stack _redo_stack _patches].
  rewrite reverse_snoc. rewrite <- app_assoc in Hc. cbn [app] in Hc.
  split; [exact Hc|].
  apply valid_chain_app in Hc as [_ Hc].
  cbn [valid_chain] in Hc. destruct Hc as [(p & Hf & Hl) _].
  rewrite Hp, replay_snoc. by apply (assign_back _ _ _ _ p).
Qed.

Lemma history_inv_redo (ps0 : list Types.Patch) (s : t) :
  history_inv ps0 s -> history_inv ps0 (redo s).
Proof.
  intros [Hc Hp]. unfold redo.
  destruct (pop (_redo_stack s)) as [[rest rec]|] eqn:E; [|by split].
  apply pop_Some in E. rewrite E in Hc.
  unfold history_inv, _emit. cbn [_undo_stack _redo_stack _patches].
  rewrite reverse_snoc in Hc. split.
  - by rewrite <- app_assoc.
  - by rewrite replay_snoc, Hp.
Qed.

Lemma history_inv_run (ps0 : list Types.Patch) (o : op) (s : t) :
  history_inv ps0 s -> history_inv ps0 (run o s).
Proof.
  destruct o; cbn [run].
  - apply history_inv_move_class.
  - unfold hide. by destruct (decide _).
  - unfold restore. by destruct (decide _).
  - apply history_inv_undo.
  - apply history_inv_redo.
Qed.

Lemma history_inv_run_all (ps0 : list Types.Patch) (ops : list op) (s : t) :
  history_inv ps0 s -> history_inv ps0 (run_all ops s).
Proof.
  revert s. induction ops as [|o ops IH]; intros s Hs; [exact Hs|].
  cbn [run_all foldl]. apply IH. by apply history_inv_run.
Qed.

Lemma undo_all (ps0 : list Types.Patch) (n : nat) (s : t) :
  history_inv ps0 s ->
  length (_undo_stack s) = n ->
  _patches (Nat.iter n undo s) = ps0 /\ _undo_stack (Nat.iter n undo s) = [].
Proof.
  revert s. induction n as [|n IH]; intros s Hs Hn.
  - destruct Hs as [_ Hp]. apply nil_length_inv in Hn.
    cbn [Nat.iter nat_rect]. rewrite Hp, Hn. by split.
  - rewrite Nat.iter_succ_r. apply IH; [by apply history_inv_undo|].
    unfold undo. destruct (pop (_undo_stack s)) as [[rest rec]|] eqn:E.
    + apply pop_Some in E. rewrite E, length_app in Hn.
      cbn [_emit _undo_stack]. cbn in Hn. lia.
    + apply pop_None in E. by rewrite E in Hn.
Qed.

End Review.

(** X25. Undoing straight after a move that took effect gives the patch its
    old label back and leaves the undo stack as it was before the move; the
    record goes to the redo stack, and it stays in the change log, which
    [undo] never shortens. *)
Theorem undo_takes_back_a_move
    (s : ReviewManager.t) (patch_id new_label now : string) (p : Types.Patch) :
  ReviewManager._find patch_id (ReviewManager._patches s) = Some p ->
  Types.label p <> new_label ->
  let rec := ReviewManager.mkRec patch_id (Types.label p) new_label
               (ReviewManager.reviewer s) now in
  let s' := ReviewManager.undo (ReviewManager.move_class patch_id new_label now s) in
  ReviewManager._patches s' = ReviewManager._patches s /\
  ReviewManager._undo_stack s' = ReviewManager._undo_stack s /\
  ReviewManager._redo_stack s' = [rec] /\
  ReviewManager._changes s' = ReviewManager._changes s ++ [rec].
Proof.
  intros Hf Hne rec s'. subst s'. unfold ReviewManager.move_class.
  rewrite Hf. apply String.eqb_neq in Hne. rewrite Hne.
  unfold ReviewManager.undo, ReviewManager._emit.
  cbn [ReviewManager._undo_stack ReviewManager._patches ReviewManager._redo_stack
       ReviewManager._changes].
  rewrite pop_app.
  cbn [ReviewManager._undo_stack ReviewManager._patches ReviewManager._redo_stack
       ReviewManager._changes ReviewManager.rec_patch_id
       ReviewManager.rec_old_label app].
  split; [|done].
  unfold ReviewManager.assign. rewrite (find_relabel _ _ _ _ Hf).
  rewrite relabel_relabel. by apply relabel_same.
Qed.

Lemma undo_takes_back_a_move_witness :
  ReviewManager._patches
    (ReviewManager.undo
       (ReviewManager.move_class "s:t0:0" "HSIL" "2024-01-01T00:00:00" manager_ab))
  = [patch_a; patch_b].
Proof.
  apply (undo_takes_back_a_move manager_ab "s:t0:0" "HSIL" "2024-01-01T00:00:00"
           patch_a).
  - reflexivity.
  - discriminate.
Defined.

(** X26. In every state with something to undo that the manager reaches
    from [set_data], by moves, hides, restores, undos and redos in any
    order, an undo followed by a redo changes nothing but the notification
    log: labels, both stacks, change log and hidden set are as before.
    (With an empty undo stack [undo] does nothing, and the [redo] after it
    redoes what had been undone before.) *)
Theorem redo_reverts_undo
    (ps0 : list Types.Patch) (meta : Types.SlideMeta) (s0 : ReviewManager.t)
    (ops : list ReviewManager.op) :
  let s := ReviewManager.run_all ops (ReviewManager.set_data ps0 meta s0) in
  ReviewManager._undo_stack s <> [] ->
  ReviewManager.data (ReviewManager.redo (ReviewManager.undo s)) =
  ReviewManager.data s.
Proof.
  intros s Hne.
  assert (Hinv : ReviewManager.history_inv ps0 s)
    by apply history_inv_run_all, history_inv_set_data.
  clearbody s. destruct Hinv as [Hc Hp].
  unfold ReviewManager.undo.
  destruct (ReviewManager.pop (ReviewManager._undo_stack s)) as [[rest rec]|] eqn:E.
  2: { by apply pop_None in E. }
  apply pop_Some in E.
  unfold ReviewManager.redo, ReviewManager._emit.
  cbn [ReviewManager._redo_stack]. rewrite pop_app.
  unfold ReviewManager.data.
  cbn [ReviewManager._patches ReviewManager._meta ReviewManager._changes
       ReviewManager._undo_stack ReviewManager._redo_stack
       ReviewManager._hidden_ids ReviewManager.reviewer].
  rewrite <- E. repeat f_equal.
  rewrite E in Hc, Hp. rewrite <- app_assoc in Hc.
  apply valid_chain_app in Hc as [_ Hc].
  cbn [app ReviewManager.valid_chain] in Hc. destruct Hc as [(p & Hf & Hl) _].
  rewrite Hp, replay_snoc. by rewrite (assign_back _ _ _ _ p Hf Hl).
Qed.

Lemma redo_reverts_undo_witness :
  ReviewManager.data
    (ReviewManager.redo (ReviewManager.undo
       (ReviewManager.run_all
          [ReviewManager.MoveClass "s:t0:0" "HSIL" "t1";
           ReviewManager.Hide "s:t1:1";
           ReviewManager.MoveClass "s:t0:0" "LSIL" "t2"]
          manager_ab)))
  = ReviewManager.data
      (ReviewManager.run_all
         [ReviewManager.MoveClass "s:t0:0" "HSIL" "t1";
          ReviewManager.Hide "s:t1:1";
          ReviewManager.MoveClass "s:t0:0" "LSIL" "t2"]
         manager_ab).
Proof.
  apply (redo_reverts_undo [patch_a; patch_b] (Types.mkSlideMeta "s" None [] [])
           (ReviewManager.init "anonymous")
           [ReviewManager.MoveClass "s:t0:0" "HSIL" "t1";
            ReviewManager.Hide "s:t1:1";
            ReviewManager.MoveClass "s:t0:0" "LSIL" "t2"]).
  discriminate.
Defined.

(** X27. [move_class] changes the manager exactly when the patch exists and
    does not have the new label yet.  Otherwise nothing happens at all: no
    record, no notification, and the redo stack is not cleared. *)
Theorem move_class_takes_effect_iff
    (s : ReviewManager.t) (patch_id new_label now : string) :
  ReviewManager.move_class patch_id new_label now s <> s <->
  exists p, ReviewManager._find patch_id (ReviewManager._patches s) = Some p /\
            Types.label p <> new_label.
Proof.
  unfold ReviewManager.move_class.
  destruct (ReviewManager._find patch_id (ReviewManager._patches s)) as [p|].
  - destruct (String.eqb (Types.label p) new_label) eqn:E.
    + apply String.eqb_eq in E. split; [done|].
      intros (q & [= <-] & Hne). done.
    + apply String.eqb_neq in E. split.
      * intros _. by exists p.
      * intros _ Heq. apply (f_equal ReviewManager._changes) in Heq.
        cbn [ReviewManager._emit ReviewManager._changes] in Heq.
        apply (f_equal length) in Heq. rewrite length_app in Heq.
        cbn in Heq. lia.
  - split; [done|]. by intros (q & [=] & _).
Qed.

(** X28. No call of the manager touches anything of a patch but its label,
    the number and order of the patches, or what is already in the change
    log and the notification log: the logs only grow.  An undo or a redo
    adds nothing to the change log and moves one record between the two
    stacks or none. *)
Theorem calls_keep_patches_and_logs (o : ReviewManager.op) (s : ReviewManager.t) :
  ReviewManager.unlabelled <$> ReviewManager._patches (ReviewManager.run o s)
    = ReviewManager.unlabelled <$> ReviewManager._patches s /\
  ReviewManager._changes s `prefix_of` ReviewManager._changes (ReviewManager.run o s) /\
  ReviewManager.emitted s `prefix_of` ReviewManager.emitted (ReviewManager.run o s) /\
  ((o = ReviewManager.Undo \/ o = ReviewManager.Redo) ->
   ReviewManager._changes (ReviewManager.run o s) = ReviewManager._changes s /\
   (length (ReviewManager._undo_stack (ReviewManager.run o s)) +
    length (ReviewManager._redo_stack (ReviewManager.run o s)) =
    length (ReviewManager._undo_stack s) + length (ReviewManager._redo_stack s))%nat).
Proof.
  destruct o; cbn [ReviewManager.run].
  - unfold ReviewManager.move_class.
    destruct (ReviewManager._find _ _) as [p|].
    + destruct (String.eqb _ _).
      * split_and!; [done..|]. by intros [|].
      * cbn [ReviewManager._emit ReviewManager._patches ReviewManager._changes
             ReviewManager.emitted].
        split_and!; [apply relabel_unlabelled | by apply prefix_app_r
                    | by apply prefix_app_r | by intros [|]].
    + split_and!; [done..|]. by intros [|].
  - unfold ReviewManager.hide. destruct (decide _).
    + split_and!; [done..|]. by intros [|].
    + cbn [ReviewManager._emit ReviewManager._patches ReviewManager._changes
           ReviewManager.emitted].
      split_and!; [done | done | by apply prefix_app_r | by intros [|]].
  - unfold ReviewManager.restore. destruct (decide _).
    + cbn [ReviewManager._emit ReviewManager._patches ReviewManager._changes
           ReviewManager.emitted].
      split_and!; [done | done | by apply prefix_app_r | by intros [|]].
    + split_and!; [done..|]. by intros [|].
  - unfold ReviewManager.undo.
    destruct (ReviewManager.pop _) as [[rest rec]|] eqn:E.
    + apply pop_Some in E.
      cbn [ReviewManager._emit ReviewManager._patches ReviewManager._changes
           ReviewManager.emitted ReviewManager._undo_stack
           ReviewManager._redo_stack].
      split_and!; [apply assign_unlabelled | done | by apply prefix_app_r |].
      intros _. split; [done|]. rewrite E, !length_app. cbn. lia.
    + split_and!; [done..|]. by intros _.
  - unfold ReviewManager.redo.
    destruct (ReviewManager.pop _) as [[rest rec]|] eqn:E.
    + apply pop_Some in E.
      cbn [ReviewManager._emit ReviewManager._patches ReviewManager._changes
           ReviewManager.emitted ReviewManager._undo_stack
           ReviewManager._redo_stack].
      split_and!; [apply assign_unlabelled | done | by apply prefix_app_r |].
      intros _. split; [done|]. rewrite E, !length_app. cbn. lia.
    + split_and!; [done..|]. by intros _.
Qed.

(** X29. Hiding is a soft deletion by id: after [hide] the id is hidden,
    after [restore] it is not, and no other id changes its status.  Neither
    call touches the patches, the stacks or the change log.  Hiding an id
    that is hidden, or restoring one that is not, does nothing at all and
    notifies nobody; otherwise exactly one notification is sent. *)
Theorem hide_and_restore (patch_id : string) (s : ReviewManager.t) :
  ReviewManager.is_hidden patch_id (ReviewManager.hide patch_id s) = true /\
  ReviewManager.is_hidden patch_id (ReviewManager.restore patch_id s) = false /\
  (forall q, q <> patch_id ->
     ReviewManager.is_hidden q (ReviewManager.hide patch_id s)
       = ReviewManager.is_hidden q s /\
     ReviewManager.is_hidden q (ReviewManager.restore patch_id s)
       = ReviewManager.is_hidden q s) /\
  (forall s', s' = ReviewManager.hide patch_id s \/
              s' = ReviewManager.restore patch_id s ->
     ReviewManager._patches s' = ReviewManager._patches s /\
     ReviewManager._meta s' = ReviewManager._meta s /\
     ReviewManager._changes s' = ReviewManager._changes s /\
     ReviewManager._undo_stack s' = ReviewManager._undo_stack s /\
     ReviewManager._redo_stack s' = ReviewManager._redo_stack s /\
     ReviewManager.reviewer s' = ReviewManager.reviewer s) /\
  (ReviewManager.is_hidden patch_id s = true ->
     ReviewManager.hide patch_id s = s /\
     length (ReviewManager.emitted (ReviewManager.restore patch_id s))
       = S (length (ReviewManager.emitted s))) /\
  (ReviewManager.is_hidden patch_id s = false ->
     ReviewManager.restore patch_id s = s /\
     length (ReviewManager.emitted (ReviewManager.hide patch_id s))
       = S (length (ReviewManager.emitted s))).
Proof.
  assert (Hh : patch_id ∈ ReviewManager._hidden_ids (ReviewManager.hide patch_id s)).
  { unfold ReviewManager.hide. destruct (decide _) as [Hin|Hout]; [exact Hin|].
    cbn [ReviewManager._emit ReviewManager._hidden_ids].
    apply elem_of_union_l, elem_of_singleton. reflexivity. }
  assert (Hr : patch_id ∉ ReviewManager._hidden_ids (ReviewManager.restore patch_id s)).
  { unfold ReviewManager.restore. destruct (decide _) as [Hin|Hout]; [|exact Hout].
    cbn [ReviewManager._emit ReviewManager._hidden_ids].
    intros Hd. apply elem_of_difference in Hd as [_ Hd].
    apply Hd, elem_of_singleton. reflexivity. }
  split; [unfold ReviewManager.is_hidden; by apply bool_decide_eq_true|].
  split; [unfold ReviewManager.is_hidden; by apply bool_decide_eq_false|].
  split.
  { intros q Hq. unfold ReviewManager.is_hidden, ReviewManager.hide,
      ReviewManager.restore.
    destruct (decide _) as [Hin|Hout];
      cbn [ReviewManager._emit ReviewManager._hidden_ids].
    + split; [done|]. apply bool_decide_ext. rewrite elem_of_difference.
      rewrite elem_of_singleton. tauto.
    + split; [|done]. apply bool_decide_ext. rewrite elem_of_union.
      rewrite elem_of_singleton. tauto. }
  split.
  { intros s' [->| ->].
    - unfold ReviewManager.hide. by destruct (decide _).
    - unfold ReviewManager.restore. by destruct (decide _). }
  unfold ReviewManager.is_hidden. split.
  - intros Hin. apply bool_decide_eq_true in Hin.
    unfold ReviewManager.hide, ReviewManager.restore.
    destruct (decide _) as [_|Hout]; [|done]. split; [done|].
    cbn [ReviewManager._emit ReviewManager.emitted]. rewrite length_app. cbn. lia.
  - intros Hout. apply bool_decide_eq_false in Hout.
    unfold ReviewManager.hide, ReviewManager.restore.
    destruct (decide _) as [Hin|_]; [done|]. split; [done|].
    cbn [ReviewManager._emit ReviewManager.emitted]. rewrite length_app. cbn. lia.
Qed.

(** On the manager holding the two patches, hiding the first and restoring
    it again. *)
Lemma hide_and_restore_witness :
  ReviewManager.is_hidden "s:t0:0" manager_ab = false /\
  ReviewManager.restore "s:t0:0" manager_ab = manager_ab /\
  ReviewManager.is_hidden "s:t0:0" (ReviewManager.hide "s:t0:0" manager_ab) = true /\
  ReviewManager.hide "s:t0:0" (ReviewManager.hide "s:t0:0" manager_ab)
    = ReviewManager.hide "s:t0:0" manager_ab.
Proof.
  assert (Hnot : ReviewManager.is_hidden "s:t0:0" manager_ab = false) by reflexivity.
  split; [exact Hnot|].
  destruct (hide_and_restore "s:t0:0" manager_ab) as (_ & _ & _ & _ & _ & Hrestore).
  destruct (hide_and_restore "s:t0:0" (ReviewManager.hide "s:t0:0" manager_ab))
    as (_ & _ & _ & _ & Hhide & _).
  destruct (hide_and_restore "s:t0:0" manager_ab) as (Hhidden & _).
  split; [exact (proj1 (Hrestore Hnot))|]. split; [exact Hhidden|].
  exact (proj1 (Hhide Hhidden)).
Defined.

(** X30. However the reviewer has moved, hidden, restored, undone and redone
    since the patches were loaded with [set_data], undoing until the undo
    stack is empty brings back exactly the patches as loaded, every label
    included. *)
Theorem undoing_everything_restores_the_loaded_labels
    (ps0 : list Types.Patch) (meta : Types.SlideMeta) (s0 : ReviewManager.t)
    (ops : list ReviewManager.op) :
  let s := ReviewManager.run_all ops (ReviewManager.set_data ps0 meta s0) in
  let s' := Nat.iter (length (ReviewManager._undo_stack s)) ReviewManager.undo s in
  ReviewManager._patches s' = ps0 /\ ReviewManager._undo_stack s' = [].
Proof.
  intros s s'. subst s'. apply undo_all; [|reflexivity].
  apply history_inv_run_all, history_inv_set_data.
Qed.
